(** * promptu: address parsing, version gating, provisioning, retrieval
      and remote prompt sessions

    A shallow embedding of the TypeScript sources
      - [src/promptParser.ts]   (parsePrompt, getPromptName, addDefaultExtension)
      - [src/mcpInstaller.ts]   (isVersionSufficient, installServers, ...)
      - [src/promptFetcher.ts]  (fetchWithFallbackStrategyToFile, fetchViaHttp, ...)
      - [src/mcpClient.ts]      (createClient, getPrompt)
    followed by the properties established about them.

    Conventions.  A JavaScript string is a [string]: every [ascii] stands
    for one UTF-16 code unit below 256.  Asynchronous code is sequential
    here: every [await] is a bind in a state-and-exception monad, the
    state being the part of the outside world the function touches
    together with the trace of the calls it made, newest first.  What
    the outside world answers (the user, the network, external
    processes, the file system) is given by oracle classes; an oracle
    sees the trace so far, so that two calls with the same arguments may
    be answered differently. *)

From Stdlib Require Import Ascii String ZArith List Bool Lia.
From stdpp Require Import base strings pretty gmap.

Local Open Scope Z_scope.

(* ===================================================================== *)
(** * JavaScript string primitives                                        *)
(* ===================================================================== *)

Module Js.

(** [s.length] *)
Definition len (s : string) : nat := String.length s.

(** [s.startsWith(p)] *)
Definition startsWith (s p : string) : bool := String.prefix p s.

(** [s.substring(n)]: what is left after the first [n] code units. *)
Fixpoint skip (n : nat) (s : string) : string :=
  match n, s with
  | O, _ => s
  | S _, EmptyString => EmptyString
  | S n', String _ r => skip n' r
  end.

(** [s.endsWith(suffix)]: the search starts at [s.length - suffix.length]
    and fails when that is negative. *)
Definition endsWith (s suffix : string) : bool :=
  if (len suffix <=? len s)%nat
  then String.eqb (skip (len s - len suffix) s) suffix
  else false.

(** [s.includes(sub)] *)
Fixpoint includes (s sub : string) : bool :=
  String.prefix sub s ||
  match s with
  | EmptyString => false
  | String _ r => includes r sub
  end.

(** [s.split(sep)] for a separator that matches exactly one code unit:
    a one-character string, or a regular expression that is a
    character class.  The empty string splits into one empty segment. *)
Fixpoint splitBy (sep : ascii -> bool) (s : string) : list string :=
  match s with
  | EmptyString => [EmptyString]
  | String c r =>
      if sep c then EmptyString :: splitBy sep r
      else match splitBy sep r with
           | [] => [String c EmptyString]
           | h :: t => String c h :: t
           end
  end.

Definition split (s : string) (sep : ascii) : list string :=
  splitBy (Ascii.eqb sep) s.

(** [parts.join(sep)] *)
Definition join (parts : list string) (sep : string) : string :=
  String.concat sep parts.

(** [s.replace(pat, rep)] with a string pattern: only the first
    occurrence is replaced. *)
Fixpoint replace (pat rep s : string) : string :=
  if String.prefix pat s then rep +:+ skip (len pat) s
  else match s with
       | EmptyString => EmptyString
       | String c r => String c (replace pat rep r)
       end.

(** [parts[parts.length - 1]] of a non-empty array. *)
Definition lastOf (parts : list string) : string := List.last parts EmptyString.

(** [parts[0]] of a non-empty array. *)
Definition firstOf (parts : list string) : string := List.hd EmptyString parts.

(** The white space of [String.prototype.trim], of [\s] and of the
    prefix [parseInt] skips, among the code units below 256:
    TAB, LF, VT, FF, CR, SPACE and NBSP. *)
Definition isWhiteSpace (c : ascii) : bool :=
  let n := nat_of_ascii c in
  ((9 <=? n) && (n <=? 13) || (n =? 32) || (n =? 160))%nat.

Definition isDigit (c : ascii) : bool :=
  let n := nat_of_ascii c in ((48 <=? n) && (n <=? 57))%nat.

Definition isAsciiLetter (c : ascii) : bool :=
  let n := nat_of_ascii c in
  ((65 <=? n) && (n <=? 90) || (97 <=? n) && (n <=? 122))%nat.

Fixpoint trimStart (s : string) : string :=
  match s with
  | String c r => if isWhiteSpace c then trimStart r else s
  | EmptyString => EmptyString
  end.

Fixpoint trimEnd (s : string) : string :=
  match s with
  | EmptyString => EmptyString
  | String c r =>
      match trimEnd r with
      | EmptyString => if isWhiteSpace c then EmptyString else String c EmptyString
      | r' => String c r'
      end
  end.

(** [s.trim()] *)
Definition trim (s : string) : string := trimEnd (trimStart s).

(** [s.split(/\s+/)]: the separators are the maximal runs of white space. *)
Fixpoint splitWs (s : string) : list string :=
  match s with
  | EmptyString => [EmptyString]
  | String c r =>
      if isWhiteSpace c then
        match r with
        | String c' _ => if isWhiteSpace c' then splitWs r else EmptyString :: splitWs r
        | EmptyString => EmptyString :: splitWs r
        end
      else match splitWs r with
           | [] => [String c EmptyString]
           | h :: t => String c h :: t
           end
  end.

End Js.

(* ===================================================================== *)
(** * src/types.ts                                                        *)
(* ===================================================================== *)

Module ParsedPrompt.
Inductive kind := ado | github | url_ | local_ | installed | mcp.

(** [interface ParsedPrompt]; an absent optional member is [None]. *)
Record t := mk {
  type : kind;
  name : string;
  url : option string;
  org : option string;
  project : option string;
  repo : option string;
  owner : option string;
  filePath : option string;
  localPath : option string
}.

(** The string a [type] is in the source. *)
Definition typeName (k : kind) : string :=
  match k with
  | ado => "ado"
  | github => "github"
  | url_ => "url"
  | local_ => "local"
  | installed => "installed"
  | mcp => "mcp"
  end.

(** An object literal with only [type] and [name]. *)
Definition bare (k : kind) (n : string) : t :=
  mk k n None None None None None None None.
End ParsedPrompt.

(* ===================================================================== *)
(** * src/promptParser.ts                                                 *)
(* ===================================================================== *)

Module PromptParser.
Import ParsedPrompt.

(** The errors [parsePrompt] throws, one constructor per [throw]. *)
Inductive ParseError :=
| InvalidMcpFormat
| InvalidFormat
| InvalidAdoFormat
| InvalidGitHubFormat
| UnsupportedPlatform (platform : string).

Definition message (e : ParseError) : string :=
  match e with
  | InvalidMcpFormat => "Invalid MCP prompt format. Expected: mcp.ServerName.PromptName"
  | InvalidFormat => "Invalid format. Use ado:org/project/repo/path or gh:owner/repo/path"
  | InvalidAdoFormat => "Invalid ADO format. Use ado:org/project/repo/path"
  | InvalidGitHubFormat => "Invalid GitHub format. Use gh:owner/repo/path"
  | UnsupportedPlatform p => "Unsupported platform: " +:+ p
  end.

(** The specification's error taxonomy: a structural error of the
    address is [MalformedAddress], an unknown scheme tag is
    [UnsupportedScheme]. *)
Inductive ErrorClass := MalformedAddress | UnsupportedScheme.

Definition classify (e : ParseError) : ErrorClass :=
  match e with
  | UnsupportedPlatform _ => UnsupportedScheme
  | _ => MalformedAddress
  end.

(** [const extensions = ['.prompt.md', '.md', '.txt', '.json']] *)
Definition extensions : list string := [".prompt.md"; ".md"; ".txt"; ".json"].

(** [addDefaultExtension] *)
Definition addDefaultExtension (path : string) : string :=
  let hasExtension := existsb (fun ext => Js.endsWith path ext) extensions in
  if hasExtension then path else path +:+ ".prompt.md".

(** [/[/\\:]/] *)
Definition isPathSeparator (c : ascii) : bool :=
  Ascii.eqb c "/" || Ascii.eqb c "\" || Ascii.eqb c ":".

Fixpoint noDot (s : string) : bool :=
  match s with
  | EmptyString => true
  | String c r => negb (Ascii.eqb c ".") && noDot r
  end.

(** [s.replace(/\.[^.]*$/, '')]: the leftmost match of a dot followed
    by dot-free text up to the end of the string is removed. *)
Fixpoint removeLastExtension (s : string) : string :=
  match s with
  | EmptyString => EmptyString
  | String c r =>
      if Ascii.eqb c "." && noDot r then EmptyString
      else String c (removeLastExtension r)
  end.

(** [getPromptName] *)
Definition getPromptName (prompt : string) : string :=
  let parts := Js.splitBy isPathSeparator prompt in
  let lastPart := Js.lastOf parts in
  if Js.endsWith lastPart ".prompt.md"
  then Js.replace ".prompt.md" "" lastPart
  else removeLastExtension lastPart.

(** [prompt.match(/^[a-zA-Z]:\\/)] *)
Definition isWindowsAbsolute (prompt : string) : bool :=
  match prompt with
  | String c0 (String c1 (String c2 _)) =>
      Js.isAsciiLetter c0 && Ascii.eqb c1 ":" && Ascii.eqb c2 "\"
  | _ => false
  end.

(** [parsePrompt] *)
Definition parsePrompt (prompt : string) : ParseError + ParsedPrompt.t :=
  if Js.startsWith prompt "mcp." then
    let mcpParts := Js.split prompt "." in
    if negb (length mcpParts =? 3)%nat then inl InvalidMcpFormat
    else inr (bare mcp prompt)
  else if Js.startsWith prompt "http://" || Js.startsWith prompt "https://" then
    inr (mk url_ (getPromptName prompt) (Some (addDefaultExtension prompt))
            None None None None None None)
  else if isWindowsAbsolute prompt || Js.startsWith prompt "/" then
    inr (mk local_ (getPromptName prompt) None None None None None None
            (Some (addDefaultExtension prompt)))
  else if Js.includes prompt ":" then
    let name := getPromptName prompt in
    let prompt := addDefaultExtension prompt in
    match Js.split prompt ":" with
    | [] => inl InvalidFormat
    | platform :: rest =>
        if (length rest =? 0)%nat then inl InvalidFormat
        else
          let fullPath := Js.join rest ":" in
          if String.eqb platform "ado" then
            let parts := Js.split fullPath "/" in
            match parts with
            | org :: project :: repo :: ((_ :: _) as pathParts) =>
                inr (mk ado name None (Some org) (Some project) (Some repo) None
                        (Some (Js.join pathParts "/")) None)
            | _ => inl InvalidAdoFormat
            end
          else if String.eqb platform "gh" then
            let parts := Js.split fullPath "/" in
            match parts with
            | owner :: repo :: ((_ :: _) as pathParts) =>
                inr (mk github name None None None (Some repo) (Some owner)
                        (Some (Js.join pathParts "/")) None)
            | _ => inl InvalidGitHubFormat
            end
          else inl (UnsupportedPlatform platform)
    end
  else inr (bare installed prompt).

End PromptParser.

Module McpServerConfig.
(** [interface McpServerConfig].  [type] is declared ['stdio' | 'http'],
    but descriptors come out of [JSON.parse] unchecked and the code
    tests for other values, so it is a string here.  [env] is kept as
    the JSON text of the object. *)
Record t := mk {
  name : string;
  type : string;
  command : option string;
  args : option (list string);
  url : option string;
  env : option string;
  nugetPackage : option string;
  version : option string;
  nugetFeed : option string
}.
End McpServerConfig.

Module McpConfiguration.
(** One value of [McpConfiguration.servers]. *)
Record entry := mkEntry {
  e_type : string;
  e_command : option string;
  e_args : option (list string);
  e_url : option string;
  e_env : option string
}.

(** The names of the properties of an entry. *)
Definition entryKeys (e : entry) : list string :=
  "type"
  :: match e_command e with Some _ => ["command"] | None => [] end
  ++ match e_args e with Some _ => ["args"] | None => [] end
  ++ match e_url e with Some _ => ["url"] | None => [] end
  ++ match e_env e with Some _ => ["env"] | None => [] end.

(** [interface McpConfiguration].  [servers] lists the own properties
    of the object in the order in which the object enumerates them,
    which is the order [JSON.stringify] writes them in; it is [None]
    when the parsed file has no object under that key.  [inputs] is kept
    as JSON text.  [prototype] is the object that [servers] inherits
    from in front of [Object.prototype]: there is none until an
    assignment to [servers.__proto__] installs one. *)
Record t := mk {
  servers : option (list (string * entry));
  inputs : string;
  prototype : option entry
}.
End McpConfiguration.

(* ===================================================================== *)
(** * Values, exceptions and effects                                      *)
(* ===================================================================== *)

Module Eff.

(** What a [throw] can carry: an [Error] with its [name] and [message],
    a [vscode.FileSystemError] with its [code], or a value that is not
    an [Error] at all. *)
Inductive thrown :=
| Error (name message : string)
| FileSystemError (code message : string)
| NotAnError.

(** [new Error(message)] *)
Definition newError (message : string) : thrown := Error "Error" message.

(** [error instanceof Error ? error.message : 'Unknown error'] *)
Definition messageOf (error : thrown) : string :=
  match error with
  | Error _ m => m
  | FileSystemError _ m => m
  | NotAnError => "Unknown error"
  end.

(** [error instanceof Error && error.name === n] *)
Definition hasName (error : thrown) (n : string) : bool :=
  match error with
  | Error name _ => String.eqb name n
  | _ => false
  end.

Inductive outcome (A : Type) :=
| Returned (a : A)
| Threw (e : thrown).
Arguments Returned {A} a.
Arguments Threw {A} e.

(** A computation over a world [W]: it ends by returning or by
    throwing, and leaves a world behind in both cases. *)
Definition M (W A : Type) : Type := W -> outcome A * W.

Definition ret {W A} (a : A) : M W A := fun w => (Returned a, w).

Definition throw {W A} (e : thrown) : M W A := fun w => (Threw e, w).

Definition bind {W A B} (m : M W A) (k : A -> M W B) : M W B :=
  fun w =>
    match m w with
    | (Returned a, w') => k a w'
    | (Threw e, w') => (Threw e, w')
    end.

(** Reading and changing the world. *)
Definition get {W} : M W W := fun w => (Returned w, w).

Definition modify {W} (f : W -> W) : M W unit := fun w => (Returned tt, f w).

(** [try { body } catch (error) { handler }] *)
Definition tryCatch {W A} (body : M W A) (handler : thrown -> M W A) : M W A :=
  fun w =>
    match body w with
    | (Returned a, w') => (Returned a, w')
    | (Threw e, w') => handler e w'
    end.

(** [try { body } finally { cleanup }]: the cleanup runs on both exits;
    it replaces the outcome of the body only when it throws itself. *)
Definition tryFinally {W A} (body : M W A) (cleanup : M W unit) : M W A :=
  fun w =>
    match body w with
    | (r, w') =>
        match cleanup w' with
        | (Returned _, w'') => (r, w'')
        | (Threw e, w'') => (Threw e, w'')
        end
    end.

(** JavaScript truthiness of an optional string member. *)
Definition truthy (s : option string) : bool :=
  match s with
  | Some EmptyString | None => false
  | Some _ => true
  end.

(** [`${s}`] of an optional string. *)
Definition show (s : option string) : string :=
  match s with
  | Some v => v
  | None => "undefined"
  end.

End Eff.

(** The computations form a monad; stdpp's [x ← m; k] and [m ;; k] are
    its sequencing. *)
Global Instance eff_ret {W} : MRet (Eff.M W) := fun A => @Eff.ret W A.
Global Instance eff_bind {W} : MBind (Eff.M W) := fun A B k m => @Eff.bind W A B m k.

(* ===================================================================== *)
(** * src/mcpInstaller.ts: version comparison                             *)
(* ===================================================================== *)

Module Version.

(** A JavaScript number that holds an integer is the [Z] it denotes;
    [Infinity] is [2^1024], which lies above every finite double, so
    that [<] and [>] on [Z] agree with those of the numbers. *)
Definition infinity : Z := 2 ^ 1024.

(** The double nearest to a non-negative integer, ties to even. *)
Definition toNumber (n : Z) : Z :=
  if n <? 2 ^ 53 then n
  else
    let e := Z.log2 n - 52 in
    let q := Z.shiftr n e in
    let r := Z.land n (Z.ones e) in
    let half := Z.shiftl 1 (e - 1) in
    let q' := if (half <? r) || ((r =? half) && Z.odd q) then q + 1 else q in
    let v := Z.shiftl q' e in
    if infinity <=? v then infinity else v.

Definition digitValue (c : ascii) : Z := Z.of_nat (nat_of_ascii c) - 48.

(** The longest prefix of decimal digits, as the integer it spells; the
    flag tells whether there was any digit. *)
Fixpoint digits (acc : Z) (seen : bool) (s : string) : Z * bool :=
  match s with
  | String c r => if Js.isDigit c then digits (acc * 10 + digitValue c) true r else (acc, seen)
  | EmptyString => (acc, seen)
  end.

(** [parseInt(part, 10)]: leading white space is skipped, one sign is
    accepted, the longest run of digits is read and rounded to the
    nearest number, as V8 does (the standard allows an approximation
    past the twentieth significant digit); [None] is [NaN]. *)
Definition parseInt (part : string) : option Z :=
  let s := Js.trimStart part in
  let '(sign, s) :=
    match s with
    | String "-" r => (-1, r)
    | String "+" r => (1, r)
    | _ => (1, s)
    end in
  match digits 0 false s with
  | (n, true) => Some (sign * toNumber n)
  | (_, false) => None
  end.

(** [part => { const num = parseInt(part, 10); return isNaN(num) ? 0 : num; }] *)
Definition toPart (part : string) : Z :=
  match parseInt part with
  | Some num => num
  | None => 0
  end.

(** [v.split('-')[0].split('+')[0]] *)
Definition clean (v : string) : string :=
  Js.firstOf (Js.split (Js.firstOf (Js.split v "-")) "+").

(** [clean.split('.').map(...)] *)
Definition parts (v : string) : list Z :=
  map toPart (Js.split (clean v) ".").

(** [while (parts.length < maxLength) parts.push(0)] *)
Definition padTo (maxLength : nat) (ps : list Z) : list Z :=
  ps ++ repeat 0 (maxLength - length ps).

(** The comparison loop over two arrays of the same length: [Some b]
    when it returns [b] at the first index where they differ, [None]
    when it runs to the end. *)
Fixpoint compareParts (installedParts requiredParts : list Z) : option bool :=
  match installedParts, requiredParts with
  | i :: is', r :: rs' =>
      if i >? r then Some true
      else if i <? r then Some false
      else compareParts is' rs'
  | _, _ => None
  end.

(** [isVersionSufficient] *)
Definition isVersionSufficient (installed required : string) : bool :=
  let installedParts := parts installed in
  let requiredParts := parts required in
  let maxLength := Nat.max (length installedParts) (length requiredParts) in
  match compareParts (padTo maxLength installedParts) (padTo maxLength requiredParts) with
  | Some decided => decided
  | None =>
      let installedHasPrerelease := Js.includes installed "-" in
      let requiredHasPrerelease := Js.includes required "-" in
      if negb installedHasPrerelease && requiredHasPrerelease then true
      else if installedHasPrerelease && negb requiredHasPrerelease then false
      else true
  end.

End Version.

(* ===================================================================== *)
(** * src/mcpInstaller.ts: provisioning                                   *)
(* ===================================================================== *)

Module McpInstaller.
Import Eff.

(** [type InstallResult] *)
Record InstallResult := mkResult {
  cancelled : bool;
  configModified : bool
}.

(** What [executeDotnetCommand] resolves with. *)
Record DotnetResult := mkDotnet {
  exitCode : Z;
  stdout : string;
  stderr : string
}.

(** How the spawned process ends: a ['close'] event with the exit code
    ([None] for [null]) after the given output, or an ['error'] event. *)
Inductive ProcessEnd :=
| Close (code : option Z) (out err : string)
| ProcessError (out message : string).

(** What the installer does to the world: the calls that leave it, and
    the assignment [SetServer] to the configuration object in memory. *)
Inductive Event :=
| AppendLine (line : string)
| ReadFile
| ShowConfirmation (server : McpServerConfig.t) (answer : bool)
| Spawn (args : list string)
| WithProgress (title : string)
| Report (message : string)
| SetServer (name : string) (entry : McpConfiguration.entry)
| CreateDirectory
| WriteFile (content : string).

(** The installer's world: the content of the user's [mcp.json]
    ([None] while the file does not exist) and the trace. *)
Record World := mkWorld {
  mcpJson : option string;
  trace : list Event
}.

Inductive FsCall := FsRead | FsCreateDirectory | FsWrite.

(** The collaborators the installer does not implement. *)
Class Host := {
  (** [JSON.parse] of the file text: it throws, or yields a falsy value
      ([inr None]), or a value read as a configuration. *)
  jsonParse : string -> thrown + option McpConfiguration.t;
  (** [JSON.stringify(config, null, 2)] *)
  jsonStringify : McpConfiguration.t -> string;
  (** A file-system call may fail for reasons of its own. *)
  fsFault : list Event -> FsCall -> option thrown;
  (** [showMcpInstallationConfirmation]: did the user choose Install? *)
  confirmation : list Event -> McpServerConfig.t -> bool;
  (** The run of [dotnet] with the given arguments. *)
  dotnet : list Event -> list string -> ProcessEnd
}.

Section Installer.
Context {host : Host}.

Local Abbreviation M := (Eff.M World).

Definition emit (e : Event) : M unit :=
  fun w => (Returned tt, mkWorld (mcpJson w) (e :: trace w)).

(** An answer of the host to the call [e], given what happened so far. *)
Definition ask {A} (oracle : list Event -> A) : M A :=
  fun w => (Returned (oracle (trace w)), w).

(** [this.outputChannel.appendLine(line)] *)
Definition appendLine (line : string) : M unit := emit (AppendLine line).

(** [readMcpConfig]: [None] is [null]. *)
Definition readMcpConfig : M (option McpConfiguration.t) :=
  tryCatch
    (fault ← ask (fun t => fsFault t FsRead);
     emit ReadFile;;
     match fault with
     | Some e => throw e
     | None =>
         w ← get;
         match mcpJson w with
         | None => throw (FileSystemError "FileNotFound" "file not found")
         | Some content =>
             match jsonParse content with
             | inl e => throw e
             | inr v => mret v
             end
         end
     end)
    (fun error =>
       match error with
       | FileSystemError code _ =>
           if String.eqb code "FileNotFound" then mret None else throw error
       | _ => throw error
       end).

(** [writeMcpConfig] *)
Definition writeMcpConfig (config : McpConfiguration.t) : M unit :=
  fault ← ask (fun t => fsFault t FsCreateDirectory);
  emit CreateDirectory;;
  match fault with
  | Some e => throw e
  | None =>
      let content := jsonStringify config in
      fault ← ask (fun t => fsFault t FsWrite);
      match fault with
      | Some e => emit (WriteFile content);; throw e
      | None =>
          emit (WriteFile content);;
          modify (fun w => mkWorld (Some content) (trace w))
      end
  end.

(** [executeDotnetCommand]: the promise always resolves. *)
Definition executeDotnetCommand (args : list string) : M DotnetResult :=
  let commandLine := "dotnet " +:+ Js.join args " " in
  appendLine ("promptu: Running: " +:+ commandLine);;
  ending ← ask (fun t => dotnet t args);
  emit (Spawn args);;
  match ending with
  | Close code out err =>
      mret (mkDotnet (match code with Some c => c | None => 0 end) out err)
  | ProcessError out message => mret (mkDotnet 1 out message)
  end.

(** [getNuGetPackageVersion]: [None] is [null].  Nothing in the body of
    its [try] throws, so the [catch] has no counterpart here. *)
Definition getNuGetPackageVersion (packageName : string) : M (option string) :=
  appendLine ("promptu: Checking version for NuGet package: " +:+ packageName);;
  result ← executeDotnetCommand ["tool"; "list"; "--global"; packageName];
  appendLine ("promptu: dotnet tool list stdout:" +:+ String "010" (stdout result));;
  let lines := Js.split (Js.trim (stdout result)) "010" in
  match lines with
  | _ :: _ :: line2 :: _ =>
      let dataLine := Js.trim line2 in
      let parts := Js.splitWs dataLine in
      match parts with
      | _ :: version :: _ =>
          appendLine ("promptu: Package " +:+ packageName +:+
                      " is installed with version: " +:+ version);;
          mret (Some version)
      | _ =>
          appendLine ("promptu: Package " +:+ packageName +:+
                      " is not installed, or version was not found.");;
          mret None
      end
  | _ =>
      appendLine ("promptu: Package " +:+ packageName +:+
                  " is not installed, or version was not found.");;
      mret None
  end.

(** [installNuGetGlobalTool] *)
Definition installNuGetGlobalTool (server : McpServerConfig.t) : M unit :=
  if negb (truthy (McpServerConfig.nugetPackage server))
  then throw (newError "NuGet package name is required for installation")
  else
    let packageName := show (McpServerConfig.nugetPackage server) in
    emit (WithProgress ("Installing " +:+ McpServerConfig.name server +:+ "..."));;
    emit (Report "Preparing dotnet tool install...");;
    let installArgs := ["tool"; "install"; "--global"; packageName] in
    installArgs ←
      (if truthy (McpServerConfig.nugetFeed server) then
         let feed := show (McpServerConfig.nugetFeed server) in
         appendLine ("promptu: Using custom NuGet feed: " +:+ feed);;
         mret (installArgs ++ ["--add-source"; feed] ++ ["--interactive"]
                           ++ ["--ignore-failed-sources"])
       else mret installArgs);
    let installArgs :=
      if truthy (McpServerConfig.version server)
      then installArgs ++ ["--version"; show (McpServerConfig.version server)]
      else installArgs in
    emit (Report "Running dotnet tool install...");;
    result ← executeDotnetCommand installArgs;
    if negb (exitCode result =? 0)
    then throw (newError ("dotnet tool install failed: " +:+ stderr result))
    else appendLine "promptu: NuGet package installed successfully".

(** The property names every object inherits from [Object.prototype]. *)
Definition objectPrototypeKeys : list string :=
  ["constructor"; "__defineGetter__"; "__defineSetter__"; "hasOwnProperty";
   "__lookupGetter__"; "__lookupSetter__"; "isPrototypeOf"; "propertyIsEnumerable";
   "toString"; "valueOf"; "__proto__"; "toLocaleString"].

(** [key in object], for an object that inherits from
    [Object.prototype] only: own and inherited properties. *)
Definition hasProperty {V} (key : string) (object : list (string * V)) : bool :=
  existsb (fun kv => String.eqb (fst kv) key) object
  || existsb (String.eqb key) objectPrototypeKeys.

(** [Object.hasOwn(object, key)] *)
Definition hasOwnProperty {V} (key : string) (object : list (string * V)) : bool :=
  existsb (fun kv => String.eqb (fst kv) key) object.

(** The value of a string of decimal digits, after [acc]. *)
Fixpoint numeral (s : string) (acc : N) : option N :=
  match s with
  | EmptyString => Some acc
  | String c rest =>
      let n := N_of_ascii c in
      if ((48 <=? n) && (n <=? 57))%N
      then numeral rest (acc * 10 + (n - 48))%N
      else None
  end.

(** An array index is a key that is the decimal numeral, without sign
    or leading zero, of an integer below [2^32 - 1]. *)
Definition arrayIndex (key : string) : option N :=
  match key with
  | EmptyString => None
  | String "0" (String _ _) => None
  | _ =>
      match numeral key 0 with
      | Some n => if (n <=? 4294967294)%N then Some n else None
      | None => None
      end
  end.

(** An own property gets a new value and keeps its place. *)
Fixpoint replaceProperty {V} (key : string) (value : V) (object : list (string * V))
  : list (string * V) :=
  match object with
  | [] => []
  | (k, v) :: rest =>
      if String.eqb k key then (k, value) :: rest
      else (k, v) :: replaceProperty key value rest
  end.

(** A new array index [i] takes its place among the array indices the
    object starts with, which are in ascending order. *)
Fixpoint insertIndex {V} (i : N) (key : string) (value : V) (object : list (string * V))
  : list (string * V) :=
  match object with
  | [] => [(key, value)]
  | (k, v) :: rest =>
      match arrayIndex k with
      | Some j =>
          if (j <? i)%N then (k, v) :: insertIndex i key value rest
          else (key, value) :: object
      | None => (key, value) :: object
      end
  end.

(** [object[key] = value] where the assignment makes or changes an own
    property: an existing property keeps its place; a new one is
    enumerated among the array indices if it is one, and last
    otherwise. *)
Definition setProperty {V} (key : string) (value : V) (object : list (string * V))
  : list (string * V) :=
  if hasOwnProperty key object then replaceProperty key value object
  else
    match arrayIndex key with
    | Some i => insertIndex i key value object
    | None => object ++ [(key, value)]
    end.

(** [config.servers[name] = entry].  Under the name [__proto__], unless
    the object has an own property of that name, the assignment reaches
    the setter inherited from [Object.prototype]: [entry] becomes the
    prototype of the object, which gets no new property. *)
Definition assignServer (name : string) (entry : McpConfiguration.entry)
    (config : McpConfiguration.t) (servers : list (string * McpConfiguration.entry))
  : McpConfiguration.t :=
  if String.eqb name "__proto__" && negb (hasOwnProperty name servers)
  then McpConfiguration.mk (Some servers) (McpConfiguration.inputs config) (Some entry)
  else McpConfiguration.mk (Some (setProperty name entry servers))
                           (McpConfiguration.inputs config)
                           (McpConfiguration.prototype config).

(** [name in config.servers]: the own properties, those of the
    prototype installed in front of [Object.prototype] if there is one,
    and those of [Object.prototype]. *)
Definition inServers (name : string) (config : McpConfiguration.t)
    (servers : list (string * McpConfiguration.entry)) : bool :=
  hasProperty name servers
  || match McpConfiguration.prototype config with
     | Some e => existsb (String.eqb name) (McpConfiguration.entryKeys e)
     | None => false
     end.

Definition typeError (message : string) : thrown := Error "TypeError" message.

(** [addServerToConfig]: the members whose source is falsy are left out
    of the new entry.  The object [config] is changed in place, which
    the trace records; here the changed configuration is returned. *)
Definition addServerToConfig (config : McpConfiguration.t) (server : McpServerConfig.t)
  : M McpConfiguration.t :=
  let entry :=
    McpConfiguration.mkEntry
      (McpServerConfig.type server)
      (if truthy (McpServerConfig.command server) then McpServerConfig.command server else None)
      (McpServerConfig.args server)
      (if truthy (McpServerConfig.url server) then McpServerConfig.url server else None)
      (McpServerConfig.env server) in
  match McpConfiguration.servers config with
  | None => throw (typeError "Cannot set properties of undefined")
  | Some servers =>
      emit (SetServer (McpServerConfig.name server) entry);;
      appendLine ("promptu: Added " +:+ McpServerConfig.name server +:+
                  " to config (in memory)");;
      mret (assignServer (McpServerConfig.name server) entry config servers)
  end.

(** [installNuGetForServer] *)
Definition installNuGetForServer (server : McpServerConfig.t) (config : McpConfiguration.t)
  : M (InstallResult * McpConfiguration.t) :=
  if negb (truthy (McpServerConfig.nugetPackage server))
  then throw (newError "NuGet server configuration requires nugetPackage property")
  else
    let nugetPackage := show (McpServerConfig.nugetPackage server) in
    appendLine ("promptu: Installing NuGet package '" +:+ nugetPackage +:+ "' and '" +:+
                show (McpServerConfig.version server) +:+ "'...");;
    sufficient ←
      (if truthy (McpServerConfig.version server) then
         let version := show (McpServerConfig.version server) in
         installedVersion ← getNuGetPackageVersion nugetPackage;
         if truthy installedVersion
            && Version.isVersionSufficient (show installedVersion) version
         then
           appendLine ("promptu: NuGet package '" +:+ nugetPackage +:+
                       "' already installed with sufficient version (" +:+
                       show installedVersion +:+ ")");;
           mret true
         else
           (if truthy installedVersion then
              appendLine ("promptu: NuGet package '" +:+ nugetPackage +:+ "' version " +:+
                          show installedVersion +:+ " insufficient (need " +:+
                          version +:+ ")")
            else mret tt);;
           mret false
       else mret false);
    if (sufficient : bool) then mret (mkResult false false, config)
    else
      shouldInstall ← ask (fun t => confirmation t server);
      emit (ShowConfirmation server shouldInstall);;
      if negb shouldInstall then mret (mkResult true false, config)
      else
        installNuGetGlobalTool server;;
        appendLine "promptu: NuGet package installed successfully";;
        config' ← addServerToConfig config server;
        mret (mkResult false true, config').

(** [installServerConfig] *)
Definition installServerConfig (server : McpServerConfig.t) (config : McpConfiguration.t)
  : M (InstallResult * McpConfiguration.t) :=
  match McpConfiguration.servers config with
  | None => throw (typeError "Cannot use 'in' operator to search for a key in undefined")
  | Some servers =>
      if inServers (McpServerConfig.name server) config servers then
        appendLine ("promptu: Server '" +:+ McpServerConfig.name server +:+
                    "' already configured in mcp.json");;
        mret (mkResult false false, config)
      else
        shouldInstall ← ask (fun t => confirmation t server);
        emit (ShowConfirmation server shouldInstall);;
        if negb shouldInstall then mret (mkResult true false, config)
        else
          config' ← addServerToConfig config server;
          mret (mkResult false true, config')
  end.

(** One turn of the loop of [installServers]: [inl false] when the
    function returns [false] from inside the loop, otherwise the
    configuration and the flag [needsConfigWrite] for the next turn. *)
Definition installOne (server : McpServerConfig.t) (config : McpConfiguration.t)
    (needsConfigWrite : bool) : M (bool + McpConfiguration.t * bool) :=
  tryCatch
    (r ← (if truthy (McpServerConfig.nugetPackage server)
          then installNuGetForServer server config
          else installServerConfig server config);
     let '(result, config') := r in
     if cancelled result then
       appendLine ("promptu: User cancelled installation of MCP server: " +:+
                   McpServerConfig.name server);;
       mret (inl false)
     else
       mret (inr (config', if configModified result then true else needsConfigWrite)))
    (fun error =>
       let message := "Failed to install MCP server '" +:+ McpServerConfig.name server +:+
                      "': " +:+ messageOf error in
       appendLine ("promptu: " +:+ message);;
       throw (newError message)).

(** [for (const server of servers) { ... }] *)
Fixpoint installLoop (servers : list McpServerConfig.t) (config : McpConfiguration.t)
    (needsConfigWrite : bool) : M (bool + McpConfiguration.t * bool) :=
  match servers with
  | [] => mret (inr (config, needsConfigWrite))
  | server :: rest =>
      r ← installOne server config needsConfigWrite;
      match r with
      | inl b => mret (inl b)
      | inr (config', needsConfigWrite') => installLoop rest config' needsConfigWrite'
      end
  end.

(** [{ servers: {}, inputs: [] }] *)
Definition emptyConfig : McpConfiguration.t := McpConfiguration.mk (Some []) "[]" None.

(** [installServers] *)
Definition installServers (servers : list McpServerConfig.t) : M bool :=
  appendLine ("promptu: Installing " +:+ pretty (length servers) +:+ " MCP server(s)...");;
  read ← readMcpConfig;
  let config := match read with Some c => c | None => emptyConfig end in
  r ← installLoop servers config false;
  match r with
  | inl b => mret b
  | inr (config, needsConfigWrite) =>
      (if (needsConfigWrite : bool) then writeMcpConfig config else mret tt);;
      mret true
  end.

End Installer.
End McpInstaller.

(* ===================================================================== *)
(** * src/promptFetcher.ts                                                *)
(* ===================================================================== *)

Module PromptFetcher.
Import Eff.

(** [Record<string, string>] *)
Definition Headers := list (string * string).

(** How [fetch] and [response.text()] end.  A rejection named
    [AbortError] is what the timeout of [fetchTimeout] produces. *)
Inductive FetchEnd :=
| Rejected (e : thrown)
| Responded (ok : bool) (status : nat) (statusText : string) (text : thrown + string).

(** How [vscode.authentication.getSession] ends. *)
Inductive SessionEnd :=
| SessionRejected (e : thrown)
| NoSession
| Session (accessToken : string).

(** How the [git] process ends, and the files it has created by then. *)
Inductive GitEnd :=
| GitClose (code : option Z) (err : string) (created : list (string * string))
| GitError (message : string).

(** The calls that leave the fetcher; a [Fetch] carries what the
    network answered. *)
Inductive Event :=
| AppendLine (line : string)
| Fetch (url : string) (headers : Headers) (answer : FetchEnd)
| GetSession (createIfNone : bool)
| SpawnGit (args : list string)
| CreateDirectory (path : string)
| UpdateSetting (locations : list (string * bool))
| ShowInformationMessage
| WriteFile (path content : string)
| Stat (path : string)
| Copy (source dest : string)
| RemoveDirectory (path : string).

(** The files by path, the setting [chat.promptFilesLocations] ([None]
    while it is unset), and the trace. *)
Record World := mkWorld {
  files : gmap string string;
  promptFilesLocations : option (list (string * bool));
  trace : list Event
}.

Inductive FsCall := FsCreateDirectory | FsWrite | FsCopy | FsUpdate | FsRemove.

Class Host := {
  (** [context.globalStorageUri.fsPath] *)
  globalStoragePath : string;
  (** [path.join] *)
  pathJoin : string -> string -> string;
  (** Is the file at the first path inside the directory at the second? *)
  inside : string -> string -> bool;
  (** [path.join(os.tmpdir(), 'promptu-' + Date.now())] *)
  freshTempDir : list Event -> string;
  fsFault : list Event -> FsCall -> option thrown;
  (** Is there a directory without files at the path? *)
  emptyDirectory : list Event -> string -> bool;
  fetch : list Event -> string -> Headers -> FetchEnd;
  getSession : list Event -> bool -> SessionEnd;
  git : list Event -> list string -> GitEnd
}.

Definition defaultADOScope : string := "499b84ac-1321-427f-aa17-267ca6975798/.default".

(** [fetchTimeout / 1000] *)
Definition fetchTimeoutSeconds : nat := 60.

Section Fetcher.
Context {host : Host}.

Local Abbreviation M := (Eff.M World).

Definition emit (e : Event) : M unit :=
  fun w => (Returned tt, mkWorld (files w) (promptFilesLocations w) (e :: trace w)).

Definition ask {A} (oracle : list Event -> A) : M A :=
  fun w => (Returned (oracle (trace w)), w).

Definition appendLine (line : string) : M unit := emit (AppendLine line).

Definition typeError (message : string) : thrown := Error "TypeError" message.

(** A call of the file system: it fails when the host says so, and
    otherwise changes the world by [effect]. *)
Definition fsCall (call : FsCall) (e : Event) (effect : World -> World) : M unit :=
  fault ← ask (fun t => fsFault t call);
  emit e;;
  match fault with
  | Some err => throw err
  | None => modify effect
  end.

Definition setFile (path content : string) (w : World) : World :=
  mkWorld (<[path := content]> (files w)) (promptFilesLocations w) (trace w).

(** [{ ...currentLocations, [promptsDir]: true }] *)
Fixpoint setLocation (dir : string) (locations : list (string * bool))
  : list (string * bool) :=
  match locations with
  | [] => [(dir, true)]
  | (k, v) :: rest =>
      if String.eqb k dir then (k, true) :: rest
      else (k, v) :: setLocation dir rest
  end.

(** [currentLocations[promptsDir]], read for its truth value. *)
Fixpoint getLocation (dir : string) (locations : list (string * bool)) : bool :=
  match locations with
  | [] => false
  | (k, v) :: rest => if String.eqb k dir then v else getLocation dir rest
  end.

(** [ensurePromptsDirectory].  The callback on the notification's
    button runs after the function has returned and is not part of it. *)
Definition ensurePromptsDirectory : M string :=
  let promptsDir := pathJoin globalStoragePath "prompts" in
  tryCatch
    (fsCall FsCreateDirectory (CreateDirectory promptsDir) (fun w => w);;
     w ← get;
     let currentLocations :=
       match promptFilesLocations w with Some l => l | None => [] end in
     (if negb (getLocation promptsDir currentLocations) then
        let updatedLocations := setLocation promptsDir currentLocations in
        fsCall FsUpdate (UpdateSetting updatedLocations)
          (fun w => mkWorld (files w) (Some updatedLocations) (trace w));;
        emit ShowInformationMessage
      else mret tt);;
     mret promptsDir)
    (fun error =>
       throw (newError ("Failed to setup prompts directory: " +:+ messageOf error))).

(** The two kinds of [source] of [storePromptInStorage]. *)
Inductive Source :=
| Content (text : string)
| FileUri (fsPath : string).

(** [storePromptInStorage] *)
Definition storePromptInStorage (source : Source) (promptName : string) : M unit :=
  tryCatch
    (promptsDir ← ensurePromptsDirectory;
     let promptFileName := promptName +:+ ".prompt.md" in
     let destPath := pathJoin promptsDir promptFileName in
     match source with
     | Content text => fsCall FsWrite (WriteFile destPath text) (setFile destPath text)
     | FileUri fsPath =>
         tryCatch
           (emit (Stat fsPath);;
            w ← get;
            match files w !! fsPath with
            | Some _ => mret tt
            | None => throw (FileSystemError "FileNotFound" fsPath)
            end)
           (fun _ => throw (newError ("Source file not found: " +:+ fsPath)));;
         fsCall FsCopy (Copy fsPath destPath)
           (fun w => match files w !! fsPath with
                     | Some text => setFile destPath text w
                     | None => w
                     end)
     end)
    (fun error =>
       let operation :=
         match source with
         | Content _ => "write content"
         | FileUri fsPath => "copy file '" +:+ fsPath +:+ "'"
         end in
       throw (newError ("Failed to " +:+ operation +:+ " to storage: " +:+ messageOf error))).

(** [content.includes('<html') || content.includes('Sign in to your account')] *)
Definition isSignInPage (content : string) : bool :=
  Js.includes content "<html" || Js.includes content "Sign in to your account".

(** [fetchViaHttp].  Setting and clearing the timer leave no trace; the
    timer firing is a rejection named [AbortError]. *)
Definition fetchViaHttp (url : string) (headers : Headers) : M string :=
  tryFinally
    (tryCatch
       (response ← ask (fun t => fetch t url headers);
        emit (Fetch url headers response);;
        match response with
        | Rejected e => throw e
        | Responded ok status statusText text =>
            if negb ok
            then throw (newError ("HTTP " +:+ pretty status +:+ ": " +:+ statusText))
            else
              match text with
              | inl e => throw e
              | inr content =>
                  if isSignInPage content
                  then throw (newError "Authentication failed - received sign-in page")
                  else mret content
              end
        end)
       (fun error =>
          if hasName error "AbortError"
          then throw (newError ("Request timed out after " +:+ pretty fetchTimeoutSeconds
                                +:+ " seconds"))
          else throw error))
    (mret tt).

(** [buildRawFileUrl] *)
Definition buildRawFileUrl (parsedPrompt : ParsedPrompt.t) : thrown + string :=
  match ParsedPrompt.type parsedPrompt with
  | ParsedPrompt.ado =>
      inr ("https://" +:+ show (ParsedPrompt.org parsedPrompt) +:+ ".visualstudio.com/" +:+
           show (ParsedPrompt.project parsedPrompt) +:+ "/_apis/git/repositories/" +:+
           show (ParsedPrompt.repo parsedPrompt) +:+ "/items?path=/" +:+
           show (ParsedPrompt.filePath parsedPrompt))
  | ParsedPrompt.github =>
      inr ("https://raw.githubusercontent.com/" +:+ show (ParsedPrompt.owner parsedPrompt) +:+
           "/" +:+ show (ParsedPrompt.repo parsedPrompt) +:+ "/main/" +:+
           show (ParsedPrompt.filePath parsedPrompt))
  | other => inl (newError ("Cannot build raw file URL for type: " +:+
                           ParsedPrompt.typeName other))
  end.

(** [buildGitUrl] *)
Definition buildGitUrl (parsedPrompt : ParsedPrompt.t) : thrown + string :=
  match ParsedPrompt.type parsedPrompt with
  | ParsedPrompt.ado =>
      inr ("https://" +:+ show (ParsedPrompt.org parsedPrompt) +:+ ".visualstudio.com/" +:+
           show (ParsedPrompt.project parsedPrompt) +:+ "/_git/" +:+
           show (ParsedPrompt.repo parsedPrompt))
  | ParsedPrompt.github =>
      inr ("https://github.com/" +:+ show (ParsedPrompt.owner parsedPrompt) +:+ "/" +:+
           show (ParsedPrompt.repo parsedPrompt) +:+ ".git")
  | other => inl (newError ("Cannot build git URL for type: " +:+
                           ParsedPrompt.typeName other))
  end.

Definition lift {A} (r : thrown + A) : M A :=
  match r with
  | inl e => throw e
  | inr a => mret a
  end.

(** [getADOAuthHeaders] *)
Definition getADOAuthHeaders : M Headers :=
  silent ← ask (fun t => getSession t false);
  emit (GetSession false);;
  session ←
    match silent with
    | SessionRejected e => throw e
    | Session token => mret (Some token)
    | NoSession =>
        created ← ask (fun t => getSession t true);
        emit (GetSession true);;
        match created with
        | SessionRejected e => throw e
        | Session token => mret (Some token)
        | NoSession => mret None
        end
    end;
  match session with
  | None => throw (typeError "Cannot read properties of undefined (reading 'accessToken')")
  | Some token =>
      if truthy (Some token) then
        appendLine "Got access token from VSCode";;
        mret [("Authorization", "Bearer " +:+ token)]
      else throw (newError "Failed to get access token from VSCode")
  end.

(** [executeGitCommand]; the files the process created are there
    whatever its exit code. *)
Definition executeGitCommand (args : list string) : M unit :=
  ending ← ask (fun t => git t args);
  emit (SpawnGit args);;
  match ending with
  | GitError message => throw (newError ("Git command error: " +:+ message))
  | GitClose code err created =>
      modify (fun w =>
                mkWorld (fold_right (fun kv fs => <[kv.1 := kv.2]> fs) (files w) created)
                        (promptFilesLocations w) (trace w));;
      match code with
      | Some 0 => mret tt
      | _ =>
          throw (newError ("Git command failed (exit code " +:+
                           match code with Some c => pretty c | None => "null" end +:+
                           "): " +:+ err))
      end
  end.

(** There is something at the path when a file is at it or inside it,
    or when it is a directory without files. *)
Definition present (path : string) (w : World) : bool :=
  existsb (fun kv => String.eqb kv.1 path || inside kv.1 path) (map_to_list (files w))
  || emptyDirectory (trace w) path.

(** [fs.existsSync(path)] *)
Definition existsSync (path : string) : M bool :=
  w ← get;
  mret (present path w).

(** [cleanupDirectory]: the directory is removed if it is there; errors
    are ignored. *)
Definition cleanupDirectory (dirPath : string) : M unit :=
  tryCatch
    (found ← existsSync dirPath;
     if (found : bool) then
       fsCall FsRemove (RemoveDirectory dirPath)
         (fun w => mkWorld (filter (fun kv => inside kv.1 dirPath = false) (files w))
                           (promptFilesLocations w) (trace w))
     else mret tt)
    (fun _ => mret tt).

(** [fetchViaGitToFile] *)
Definition fetchViaGitToFile (parsedPrompt : ParsedPrompt.t) : M unit :=
  tempDir ← ask freshTempDir;
  tryCatch
    (repoUrl ← lift (buildGitUrl parsedPrompt);
     executeGitCommand ["clone"; "--depth"; "1"; repoUrl; tempDir];;
     filePath ← match ParsedPrompt.filePath parsedPrompt with
                | Some f => mret f
                | None => throw (typeError "The path argument must be of type string")
                end;
     let sourceFilePath := pathJoin tempDir filePath in
     storePromptInStorage (FileUri sourceFilePath) (ParsedPrompt.name parsedPrompt);;
     cleanupDirectory tempDir)
    (fun error => cleanupDirectory tempDir;; throw error).

(** The first attempt of [fetchWithFallbackStrategyToFile]: the body of
    its [try]. *)
Definition fetchDirect (parsedPrompt : ParsedPrompt.t) (rawUrl : string) : M unit :=
  headers ← match ParsedPrompt.type parsedPrompt with
            | ParsedPrompt.ado => getADOAuthHeaders
            | _ => mret []
            end;
  content ← fetchViaHttp rawUrl headers;
  appendLine "promptu: Fetched prompt using direct HTTP access";;
  storePromptInStorage (Content content) (ParsedPrompt.name parsedPrompt).

(** The fallback of [fetchWithFallbackStrategyToFile]: the body of its
    [catch]. *)
Definition fetchFallback (parsedPrompt : ParsedPrompt.t) : M unit :=
  fetchViaGitToFile parsedPrompt;;
  appendLine "promptu: Fetched prompt using git clone fallback".

(** [fetchWithFallbackStrategyToFile] *)
Definition fetchWithFallbackStrategyToFile (parsedPrompt : ParsedPrompt.t) : M unit :=
  rawUrl ← lift (buildRawFileUrl parsedPrompt);
  tryCatch (fetchDirect parsedPrompt rawUrl) (fun _ => fetchFallback parsedPrompt).

(** [fetchPrompt] *)
Definition fetchPrompt (parsedPrompt : ParsedPrompt.t) : M unit :=
  tryCatch
    (match ParsedPrompt.type parsedPrompt with
     | ParsedPrompt.installed => mret tt
     | ParsedPrompt.local_ =>
         appendLine "promptu: Copying local file...";;
         match ParsedPrompt.localPath parsedPrompt with
         | Some localPath =>
             storePromptInStorage (FileUri localPath) (ParsedPrompt.name parsedPrompt)
         | None => throw (typeError "The path argument must be of type string")
         end
     | ParsedPrompt.url_ =>
         appendLine "promptu: Fetching prompt from URL...";;
         match ParsedPrompt.url parsedPrompt with
         | Some url =>
             content ← fetchViaHttp url [];
             storePromptInStorage (Content content) (ParsedPrompt.name parsedPrompt)
         | None => throw (typeError "Failed to parse URL")
         end
     | ParsedPrompt.ado | ParsedPrompt.github =>
         appendLine "promptu: Fetching prompt from remote source...";;
         fetchWithFallbackStrategyToFile parsedPrompt
     | ParsedPrompt.mcp =>
         throw (newError ("Unsupported prompt type: " +:+
                          ParsedPrompt.typeName (ParsedPrompt.type parsedPrompt)))
     end)
    (fun error => throw (newError ("Failed to fetch prompt: " +:+ messageOf error))).

End Fetcher.
End PromptFetcher.

(* ===================================================================== *)
(** * src/mcpClient.ts                                                    *)
(* ===================================================================== *)

Module McpClient.
Import Eff.

(** What [discoverOAuthProtectedResourceMetadata] resolves with. *)
Record ResourceMetadata := mkMetadata {
  authorization_servers : option (list string);
  scopes_supported : option (list string)
}.

(** The transport handed to [client.connect]. *)
Inductive Transport :=
| StdioClientTransport (command : string) (args : list string)
| StreamableHTTPClientTransport (serverUrl : string) (authorization : option string).

(** [message.content] of a prompt message. *)
Record ContentBlock := mkContent {
  c_type : string;
  c_text : string
}.

Record PromptMessage := mkMessage {
  content : option ContentBlock
}.

(** The result of [client.getPrompt]. *)
Record GetPromptResult := mkPromptResult {
  messages : option (list PromptMessage)
}.

(** [JSON.parse(input)]: an object (kept as its text), or another value. *)
Inductive JsonValue :=
| JsonObject (text : string)
| JsonOther.

Inductive Event :=
| AppendLine (line : string)
| Discover (serverUrl : string)
| GetSession (scopes : list string)
| Connect (transport : Transport) (accepted : bool)
| PromptsGet (name : string) (arguments : string)
| CloseClient.

Record World := mkWorld {
  trace : list Event
}.

Class Host := {
  jsonParse : string -> thrown + JsonValue;
  (** Does [new URL(serverUrl)] succeed? *)
  validUrl : string -> bool;
  (** [None] is [undefined]. *)
  discover : list Event -> string -> thrown + option ResourceMetadata;
  (** [None] is [undefined]. *)
  getSession : list Event -> list string -> thrown + option string;
  connect : list Event -> Transport -> option thrown;
  promptsGet : list Event -> string -> string -> thrown + GetPromptResult;
  close : list Event -> option thrown
}.

Section Client.
Context {host : Host}.

Local Abbreviation M := (Eff.M World).

Definition emit (e : Event) : M unit :=
  modify (fun w => mkWorld (e :: trace w)).

Definition ask {A} (oracle : list Event -> A) : M A :=
  w ← get; mret (oracle (trace w)).

Definition appendLine (line : string) : M unit := emit (AppendLine line).

Definition lift {A} (r : thrown + A) : M A :=
  match r with
  | inl e => throw e
  | inr a => mret a
  end.

(** [new StreamableHTTPClientTransport(new URL(serverUrl), ...)] *)
Definition httpTransport (serverUrl : string) (authorization : option string) : M Transport :=
  if validUrl serverUrl
  then mret (StreamableHTTPClientTransport serverUrl authorization)
  else throw (Error "TypeError" "Invalid URL").

(** [createAuthenticatedTransport] *)
Definition createAuthenticatedTransport (serverUrl : string) : M Transport :=
  tryCatch
    (appendLine ("promptu: Checking authentication requirements for " +:+ serverUrl +:+ "...");;
     found ← ask (fun t => discover t serverUrl);
     emit (Discover serverUrl);;
     resourceMetadata ← lift found;
     match resourceMetadata with
     | Some (mkMetadata (Some (authServer :: _)) scopes_supported) =>
         appendLine ("promptu: Auth server discovered: " +:+ authServer);;
         if Js.includes authServer "login.microsoftonline.com" then
           let scopes := match scopes_supported with Some l => l | None => [] end in
           appendLine ("promptu: Microsoft OAuth detected, scopes: " +:+ Js.join scopes ", ");;
           answer ← ask (fun t => getSession t scopes);
           emit (GetSession scopes);;
           session ← lift answer;
           if truthy session then
             appendLine "promptu: Got Microsoft access token, creating authenticated transport";;
             httpTransport serverUrl (Some ("Bearer " +:+ show session))
           else throw (newError "Microsoft authentication failed or was cancelled")
         else
           appendLine ("promptu: Non-Microsoft OAuth detected (" +:+ authServer +:+
                       "), not supported");;
           throw (newError ("OAuth server " +:+ authServer +:+
                            " not supported. Currently only Microsoft OAuth is supported."))
     | _ =>
         appendLine ("promptu: No authentication required for " +:+ serverUrl);;
         httpTransport serverUrl None
     end)
    (fun error =>
       if match error with
          | NotAnError => false
          | _ => Js.includes (messageOf error) "not supported"
          end
       then throw error
       else
         appendLine ("promptu: Auth discovery failed, trying without auth: " +:+
                     messageOf error);;
         httpTransport serverUrl None).

(** [createClient]; the client it returns is the one the world's
    [connect] accepted. *)
Definition createClient (serverName : string) (serverConfig : McpServerConfig.t) : M unit :=
  transport ←
    (if String.eqb (McpServerConfig.type serverConfig) "stdio" then
       if negb (truthy (McpServerConfig.command serverConfig))
       then throw (newError ("MCP server '" +:+ serverName +:+
                             "' requires a command for stdio transport"))
       else mret (StdioClientTransport
                    (show (McpServerConfig.command serverConfig))
                    (match McpServerConfig.args serverConfig with Some a => a | None => [] end))
     else if String.eqb (McpServerConfig.type serverConfig) "http" then
       if negb (truthy (McpServerConfig.url serverConfig))
       then throw (newError ("MCP server '" +:+ serverName +:+
                             "' requires a URL for HTTP transport"))
       else createAuthenticatedTransport (show (McpServerConfig.url serverConfig))
     else throw (newError ("MCP server transport type '" +:+
                           McpServerConfig.type serverConfig +:+ "' not supported")));
  appendLine ("promptu: Connecting to MCP server '" +:+ serverName +:+ "'...");;
  tryCatch
    (refused ← ask (fun t => connect t transport);
     emit (Connect transport (match refused with None => true | Some _ => false end));;
     match refused with
     | Some e => throw e
     | None =>
         appendLine ("promptu: Successfully connected to MCP server '" +:+ serverName +:+ "'")
     end)
    (fun error =>
       let message := messageOf error in
       if Js.includes message "Unauthorized" || Js.includes message "401"
          || Js.includes message "403"
       then throw (newError ("Authentication failed for MCP server '" +:+ serverName +:+
                    "'. Currently only Microsoft OAuth is supported. Please ensure you have access to the required scopes."))
       else throw (newError ("Failed to connect to MCP server '" +:+ serverName +:+
                             "': " +:+ message))).

(** The body of the [try] of [getPrompt]: the request and the
    extraction of the text. *)
Definition requestPrompt (promptName promptArgs : string) : M string :=
  answer ← ask (fun t => promptsGet t promptName promptArgs);
  emit (PromptsGet promptName promptArgs);;
  response ← lift answer;
  match messages response with
  | Some (mkMessage (Some block) :: _) =>
      if String.eqb (c_type block) "text" then
        appendLine "promptu: Successfully fetched prompt from MCP server";;
        mret (c_text block)
      else throw (newError "No text content found in MCP prompt response")
  | _ => throw (newError "No text content found in MCP prompt response")
  end.

(** The [try] and the [catch] of [getPrompt]. *)
Definition render (serverName promptName promptArgs : string) : M string :=
  tryCatch
    (requestPrompt promptName promptArgs)
    (fun error =>
       let message := messageOf error in
       appendLine ("promptu: Error fetching MCP prompt: " +:+ message);;
       throw (newError ("Failed to fetch prompt '" +:+ promptName +:+
                        "' from MCP server '" +:+ serverName +:+ "': " +:+ message))).

(** The [finally] of [getPrompt]. *)
Definition closeClient (serverName : string) : M unit :=
  tryCatch
    (failure ← ask close;
     emit CloseClient;;
     match failure with
     | Some e => throw e
     | None => appendLine ("promptu: Closed connection to MCP server '" +:+ serverName +:+ "'")
     end)
    (fun closeError =>
       appendLine ("promptu: Error closing MCP client '" +:+ serverName +:+ "': " +:+
                   messageOf closeError)).

(** The [try]/[catch]/[finally] statement of [getPrompt], entered once
    the client is connected. *)
Definition session (serverName promptName promptArgs : string) : M string :=
  tryFinally (render serverName promptName promptArgs) (closeClient serverName).

(** The parsing of [input] in [getPrompt]: the text of the argument
    object, ["{}"] when there is no input. *)
Definition parseArguments (input : string) : M string :=
  if truthy (Some input) then
    tryCatch
      (parsed ← lift (jsonParse input);
       match parsed with
       | JsonObject text => mret text
       | JsonOther =>
           throw (newError
             "MCP prompt input must be a JSON object with argument names and values")
       end)
      (fun parseError =>
         throw (newError
           ("MCP prompt input must be valid JSON object format. Example: {" +:+
            String "034" "name" +:+ String "034" ": " +:+ String "034" "value" +:+
            String "034" ", " +:+ String "034" "count" +:+ String "034" ": 5}. Error: " +:+
            match parseError with
            | NotAnError => "Invalid JSON"
            | _ => messageOf parseError
            end)))
  else mret "{}".

(** [getPrompt] *)
Definition getPrompt (mcpPromptName input : string) (mcpServers : list McpServerConfig.t)
  : M string :=
  let mcpParts := Js.split mcpPromptName "." in
  match mcpParts with
  | [first; serverName; promptName] =>
      if negb (String.eqb first "mcp")
      then throw (newError "Invalid MCP prompt format. Expected: mcp.ServerName.PromptName")
      else
        match find (fun server => String.eqb (McpServerConfig.name server) serverName)
                   mcpServers with
        | None =>
            throw (newError ("MCP server '" +:+ serverName +:+
              "' not found in provided configuration. The MCP server must be specified in the URI."))
        | Some serverConfig =>
            promptArgs ← parseArguments input;
            createClient serverName serverConfig;;
            appendLine ("promptu: Fetching prompt '" +:+ promptName +:+
                        "' from MCP server '" +:+ serverName +:+ "'...");;
            session serverName promptName promptArgs
        end
  | _ => throw (newError "Invalid MCP prompt format. Expected: mcp.ServerName.PromptName")
  end.

End Client.
End McpClient.

(* ===================================================================== *)
(** * src/userDialogs.ts: the layout of long paths                        *)
(* ===================================================================== *)

Module UserDialogs.

(** [const maxLineLength = 70] *)
Definition maxLineLength : nat := 70.

(** [const separators = ['/', '\\']] *)
Definition separators : list ascii := ["/"%char; "\"%char].

(** The scan behind [s.lastIndexOf(c, fromIndex)]: [i] is the index of
    the first code unit of [s], [found] the last match before it. *)
Fixpoint lastIndexFrom (c : ascii) (fromIndex : nat) (s : string) (i : nat) (found : Z) : Z :=
  match s with
  | EmptyString => found
  | String x r =>
      if (i <=? fromIndex)%nat
      then lastIndexFrom c fromIndex r (S i) (if Ascii.eqb x c then Z.of_nat i else found)
      else found
  end.

(** [s.lastIndexOf(c, fromIndex)] for a pattern of one code unit: the
    greatest index not above [fromIndex] where it stands, -1 if none. *)
Definition lastIndexOf (s : string) (c : ascii) (fromIndex : nat) : Z :=
  lastIndexFrom c fromIndex s 0 (-1).

(** The [for] loop over the separators, from [splitIndex = -1]. *)
Definition findSplitIndex (remainingPath : string) : Z :=
  let searchLength := Nat.min (Js.len remainingPath) maxLineLength in
  fold_left
    (fun splitIndex separator =>
       let index := lastIndexOf remainingPath separator (searchLength - 1) in
       if index >? splitIndex then index else splitIndex)
    separators (-1).

(** One turn of the [while] loop: the line it pushes and the path that
    remains.  [substring(0, n)] is [String.substring 0 n]. *)
Definition turn (remainingPath : string) : string * string :=
  let splitIndex := findSplitIndex remainingPath in
  let splitIndex := if splitIndex =? -1 then maxLineLength else Z.to_nat splitIndex in
  (String.substring 0 splitIndex remainingPath, Js.skip splitIndex remainingPath).

(** The [while] loop and the push of the final piece.  The loop need
    not end: [None] when it is still running after [fuel] turns. *)
Fixpoint wrap (fuel : nat) (remainingPath : string) (lines : list string)
  : option (list string) :=
  if (maxLineLength <? Js.len remainingPath)%nat then
    match fuel with
    | O => None
    | S fuel' =>
        let '(line, rest) := turn remainingPath in
        wrap fuel' rest (lines ++ [line])
    end
  else
    Some (if (0 <? Js.len remainingPath)%nat then lines ++ [remainingPath] else lines).

(** [formatLongPath] *)
Definition formatLongPath (fuel : nat) (pathOrUrl : string) : option string :=
  if (Js.len pathOrUrl <=? maxLineLength)%nat then Some pathOrUrl
  else
    match wrap fuel pathOrUrl [] with
    | Some lines => Some (Js.join lines (String "010" ""))
    | None => None
    end.

End UserDialogs.

(* ===================================================================== *)
(** * src/copilotExecutor.ts                                              *)
(* ===================================================================== *)

Module CopilotExecutor.
Import Eff.

(** The calls that leave the executor; a command run and an update of
    the setting carry whether they succeeded. *)
Inductive Event :=
| AppendLine (line : string)
| ConsoleWarn
| ExecuteCommand (command : string) (argument : option string) (succeeded : bool)
| UpdateSetting (value : string) (succeeded : bool)
| ShowInformationMessage (message : string)
| ShowErrorMessage (message : string).

(** The field [this.chatCommand], the user setting
    [promptu.copilotChatCommand] ([None] while it is unset), and the
    trace. *)
Record World := mkWorld {
  chatCommand : string;
  copilotChatCommand : option string;
  trace : list Event
}.

Class Host := {
  (** [vscode.commands.executeCommand]: does it reject, and with what? *)
  executeCommand : list Event -> string -> option string -> option thrown;
  (** [config.update]: does it reject? *)
  updateFault : list Event -> string -> option thrown;
  (** [String(error)] *)
  describe : thrown -> string
}.

(** [private static readonly defaultCommandVariants] *)
Definition defaultCommandVariants : list string :=
  ["workbench.action.chat.openagent";
   "workbench.action.chat.openAgent";
   "workbench.action.chat.open"].

(** The constructor: [config.get('copilotChatCommand', defaultCommandVariants[0])]. *)
Definition construct (setting : option string) : World :=
  mkWorld (match setting with
           | Some command => command
           | None => "workbench.action.chat.openagent"
           end)
          setting [].

Section Executor.
Context {host : Host}.

Local Abbreviation M := (Eff.M World).

Definition emit (e : Event) : M unit :=
  modify (fun w => mkWorld (chatCommand w) (copilotChatCommand w) (e :: trace w)).

Definition ask {A} (oracle : list Event -> A) : M A :=
  w ← get; mret (oracle (trace w)).

Definition appendLine (line : string) : M unit := emit (AppendLine line).

(** [await vscode.commands.executeCommand(command, argument)] *)
Definition run (command : string) (argument : option string) : M unit :=
  failure ← ask (fun t => executeCommand t command argument);
  emit (ExecuteCommand command argument
          (match failure with None => true | Some _ => false end));;
  match failure with
  | Some e => throw e
  | None => mret tt
  end.

(** [updateChatCommandSetting] *)
Definition updateChatCommandSetting (newCommand : string) : M unit :=
  modify (fun w => mkWorld newCommand (copilotChatCommand w) (trace w));;
  tryCatch
    (fault ← ask (fun t => updateFault t newCommand);
     emit (UpdateSetting newCommand (match fault with None => true | Some _ => false end));;
     match fault with
     | Some e => throw e
     | None =>
         modify (fun w => mkWorld (chatCommand w) (Some newCommand) (trace w));;
         emit (ShowInformationMessage ("promptu: Chat command set to: " +:+ newCommand))
     end)
    (fun error =>
       emit (ShowErrorMessage ("promptu: Failed to update setting: " +:+ messageOf error))).

(** [error instanceof Error ? error : new Error(String(error))] *)
Definition toError (error : thrown) : thrown :=
  match error with
  | NotAnError => newError (describe error)
  | _ => error
  end.

(** [[this.chatCommand, ...defaultCommandVariants.filter(cmd => cmd !== this.chatCommand)]] *)
Definition triedCommands (chatCommand : string) : list string :=
  chatCommand :: List.filter (fun cmd => negb (String.eqb cmd chatCommand)) defaultCommandVariants.

(** The error thrown when every command has failed. *)
Definition allFailed (chatCommand : string) (lastError : thrown) : thrown :=
  newError
    ("Failed to execute Copilot Chat command. Available commands may have changed. Make sure GitHub Copilot Chat is installed and enabled. "
     +:+ String "010"
     ("            Tried variants: " +:+ Js.join (triedCommands chatCommand) ", " +:+
      ". You can also run 'promptu: Discover Chat Commands' from the Command Palette to change the chat command used. "
      +:+ String "010"
      ("            Last error: " +:+
       (if truthy (Some (messageOf lastError)) then messageOf lastError
        else "Unknown error")))).

(** The [for] loop over the variants, and the [throw] behind it. *)
Fixpoint fallback (variants : list string) (content : string) (lastError : thrown)
  : M unit :=
  match variants with
  | [] => w ← get; throw (allFailed (chatCommand w) lastError)
  | command :: rest =>
      r ← tryCatch
            (w ← get;
             if String.eqb command (chatCommand w) then mret (inl lastError)
             else
               run command (Some content);;
               updateChatCommandSetting command;;
               appendLine "promptu: Content sent to Copilot Chat";;
               mret (inr tt))
            (fun error => mret (inl (toError error)));
      match r with
      | inr _ => mret tt
      | inl lastError => fallback rest content lastError
      end
  end.

(** The first statement of [executeCopilotChatCommand]: a new chat is
    opened, and a failure to do so is logged and ignored. *)
Definition openNewChat : M unit :=
  tryCatch
    (run "workbench.action.chat.newChat" None)
    (fun newChatError =>
       appendLine ("promptu: Could not open new chat: " +:+ describe newChatError);;
       emit ConsoleWarn).

(** Its second: the configured command is run; [None] when the function
    returns from inside the [try], otherwise [lastError]. *)
Definition runConfigured (content : string) : M (option thrown) :=
  tryCatch
    (w ← get;
     run (chatCommand w) (Some content);;
     appendLine "promptu: Content sent to Copilot Chat";;
     mret None)
    (fun error => mret (Some (toError error))).

(** [executeCopilotChatCommand] *)
Definition executeCopilotChatCommand (content : string) : M unit :=
  openNewChat;;
  first ← runConfigured content;
  match first with
  | None => mret tt
  | Some lastError => fallback defaultCommandVariants content lastError
  end.

(** [executePrompt] *)
Definition executePrompt (promptName promptInput : string) : M unit :=
  tryCatch
    (let slashCommand :=
       if truthy (Some promptInput)
       then "/" +:+ promptName +:+ " " +:+ promptInput
       else "/" +:+ promptName in
     executeCopilotChatCommand slashCommand)
    (fun error =>
       throw (newError ("Failed to execute prompt '" +:+ promptName +:+ "': " +:+
                        messageOf error))).

End Executor.
End CopilotExecutor.

(* ===================================================================== *)
(** * Vocabulary of the properties                                        *)
(* ===================================================================== *)

Section ParserVocabulary.
Import PromptParser.

(** A path ends in a recognized suffix. *)
Definition recognized (path : string) : Prop :=
  exists ext stem, In ext extensions /\ path = stem +:+ ext.

End ParserVocabulary.

Section VersionVocabulary.
Import Version.

(** The numeric segment of a version at an index: the parsed segment
    while there is one, zero beyond the last. *)
Definition segment (v : string) (i : nat) : Z := nth i (parts v) 0.

(** The outcome of [isVersionSufficient] when no segment decides. *)
Definition tieBreak (installed required : string) : bool :=
  negb (Js.includes installed "-" && negb (Js.includes required "-")).

End VersionVocabulary.

(** A world with a trace, and a relation [keeps] between the world
    before and after a run that the runs under study maintain. *)
Class Traced (W Ev : Type) := {
  traceOf : W -> list Ev;
  keeps : W -> W -> Prop;
  keeps_refl : forall w, keeps w w;
  keeps_trans : forall a b c, keeps a b -> keeps b c -> keeps a c
}.

Section RunVocabulary.
Import Eff.
Context {W Ev : Type} {traced : Traced W Ev}.

(** [spec m Q]: every run of [m] maintains [keeps] and adds to the
    trace events [new], newest first, such that [Q] holds of the
    outcome and [new]. *)
Definition spec {A} (m : M W A) (Q : outcome A -> list Ev -> Prop) : Prop :=
  forall w r w', m w = (r, w') ->
    keeps w w' /\ exists new, traceOf w' = new ++ traceOf w /\ Q r new.

(** [free bad]: none of the new events is [bad]. *)
Definition free (bad : Ev -> bool) {A} (_ : outcome A) (new : list Ev) : Prop :=
  existsb bad new = false.

End RunVocabulary.

(** The installer's runs are judged by their trace and by the file,
    which all of it but [writeMcpConfig] leaves alone. *)
#[global] Instance installerTraced : Traced McpInstaller.World McpInstaller.Event := {|
  traceOf := McpInstaller.trace;
  keeps := fun w w' => McpInstaller.mcpJson w' = McpInstaller.mcpJson w;
  keeps_refl := fun w => eq_refl;
  keeps_trans := fun a b c Hab Hbc => eq_trans Hbc Hab
|}.

(** The runs of the client and of the fetcher are judged by their trace. *)
#[global] Instance clientTraced : Traced McpClient.World McpClient.Event := {|
  traceOf := McpClient.trace;
  keeps := fun _ _ => True;
  keeps_refl := fun _ => I;
  keeps_trans := fun _ _ _ _ _ => I
|}.

#[global] Instance fetcherTraced : Traced PromptFetcher.World PromptFetcher.Event := {|
  traceOf := PromptFetcher.trace;
  keeps := fun _ _ => True;
  keeps_refl := fun _ => I;
  keeps_trans := fun _ _ _ _ _ => I
|}.

Section InstallerVocabulary.
Import Eff McpInstaller.

(** Three kinds of events matter below: a declined confirmation, an
    assignment to the configuration in memory, and a call that touches
    the configuration file's directory or content. *)
Definition isDecline (e : Event) : bool :=
  match e with ShowConfirmation _ false => true | _ => false end.

Definition isMutation (e : Event) : bool :=
  match e with SetServer _ _ => true | _ => false end.

Definition isDiskCall (e : Event) : bool :=
  match e with CreateDirectory | WriteFile _ => true | _ => false end.

Definition declined (t : list Event) : bool := existsb isDecline t.
Definition mutated (t : list Event) : bool := existsb isMutation t.
Definition wrote (t : list Event) : bool := existsb isDiskCall t.

(** The line logged when the user cancels at [server]. *)
Definition cancelLine (server : McpServerConfig.t) : string :=
  "promptu: User cancelled installation of MCP server: " +:+ McpServerConfig.name server.

(** Events among which no confirmation is declined, nothing is assigned
    to the configuration, and the disk is not touched. *)
Definition quiet (new : list Event) : Prop :=
  declined new = false /\ mutated new = false /\ wrote new = false.

Definition calm {A} (_ : outcome A) (new : list Event) : Prop := quiet new.

(** A postcondition that survives older quiet events, and that holds of
    an exception thrown after quiet events only. *)
Definition stable {A} (Q : outcome A -> list Event -> Prop) : Prop :=
  (forall r n2 n1, Q r n2 -> quiet n1 -> Q r (n2 ++ n1))
  /\ (forall e n1, quiet n1 -> Q (Threw e) n1).

(** What one of the two installation procedures leaves behind for
    [server]: no disk call; when it reports a cancellation, the declined
    confirmation of [server] as its newest event, after quiet ones;
    otherwise no declined confirmation, and an assignment to the
    configuration exactly when it reports the configuration modified. *)
Definition stepPost (server : McpServerConfig.t)
    (r : outcome (InstallResult * McpConfiguration.t)) (new : list Event) : Prop :=
  wrote new = false
  /\ match r with
     | Returned (result, _) =>
         if cancelled result
         then configModified result = false
              /\ exists older, new = ShowConfirmation server false :: older /\ quiet older
         else declined new = false /\ mutated new = configModified result
     | Threw _ => declined new = false
     end.

(** What one turn of the loop leaves behind, and what the loop does. *)
Definition turnPost (needs : bool)
    (r : outcome (bool + McpConfiguration.t * bool)) (new : list Event) : Prop :=
  wrote new = false
  /\ match r with
     | Returned (inl b) =>
         b = false
         /\ exists server older,
              new = AppendLine (cancelLine server) :: ShowConfirmation server false :: older
              /\ declined older = false
     | Returned (inr (_, needs')) =>
         declined new = false /\ needs' = needs || mutated new
     | Threw _ => declined new = false
     end.

(** An accepted confirmation; and the events by which a descriptor gets
    registered: the user accepts it, and it is assigned to the
    configuration in memory. *)
Definition isAcceptance (e : Event) : bool :=
  match e with ShowConfirmation _ true => true | _ => false end.

Definition isRegistration (e : Event) : bool := isAcceptance e || isMutation e.

Definition accepted (t : list Event) : bool := existsb isAcceptance t.

(** The configuration in memory after the events [new], newest first,
    when it was [config] before them: the assignments among them are
    made, the oldest first. *)
Fixpoint replay (new : list Event) (config : McpConfiguration.t) : McpConfiguration.t :=
  match new with
  | [] => config
  | e :: older =>
      let before := replay older config in
      match e, McpConfiguration.servers before with
      | SetServer name entry, Some servers => assignServer name entry before servers
      | _, _ => before
      end
  end.

(** What one of the two installation procedures hands on: the
    configuration with the assignments of its run made, and the report
    that the configuration was modified exactly when the user accepted. *)
Definition ledger (config : McpConfiguration.t)
    (r : outcome (InstallResult * McpConfiguration.t)) (new : list Event) : Prop :=
  match r with
  | Returned (result, config') =>
      config' = replay new config /\ configModified result = accepted new
  | Threw _ => True
  end.

(** The same of the loop, whose flag is raised by an acceptance. *)
Definition loopLedger (config : McpConfiguration.t) (needs : bool)
    (r : outcome (bool + McpConfiguration.t * bool)) (new : list Event) : Prop :=
  match r with
  | Returned (inr (config', needs')) =>
      config' = replay new config /\ needs' = needs || accepted new
  | _ => True
  end.

End InstallerVocabulary.


Section ClientVocabulary.
Import Eff McpClient.

(** A session is open once [connect] has accepted the transport. *)
Definition isConnected (e : Event) : bool :=
  match e with Connect _ true => true | _ => false end.

Definition isClose (e : Event) : bool :=
  match e with CloseClient => true | _ => false end.

Definition connected (t : list Event) : bool := existsb isConnected t.
Definition closed (t : list Event) : bool := existsb isClose t.

(** The line logged after [client.close()], by what it answered. *)
Definition closeLine (serverName : string) (failure : option thrown) : string :=
  match failure with
  | None => "promptu: Closed connection to MCP server '" +:+ serverName +:+ "'"
  | Some closeError =>
      "promptu: Error closing MCP client '" +:+ serverName +:+ "': " +:+ messageOf closeError
  end.

(** Events with no accepted connection and no close among them. *)
Definition idle {A} (_ : outcome A) (new : list Event) : Prop :=
  connected new = false /\ closed new = false.

(** What [createClient] leaves behind: no close; and when it throws,
    no accepted connection. *)
Definition unopened {A} (r : outcome A) (new : list Event) : Prop :=
  closed new = false
  /\ match r with
     | Returned _ => True
     | Threw _ => connected new = false
     end.

End ClientVocabulary.

Section FetcherVocabulary.
Import Eff PromptFetcher.

(** The first attempt has failed when the request was rejected (the
    timeout is a rejection), when the status was not a success, when the
    body could not be read, or when the body was taken for a sign-in
    page. *)
Definition tier1Failed (answer : FetchEnd) : Prop :=
  match answer with
  | Rejected _ => True
  | Responded ok _ _ text =>
      ok = false
      \/ match text with
         | inl _ => True
         | inr content => isSignInPage content = true
         end
  end.

Definition isFetch (e : Event) : bool :=
  match e with Fetch _ _ _ => true | _ => false end.

(** A file written from text in memory, as against one copied. *)
Definition isWriteFile (e : Event) : bool :=
  match e with WriteFile _ _ => true | _ => false end.

(** A request, or a file written from memory. *)
Definition isFetchOrWrite (e : Event) : bool := isFetch e || isWriteFile e.

Local Abbreviation plain := (free isFetchOrWrite).

(** What a command of git leaves behind: its spawning, and plain events. *)
Definition spawned (args : list string) {A} (r : outcome A) (new : list Event) : Prop :=
  plain r new /\ In (SpawnGit args) new.

(** What the clone-based extraction leaves behind: plain events, and
    among them the spawning of [git clone --depth 1] on the repository
    of the address, whenever the address has one. *)
Definition cloned (parsedPrompt : ParsedPrompt.t) {A} (r : outcome A)
    (new : list Event) : Prop :=
  plain r new
  /\ forall repoUrl, buildGitUrl parsedPrompt = inr repoUrl ->
       exists tempDir, In (SpawnGit ["clone"; "--depth"; "1"; repoUrl; tempDir]) new.

(** What the first attempt leaves behind: when its request failed, the
    request is the last thing it did, after plain events, and the
    attempt threw. *)
Definition direct {A} (r : outcome A) (new : list Event) : Prop :=
  forall url headers answer,
    In (Fetch url headers answer) new -> tier1Failed answer ->
    (exists before, new = Fetch url headers answer :: before
                    /\ existsb isFetchOrWrite before = false)
    /\ exists e, r = Threw e.

End FetcherVocabulary.

Section TextVocabulary.

(** No code unit of the string is a separator. *)
Fixpoint freeOf (sep : ascii -> bool) (s : string) : bool :=
  match s with
  | EmptyString => true
  | String c r => negb (sep c) && freeOf sep r
  end.

End TextVocabulary.

Section DialogVocabulary.
Import UserDialogs.

(** One of the separators at which [formatLongPath] breaks a line. *)
Definition isSeparator (c : ascii) : bool := existsb (Ascii.eqb c) separators.

End DialogVocabulary.

Section ExecutorVocabulary.
Import CopilotExecutor.

(** A command run with an argument, as command, argument and success. *)
Definition attempt (e : Event) : option (string * string * bool) :=
  match e with
  | ExecuteCommand command (Some argument) succeeded => Some (command, argument, succeeded)
  | _ => None
  end.

(** The attempts among the events, the oldest first. *)
Definition attempts (new : list Event) : list (string * string * bool) :=
  omap attempt (rev new).

(** The attempts that failed to deliver [content] through [commands]. *)
Definition failures (content : string) (commands : list string)
  : list (string * string * bool) :=
  map (fun command => (command, content, false)) commands.

End ExecutorVocabulary.

Section StorageVocabulary.
Import PromptFetcher.

(** The value of the setting [chat.promptFilesLocations], [{}] while it
    is unset. *)
Definition locationsOf (w : World) : list (string * bool) :=
  match promptFilesLocations w with
  | Some locations => locations
  | None => []
  end.

(** Where [storePromptInStorage] puts the prompt named [promptName]. *)
Definition storedAt {host : Host} (promptName : string) : string :=
  pathJoin (pathJoin globalStoragePath "prompts") (promptName +:+ ".prompt.md").


(** The operation named in the error of [storePromptInStorage]. *)
Definition operation (source : Source) : string :=
  match source with
  | Content _ => "write content"
  | FileUri fsPath => "copy file '" +:+ fsPath +:+ "'"
  end.

Definition isSpawnGit (e : Event) : bool :=
  match e with SpawnGit _ => true | _ => false end.

Definition isGetSession (e : Event) : bool :=
  match e with GetSession _ => true | _ => false end.

Definition isCopy (e : Event) : bool :=
  match e with Copy _ _ => true | _ => false end.


(** The requests among the events, the oldest first. *)
Definition request (e : Event) : option (string * Headers) :=
  match e with
  | Fetch url headers _ => Some (url, headers)
  | _ => None
  end.

Definition requests (new : list Event) : list (string * Headers) :=
  omap request (rev new).

(** At most one request among the events, and an allowed one. *)
Definition atMostOne (allowed : string * Headers -> Prop) {A} (_ : Eff.outcome A)
    (new : list Event) : Prop :=
  requests new = [] \/ exists q, requests new = [q] /\ allowed q.

(** The request an address allows: for Azure DevOps the raw file with a
    bearer token that is not empty as its only header, for GitHub the
    raw file without header, for a URL that URL without header. *)
Definition allowedRequest (parsedPrompt : ParsedPrompt.t) (q : string * Headers) : Prop :=
  match ParsedPrompt.type parsedPrompt with
  | ParsedPrompt.ado =>
      buildRawFileUrl parsedPrompt = inr q.1
      /\ exists token, token <> "" /\ q.2 = [("Authorization", "Bearer " +:+ token)]
  | ParsedPrompt.github => buildRawFileUrl parsedPrompt = inr q.1 /\ q.2 = []
  | ParsedPrompt.url_ => ParsedPrompt.url parsedPrompt = Some q.1 /\ q.2 = []
  | _ => False
  end.

End StorageVocabulary.

Section TransportVocabulary.
Import McpClient.

(** A call of [connect], accepted or not. *)
Definition isConnect (e : Event) : bool :=
  match e with Connect _ _ => true | _ => false end.

(** A request for a session of the editor's Microsoft account. *)
Definition isSessionRequest (e : Event) : bool :=
  match e with GetSession _ => true | _ => false end.

(** [resourceMetadata.scopes_supported || []] *)
Definition scopesOf (scopes_supported : option (list string)) : list string :=
  match scopes_supported with
  | Some scopes => scopes
  | None => []
  end.

End TransportVocabulary.

Section GateVocabulary.
Import McpInstaller.

(** The version [getNuGetPackageVersion] reads off the output of
    [dotnet tool list]: the second column of the third line. *)
Definition listedVersion (stdout : string) : option string :=
  match Js.split (Js.trim stdout) "010" with
  | _ :: _ :: line2 :: _ =>
      match Js.splitWs (Js.trim line2) with
      | _ :: version :: _ => Some version
      | _ => None
      end
  | _ => None
  end.

(** An event that only reads or logs. *)
Definition isReadOrLog (e : Event) : bool :=
  match e with
  | AppendLine _ | ReadFile => true
  | _ => false
  end.

(** An event that logs, or lists the installed tools. *)
Definition isListOrLog (e : Event) : bool :=
  match e with
  | AppendLine _ | Spawn ("tool" :: "list" :: _) => true
  | _ => false
  end.

End GateVocabulary.

Section RegistryVocabulary.
Import McpInstaller.

(** [object[key]] of an own property: the value of the first entry
    under the key. *)
Definition getProperty {V} (key : string) (object : list (string * V)) : option V :=
  match find (fun kv => String.eqb (fst kv) key) object with
  | Some kv => Some (snd kv)
  | None => None
  end.

(** A configuration that comes from another by registering services
    under some of the given names: the inputs are the same, the names
    registered before are all there and in the order they had among
    themselves, and what is registered under any name that is not among
    the given ones is the same. *)
Definition extends (names : list string) (config config' : McpConfiguration.t) : Prop :=
  McpConfiguration.inputs config' = McpConfiguration.inputs config
  /\ forall entries, McpConfiguration.servers config = Some entries ->
       exists entries',
         McpConfiguration.servers config' = Some entries'
         /\ sublist (map fst entries) (map fst entries')
         /\ forall key, ~ In key names -> getProperty key entries' = getProperty key entries.

End RegistryVocabulary.

Section ReadVocabulary.
Import Eff McpInstaller.
Context {host : Host}.

(** The configuration that [installServers] starts from in the world
    [w]: the one [readMcpConfig] returns after the first line is
    logged, or the empty one where it returns [null]. *)
Definition configRead (servers : list McpServerConfig.t) (w : World) : McpConfiguration.t :=
  match fst (readMcpConfig
               (mkWorld (mcpJson w)
                  (AppendLine ("promptu: Installing " +:+ pretty (length servers)
                               +:+ " MCP server(s)...") :: trace w))) with
  | Returned (Some config) => config
  | _ => emptyConfig
  end.

(** A descriptor that [installServers] passes over when the
    configuration in memory is [config]: one without package whose
    name is in [config.servers]; or one with a package and a required
    version, where [dotnet tool list] shows the package installed in a
    version that is sufficient. *)
Definition skipped (config : McpConfiguration.t) (server : McpServerConfig.t) : Prop :=
  if truthy (McpServerConfig.nugetPackage server)
  then exists packageName required installed code out err,
         McpServerConfig.nugetPackage server = Some packageName
         /\ McpServerConfig.version server = Some required /\ required <> ""
         /\ (forall t, dotnet t ["tool"; "list"; "--global"; packageName]
                       = Close code out err)
         /\ listedVersion out = Some installed /\ installed <> ""
         /\ Version.isVersionSufficient installed required = true
  else exists entries,
         McpConfiguration.servers config = Some entries
         /\ inServers (McpServerConfig.name server) config entries = true.

End ReadVocabulary.

(* ===================================================================== *)
(** * Sample worlds                                                       *)
(* ===================================================================== *)

Module Samples.

(** Two descriptors: a service that is only configured, and one that
    comes as a NuGet package. *)
Definition docs : McpServerConfig.t :=
  McpServerConfig.mk "docs" "http" None None (Some "https://example.com/mcp")
    None None None None.

Definition tool : McpServerConfig.t :=
  McpServerConfig.mk "tool" "stdio" (Some "my-tool") (Some ["--serve"]) None
    None (Some "My.Tool") (Some "1.2.0") None.

Definition renderServers (c : McpConfiguration.t) : string :=
  match McpConfiguration.servers c with
  | Some l => "servers: " +:+ Js.join (map fst l) ", "
  | None => "no servers"
  end.

(** What [dotnet tool list] prints for an installed package. *)
Definition toolList : string :=
  "Package Id      Version      Commands" +:+ String "010"
  ("-------------------------------------" +:+ String "010"
   "my.tool         1.1.9        my-tool").

(** A host without faults, whose user gives one answer to every
    confirmation and whose [dotnet] always succeeds. *)
Definition installerHost (answer : bool) : McpInstaller.Host := {|
  McpInstaller.jsonParse := fun _ => inr None;
  McpInstaller.jsonStringify := renderServers;
  McpInstaller.fsFault := fun _ _ => None;
  McpInstaller.confirmation := fun _ _ => answer;
  McpInstaller.dotnet := fun _ args =>
    match args with
    | _ :: "list" :: _ => McpInstaller.Close (Some 0) toolList ""
    | _ => McpInstaller.Close (Some 0) "" ""
    end
|}.

Definition installerWorld : McpInstaller.World := McpInstaller.mkWorld None [].

Definition declinedRun : Eff.outcome bool * McpInstaller.World :=
  McpInstaller.installServers (host := installerHost false) [docs; tool] installerWorld.

Definition acceptedRun : Eff.outcome bool * McpInstaller.World :=
  McpInstaller.installServers (host := installerHost true) [docs; tool] installerWorld.

Definition signInPage : string := "<html><body>Sign in to your account</body></html>".

(** A host whose network answers every request with a sign-in page and
    whose [git clone] brings the prompt file. *)
Definition fetcherHost : PromptFetcher.Host := {|
  PromptFetcher.globalStoragePath := "/storage";
  PromptFetcher.pathJoin := fun a b => a +:+ "/" +:+ b;
  PromptFetcher.inside := fun f d => Js.startsWith f (d +:+ "/");
  PromptFetcher.freshTempDir := fun _ => "/tmp/promptu-1";
  PromptFetcher.fsFault := fun _ _ => None;
  PromptFetcher.emptyDirectory := fun _ _ => false;
  PromptFetcher.fetch := fun _ _ _ => PromptFetcher.Responded true 200 "OK" (inr signInPage);
  PromptFetcher.getSession := fun _ _ => PromptFetcher.Session "token";
  PromptFetcher.git := fun _ _ =>
    PromptFetcher.GitClose (Some 0) ""
      [("/tmp/promptu-1/code-review.prompt.md", "Review the code.")]
|}.

(** [parsePrompt("gh:acme/prompts/code-review")] *)
Definition address : ParsedPrompt.t :=
  ParsedPrompt.mk ParsedPrompt.github "code-review" None None None
    (Some "prompts") (Some "acme") (Some "code-review.prompt.md") None.

Definition rawUrl : string :=
  "https://raw.githubusercontent.com/acme/prompts/main/code-review.prompt.md".

Definition fetcherWorld : PromptFetcher.World := PromptFetcher.mkWorld ∅ None [].

Definition fallbackRun : Eff.outcome unit * PromptFetcher.World :=
  PromptFetcher.fetchWithFallbackStrategyToFile (host := fetcherHost) address fetcherWorld.

(** A host whose service accepts the connection, fails the request and
    fails to close. *)
Definition clientHost : McpClient.Host := {|
  McpClient.jsonParse := fun _ => inr (McpClient.JsonObject "{}");
  McpClient.validUrl := fun _ => true;
  McpClient.discover := fun _ _ => inr None;
  McpClient.getSession := fun _ _ => inr None;
  McpClient.connect := fun _ _ => None;
  McpClient.promptsGet := fun _ _ _ => inl (Eff.newError "Unknown prompt");
  McpClient.close := fun _ => Some (Eff.newError "Connection closed")
|}.

Definition clientWorld : McpClient.World := McpClient.mkWorld [].

Definition renderRun : Eff.outcome string * McpClient.World :=
  McpClient.getPrompt (host := clientHost) "mcp.tool.review" "" [docs; tool] clientWorld.

(** A host on which only the older spelling of the chat command works. *)
Definition executorHost : CopilotExecutor.Host := {|
  CopilotExecutor.executeCommand := fun _ command _ =>
    if String.eqb command "workbench.action.chat.openAgent" then None
    else Some (Eff.newError ("command '" +:+ command +:+ "' not found"));
  CopilotExecutor.updateFault := fun _ _ => None;
  CopilotExecutor.describe := Eff.messageOf
|}.

(** A host on which no command works. *)
Definition deafHost : CopilotExecutor.Host := {|
  CopilotExecutor.executeCommand := fun _ command _ =>
    Some (Eff.newError ("command '" +:+ command +:+ "' not found"));
  CopilotExecutor.updateFault := fun _ _ => None;
  CopilotExecutor.describe := Eff.messageOf
|}.

Definition executorWorld : CopilotExecutor.World := CopilotExecutor.construct None.

Definition chatRun : Eff.outcome unit * CopilotExecutor.World :=
  CopilotExecutor.executeCopilotChatCommand (host := executorHost)
    "Review the code." executorWorld.

Definition promptRun : Eff.outcome unit * CopilotExecutor.World :=
  CopilotExecutor.executePrompt (host := deafHost) "code-review" "src/main.ts" executorWorld.

(** A host like [fetcherHost], whose network serves the prompt file. *)
Definition servingHost : PromptFetcher.Host := {|
  PromptFetcher.globalStoragePath := "/storage";
  PromptFetcher.pathJoin := fun a b => a +:+ "/" +:+ b;
  PromptFetcher.inside := fun f d => Js.startsWith f (d +:+ "/");
  PromptFetcher.freshTempDir := fun _ => "/tmp/promptu-1";
  PromptFetcher.fsFault := fun _ _ => None;
  PromptFetcher.emptyDirectory := fun _ _ => false;
  PromptFetcher.fetch := fun _ _ _ =>
    PromptFetcher.Responded true 200 "OK" (inr "Review the code.");
  PromptFetcher.getSession := fun _ _ => PromptFetcher.Session "token";
  PromptFetcher.git := fun _ _ => PromptFetcher.GitError "git is not installed"
|}.

(** [parsePrompt("ado:contoso/web/prompts/code-review")] *)
Definition adoAddress : ParsedPrompt.t :=
  ParsedPrompt.mk ParsedPrompt.ado "code-review" None (Some "contoso") (Some "web")
    (Some "prompts") None (Some "code-review.prompt.md") None.

Definition adoRawUrl : string :=
  "https://contoso.visualstudio.com/web/_apis/git/repositories/prompts/items?path=/code-review.prompt.md".

Definition ensureRun : Eff.outcome string * PromptFetcher.World :=
  PromptFetcher.ensurePromptsDirectory (host := fetcherHost) fetcherWorld.


Definition adoRun : Eff.outcome unit * PromptFetcher.World :=
  PromptFetcher.fetchPrompt (host := fetcherHost) adoAddress fetcherWorld.


(** A host whose service names an authorization server, and whose
    editor has the session given. *)
Definition guardedHost (authServer : string) (session : option string) : McpClient.Host := {|
  McpClient.jsonParse := fun _ => inr (McpClient.JsonObject "{}");
  McpClient.validUrl := fun _ => true;
  McpClient.discover := fun _ _ =>
    inr (Some (McpClient.mkMetadata (Some [authServer]) (Some ["api://docs/.default"])));
  McpClient.getSession := fun _ _ => inr session;
  McpClient.connect := fun _ _ => None;
  McpClient.promptsGet := fun _ _ _ => inl (Eff.newError "Unknown prompt");
  McpClient.close := fun _ => None
|}.

(** A configuration in which [docs] is registered, and a host that
    reads it from the file, whose user accepts and whose [dotnet]
    succeeds. *)
Definition registry : McpConfiguration.t :=
  McpConfiguration.mk
    (Some [("docs", McpConfiguration.mkEntry "http" None None
                      (Some "https://example.com/mcp") None)])
    "[]" None.

Definition registryHost : McpInstaller.Host := {|
  McpInstaller.jsonParse := fun _ => inr (Some registry);
  McpInstaller.jsonStringify := renderServers;
  McpInstaller.fsFault := fun _ _ => None;
  McpInstaller.confirmation := fun _ _ => true;
  McpInstaller.dotnet := fun _ args =>
    match args with
    | _ :: "list" :: _ => McpInstaller.Close (Some 0) toolList ""
    | _ => McpInstaller.Close (Some 0) "" ""
    end
|}.

Definition registryWorld : McpInstaller.World :=
  McpInstaller.mkWorld (Some "servers: docs") [].

(** A descriptor under a name every object inherits. *)
Definition inherited : McpServerConfig.t :=
  McpServerConfig.mk "constructor" "http" None None (Some "https://example.com/other")
    None None None None.

(** [tool], content with an older version. *)
Definition oldTool : McpServerConfig.t :=
  McpServerConfig.mk "tool" "stdio" (Some "my-tool") (Some ["--serve"]) None
    None (Some "My.Tool") (Some "1.1") None.

Definition extendedRun : Eff.outcome bool * McpInstaller.World :=
  McpInstaller.installServers (host := registryHost) [docs; tool] registryWorld.

(** [docs] is registered, and [oldTool] is installed in a sufficient
    version. *)
Definition skippedRun : Eff.outcome bool * McpInstaller.World :=
  McpInstaller.installServers (host := registryHost) [docs; oldTool] registryWorld.

(** A configuration in which [tool] is registered as its descriptor
    describes it, and a host that reads it from the file, whose user
    accepts and whose [dotnet] lists version 1.1.9 and succeeds. *)
Definition toolRegistry : McpConfiguration.t :=
  McpConfiguration.mk
    (Some [("tool", McpConfiguration.mkEntry "stdio" (Some "my-tool") (Some ["--serve"])
                      None None)])
    "[]" None.

Definition toolHost : McpInstaller.Host := {|
  McpInstaller.jsonParse := fun _ => inr (Some toolRegistry);
  McpInstaller.jsonStringify := renderServers;
  McpInstaller.fsFault := fun _ _ => None;
  McpInstaller.confirmation := fun _ _ => true;
  McpInstaller.dotnet := fun _ args =>
    match args with
    | _ :: "list" :: _ => McpInstaller.Close (Some 0) toolList ""
    | _ => McpInstaller.Close (Some 0) "" ""
    end
|}.

Definition toolWorld : McpInstaller.World :=
  McpInstaller.mkWorld (Some "servers: tool") [].

(** Version 1.2.0 of [tool] is required where 1.1.9 is installed. *)
Definition upgradeRun : Eff.outcome bool * McpInstaller.World :=
  McpInstaller.installServers (host := toolHost) [tool] toolWorld.

End Samples.

(* ===================================================================== *)
(** * Properties: strings                                                 *)
(* ===================================================================== *)

#[local] Arguments String.append !s1 s2 : simpl nomatch.

Section StringFacts.

Lemma len_app (a b : string) : Js.len (a +:+ b) = (Js.len a + Js.len b)%nat.
Proof. unfold Js.len. induction a as [|c a IH]; cbn; [reflexivity | now f_equal]. Qed.

Lemma skip_app (a b : string) : Js.skip (Js.len a) (a +:+ b) = b.
Proof. unfold Js.len. induction a as [|c a IH]; cbn; auto. Qed.

Lemma skip_split (n : nat) (s : string) :
  s = String.substring 0 n s +:+ Js.skip n s.
Proof.
  revert s; induction n as [|n IH]; intros [|c s]; simpl; auto.
  change (String c s = String c (String.substring 0 n s +:+ Js.skip n s)).
  f_equal. apply IH.
Qed.

Lemma app_empty_r (s : string) : s +:+ "" = s.
Proof. induction s as [|c s IH]; cbn; [reflexivity | now rewrite IH]. Qed.

Lemma app_assoc (a b c : string) : (a +:+ b) +:+ c = a +:+ b +:+ c.
Proof. induction a as [|x a IH]; cbn; [reflexivity | now rewrite IH]. Qed.

(** [endsWith] is the suffix relation. *)
Lemma endsWith_iff (s suffix : string) :
  Js.endsWith s suffix = true <-> exists stem, s = stem +:+ suffix.
Proof.
  unfold Js.endsWith; split.
  - destruct (Nat.leb_spec (Js.len suffix) (Js.len s)) as [Hle|Hlt]; [|discriminate].
    intros H. apply String.eqb_eq in H.
    set (n := (Js.len s - Js.len suffix)%nat) in *.
    exists (String.substring 0 n s).
    rewrite <- H. apply skip_split.
  - intros [stem ->]. rewrite len_app.
    replace (Js.len suffix <=? Js.len stem + Js.len suffix)%nat with true
      by (symmetry; apply Nat.leb_le; lia).
    replace (Js.len stem + Js.len suffix - Js.len suffix)%nat with (Js.len stem) by lia.
    rewrite skip_app. apply String.eqb_refl.
Qed.

Lemma endsWith_app (stem suffix : string) : Js.endsWith (stem +:+ suffix) suffix = true.
Proof. apply endsWith_iff. now exists stem. Qed.

(** A prefix test reads no further than the length of the prefix. *)
Lemma prefix_app_long (p a b : string) :
  (Js.len p <= Js.len a)%nat -> String.prefix p (a +:+ b) = String.prefix p a.
Proof.
  unfold Js.len. revert a; induction p as [|c p IH]; intros a Hlen.
  { destruct a, b; reflexivity. }
  destruct a as [|d a]; simpl in Hlen; [lia|].
  cbn. destruct (ascii_dec c d); [apply IH; lia | reflexivity].
Qed.

End StringFacts.

(* ===================================================================== *)
(** * Properties: src/promptParser.ts                                     *)
(* ===================================================================== *)

Section ParserFacts.
Import PromptParser.

Lemma hasExtension_iff (path : string) :
  existsb (fun ext => Js.endsWith path ext) extensions = true <-> recognized path.
Proof.
  rewrite existsb_exists. split.
  - intros (ext & Hin & Hend). apply endsWith_iff in Hend as [stem ->].
    now exists ext, stem.
  - intros (ext & stem & Hin & ->). exists ext. split; [assumption | apply endsWith_app].
Qed.

Lemma recognized_default (path : string) : recognized (path +:+ ".prompt.md").
Proof. exists ".prompt.md", path. split; [simpl; auto | reflexivity]. Qed.

(** C6. [addDefaultExtension] returns its argument when that ends in one
    of '.prompt.md', '.md', '.txt', '.json', and otherwise the argument
    followed by '.prompt.md', whatever extension it already carries:
    "name.xyz" becomes "name.xyz.prompt.md". *)
Theorem addDefaultExtension_cases (path : string) :
  (recognized path /\ addDefaultExtension path = path
   \/ ~ recognized path /\ addDefaultExtension path = path +:+ ".prompt.md")
  /\ extensions = [".prompt.md"; ".md"; ".txt"; ".json"]
  /\ addDefaultExtension "name.xyz" = "name.xyz.prompt.md".
Proof.
  split; [|split; reflexivity].
  unfold addDefaultExtension.
  destruct (existsb _ extensions) eqn:E.
  - left. split; [now apply hasExtension_iff | reflexivity].
  - right. split; [|reflexivity].
    intros H. apply hasExtension_iff in H. congruence.
Qed.

(** C9. [addDefaultExtension] is idempotent on every string: its result
    always ends in a recognized suffix, so a second application returns
    it unchanged. *)
Theorem addDefaultExtension_idempotent (path : string) :
  recognized (addDefaultExtension path)
  /\ addDefaultExtension (addDefaultExtension path) = addDefaultExtension path.
Proof.
  assert (R : recognized (addDefaultExtension path)).
  { unfold addDefaultExtension.
    destruct (existsb _ extensions) eqn:E.
    - now apply hasExtension_iff.
    - apply recognized_default. }
  split; [exact R|].
  apply hasExtension_iff in R.
  unfold addDefaultExtension at 1. now rewrite R.
Qed.

Lemma startsWith_app (p s : string) : Js.startsWith (p +:+ s) p = true.
Proof.
  unfold Js.startsWith. induction p as [|c p IH]; simpl.
  - now destruct s.
  - destruct (ascii_dec c c); [assumption | congruence].
Qed.

(** Splitting on '.' behind the prefix "mcp.": the prefix gives the
    first segment, the rest of the string the others. *)
Lemma split_mcp (rest : string) :
  Js.split ("mcp." +:+ rest) "." = "mcp" :: Js.split rest ".".
Proof. reflexivity. Qed.

(** C4. For a string that begins with "mcp.", [parsePrompt] succeeds
    exactly when what follows the prefix splits on '.' into two
    segments; the result is then the mcp variant named by the whole
    string, and the failure is otherwise the malformed-address error of
    the MCP format. *)
Theorem parsePrompt_mcp (rest : string) :
  parsePrompt ("mcp." +:+ rest)
  = (if (length (Js.split rest ".") =? 2)%nat
     then inr (ParsedPrompt.bare ParsedPrompt.mcp ("mcp." +:+ rest))
     else inl InvalidMcpFormat)
  /\ classify InvalidMcpFormat = MalformedAddress
  /\ parsePrompt "mcp.server.prompt"
     = inr (ParsedPrompt.bare ParsedPrompt.mcp "mcp.server.prompt")
  /\ parsePrompt "mcp.onlyone" = inl InvalidMcpFormat
  /\ parsePrompt "mcp.a.b.c" = inl InvalidMcpFormat.
Proof.
  split; [|repeat split; reflexivity].
  unfold parsePrompt. rewrite startsWith_app, split_mcp.
  change (length ("mcp" :: Js.split rest ".")) with (S (length (Js.split rest "."))).
  destruct (Js.split rest ".") as [|h [|h' [|h'' t]]]; reflexivity.
Qed.

(** Where the last segment holds '.prompt.md' only at its end, the first
    occurrence is the trailing one, and [replace] strips it. *)
Lemma replace_trailing_suffix (stem : string) :
  Js.includes (stem +:+ ".prompt.m") ".prompt.md" = false ->
  Js.replace ".prompt.md" "" (stem +:+ ".prompt.md") = stem.
Proof.
  induction stem as [|c stem IH]; intros Hnone; [reflexivity|].
  cbn [String.append Js.includes] in Hnone.
  apply orb_false_elim in Hnone as [Hhere Hlater].
  cbn [String.append Js.replace].
  replace (String.prefix ".prompt.md" (String c (stem +:+ ".prompt.md"))) with false.
  - now rewrite IH.
  - assert (E : String c (stem +:+ ".prompt.md")
                 = String c (stem +:+ ".prompt.m") +:+ "d").
    { cbn [String.append]. f_equal. now rewrite app_assoc. }
    rewrite E, prefix_app_long; [now rewrite Hhere|].
    change (String c (stem +:+ ".prompt.m")) with (String c stem +:+ ".prompt.m").
    rewrite len_app. cbn. lia.
Qed.

Lemma getPromptName_compound (prompt stem : string) :
  Js.lastOf (Js.splitBy isPathSeparator prompt) = stem +:+ ".prompt.md" ->
  Js.includes (stem +:+ ".prompt.m") ".prompt.md" = false ->
  getPromptName prompt = stem.
Proof.
  intros Hlast Hnone. unfold getPromptName. rewrite Hlast, endsWith_app.
  now apply replace_trailing_suffix.
Qed.

Lemma noDot_app_dot (a b : string) : noDot (a +:+ String "." b) = false.
Proof.
  induction a as [|c a IH]; [reflexivity|].
  cbn [String.append noDot]. rewrite IH. apply andb_false_r.
Qed.

(** The regular expression removes the text from the last dot on, and
    nothing when there is no dot. *)
Lemma removeLastExtension_last_dot (stem ext : string) :
  noDot ext = true -> removeLastExtension (stem +:+ String "." ext) = stem.
Proof.
  intros Hext. induction stem as [|c stem IH].
  - cbn. now rewrite Hext.
  - cbn [String.append removeLastExtension].
    rewrite noDot_app_dot, andb_false_r. now rewrite IH.
Qed.

Lemma removeLastExtension_no_dot (s : string) :
  noDot s = true -> removeLastExtension s = s.
Proof.
  induction s as [|c s IH]; [reflexivity|].
  cbn [noDot removeLastExtension]. intros H.
  apply andb_prop in H as [Hc Hs].
  apply negb_true_iff in Hc. rewrite Hc. cbn. now rewrite IH.
Qed.

(** The examples of the canonical name. *)
Lemma getPromptName_examples :
  getPromptName "gh:owner/repo/path/to/my-prompt.md" = "my-prompt"
  /\ getPromptName "a/b/c.prompt.md" = "c"
  /\ getPromptName "simple-name" = "simple-name".
Proof. repeat split; reflexivity. Qed.

(** C5. On the last segment "a.prompt.mdx.prompt.md", which ends with
    '.prompt.md', [getPromptName] removes the first occurrence of
    '.prompt.md' and not the trailing one: it returns "ax.prompt.md",
    where stripping the trailing compound suffix gives "a.prompt.mdx". *)
Theorem getPromptName_strips_first_occurrence :
  Js.endsWith "a.prompt.mdx.prompt.md" ".prompt.md" = true
  /\ "a.prompt.mdx.prompt.md" = "a.prompt.mdx" +:+ ".prompt.md"
  /\ getPromptName "a.prompt.mdx.prompt.md" = "ax.prompt.md"
  /\ getPromptName "a.prompt.mdx.prompt.md" <> "a.prompt.mdx".
Proof. repeat split; try reflexivity. discriminate. Qed.

End ParserFacts.

(* ===================================================================== *)
(** * Properties: version comparison                                      *)
(* ===================================================================== *)

Section VersionFacts.
Import Version.

Lemma nth_padTo (m : nat) (ps : list Z) (i : nat) :
  nth i (padTo m ps) 0 = nth i ps 0.
Proof.
  unfold padTo. destruct (Nat.lt_ge_cases i (length ps)) as [Hlt|Hge].
  - now rewrite List.app_nth1.
  - rewrite List.app_nth2 by assumption.
    rewrite (List.nth_overflow ps) by assumption.
    apply List.nth_repeat.
Qed.

Lemma length_padTo (m : nat) (ps : list Z) :
  (length ps <= m)%nat -> length (padTo m ps) = m.
Proof. intros H. unfold padTo. rewrite List.length_app, List.repeat_length. lia. Qed.

(** What the comparison loop computes on arrays of one length: the
    first index where they differ decides; [None] when there is none. *)
Lemma compareParts_spec (xs ys : list Z) :
  length xs = length ys ->
  match compareParts xs ys with
  | Some decided =>
      exists i, (forall j, (j < i)%nat -> nth j xs 0 = nth j ys 0)
                /\ nth i xs 0 <> nth i ys 0
                /\ decided = (nth i xs 0 >? nth i ys 0)
  | None => forall j, nth j xs 0 = nth j ys 0
  end.
Proof.
  revert ys; induction xs as [|x xs IH]; intros [|y ys] Hlen; try discriminate.
  - intros j. reflexivity.
  - simpl in Hlen. injection Hlen as Hlen. specialize (IH ys Hlen).
    cbn [compareParts].
    destruct (x >? y) eqn:Hgt.
    + exists 0%nat. repeat split; [lia | simpl; lia | simpl; now rewrite Hgt].
    + destruct (x <? y) eqn:Hlt.
      * exists 0%nat. repeat split; [lia | simpl; lia | simpl; now rewrite Hgt].
      * assert (x = y) by lia. subst y.
        destruct (compareParts xs ys) as [decided|].
        -- destruct IH as (i & Hbefore & Hat & Hdec).
           exists (S i). repeat split; [|exact Hat|exact Hdec].
           intros [|j] Hj; [reflexivity | apply Hbefore; lia].
        -- intros [|j]; [reflexivity | apply IH].
Qed.

Lemma isVersionSufficient_spec (installed required : string) :
  (exists i, (forall j, (j < i)%nat -> segment installed j = segment required j)
             /\ segment installed i <> segment required i
             /\ isVersionSufficient installed required
                = (segment installed i >? segment required i))
  \/ ((forall j, segment installed j = segment required j)
      /\ isVersionSufficient installed required = tieBreak installed required).
Proof.
  unfold isVersionSufficient, segment, tieBreak.
  set (a := parts installed). set (b := parts required).
  set (m := Nat.max (length a) (length b)).
  pose proof (compareParts_spec (padTo m a) (padTo m b)) as Hspec.
  rewrite !length_padTo in Hspec by lia. specialize (Hspec eq_refl).
  destruct (compareParts (padTo m a) (padTo m b)) as [decided|].
  - left. destruct Hspec as (i & Hbefore & Hat & Hdec).
    exists i. rewrite !nth_padTo in Hat, Hdec. repeat split; [|exact Hat|exact Hdec].
    intros j Hj. specialize (Hbefore j Hj). now rewrite !nth_padTo in Hbefore.
  - right. split.
    + intros j. specialize (Hspec j). now rewrite !nth_padTo in Hspec.
    + destruct (Js.includes installed "-"), (Js.includes required "-"); reflexivity.
Qed.

(** Two pairs of versions with the same zero-extended segments and the
    same pre-release outcome are judged alike, however many segments
    each string spells out. *)
Lemma isVersionSufficient_by_segments (installed required installed' required' : string) :
  (forall j, segment installed j = segment installed' j) ->
  (forall j, segment required j = segment required' j) ->
  tieBreak installed required = tieBreak installed' required' ->
  isVersionSufficient installed required = isVersionSufficient installed' required'.
Proof.
  intros Hi Hr Ht.
  destruct (isVersionSufficient_spec installed required)
    as [(i & Hbefore & Hat & ->)|[Hall ->]];
    destruct (isVersionSufficient_spec installed' required')
      as [(i' & Hbefore' & Hat' & ->)|[Hall' ->]].
  - destruct (Nat.lt_trichotomy i i') as [Hlt|[->|Hgt]].
    + exfalso. apply Hat. rewrite Hi, Hr. now apply Hbefore'.
    + now rewrite Hi, Hr.
    + exfalso. apply Hat'. rewrite <- Hi, <- Hr. now apply Hbefore.
  - exfalso. apply Hat. rewrite Hi, Hr. apply Hall'.
  - exfalso. apply Hat'. rewrite <- Hi, <- Hr. apply Hall.
  - exact Ht.
Qed.

(** C3. The six examples hold, and for every pair of version strings
    the result is that of comparing the two segment sequences extended
    with zeros without end: the first index at which they differ decides
    (sufficient when the installed segment is the larger), and when
    they differ nowhere the pre-release rule decides.  The number of
    segments of either string plays no other part. *)
Theorem isVersionSufficient_zero_padded :
  isVersionSufficient "1.2.3" "1.2.3" = true
  /\ isVersionSufficient "2.0.0" "1.9.9" = true
  /\ isVersionSufficient "1.0.0" "1.0.0-alpha" = true
  /\ isVersionSufficient "1.2" "1.2.0" = true
  /\ isVersionSufficient "1.2.2" "1.2.3" = false
  /\ isVersionSufficient "1.0.0-alpha" "1.0.0" = false
  /\ forall installed required : string,
       (exists i, (forall j, (j < i)%nat -> segment installed j = segment required j)
                  /\ segment installed i <> segment required i
                  /\ isVersionSufficient installed required
                     = (segment installed i >? segment required i))
       \/ ((forall j, segment installed j = segment required j)
           /\ isVersionSufficient installed required = tieBreak installed required).
Proof.
  repeat (split; [vm_compute; reflexivity|]).
  apply isVersionSufficient_spec.
Qed.

(** [includes] with a one-character pattern finds every occurrence. *)
Lemma includes_occurrence (before after : string) (c : ascii) :
  Js.includes (before +:+ String c after) (String c "") = true.
Proof.
  induction before as [|x before IH].
  - simpl. destruct (ascii_dec c c) as [_|N]; [|congruence].
    now destruct after.
  - cbn [String.append Js.includes]. rewrite IH. apply orb_true_r.
Qed.



End VersionFacts.

(* ===================================================================== *)
(** * Reasoning about runs                                                *)
(* ===================================================================== *)

Section Runs.
Import Eff.
Context {W Ev : Type} {traced : Traced W Ev}.

Lemma spec_weaken {A} (m : M W A) (P Q : outcome A -> list Ev -> Prop) :
  spec m P -> (forall r new, P r new -> Q r new) -> spec m Q.
Proof.
  intros Hm HPQ w r w' E. destruct (Hm w r w' E) as (Hd & new & Ht & HP).
  split; [exact Hd|]. exists new. auto.
Qed.

Lemma spec_ret {A} (a : A) (Q : outcome A -> list Ev -> Prop) :
  Q (Returned a) [] -> spec (mret a) Q.
Proof.
  intros HQ w r w' E. injection E as <- <-. split; [apply keeps_refl|]. now exists [].
Qed.

Lemma spec_throw {A} (e : thrown) (Q : outcome A -> list Ev -> Prop) :
  Q (Threw e) [] -> spec (throw e) Q.
Proof.
  intros HQ w r w' E. injection E as <- <-. split; [apply keeps_refl|]. now exists [].
Qed.

Lemma spec_get (Q : outcome W -> list Ev -> Prop) :
  (forall a, Q (Returned a) []) -> spec get Q.
Proof.
  intros HQ w r w' E. injection E as <- <-. split; [apply keeps_refl|]. now exists [].
Qed.

Lemma spec_bind {A B} (m : M W A) (k : A -> M W B)
    (P : outcome A -> list Ev -> Prop) (Q : outcome B -> list Ev -> Prop) :
  spec m P ->
  (forall a n1, P (Returned a) n1 -> spec (k a) (fun r n2 => Q r (n2 ++ n1))) ->
  (forall e n1, P (Threw e) n1 -> Q (Threw e) n1) ->
  spec (m ≫= k) Q.
Proof.
  intros Hm Hk He w r w' E.
  unfold mbind, eff_bind, bind in E.
  destruct (m w) as [[a|e] w1] eqn:E1.
  - destruct (Hm _ _ _ E1) as (Hd1 & n1 & Ht1 & HP).
    destruct (Hk a n1 HP _ _ _ E) as (Hd2 & n2 & Ht2 & HQ).
    split; [exact (keeps_trans _ _ _ Hd1 Hd2)|]. exists (n2 ++ n1).
    split; [|exact HQ]. rewrite Ht2, Ht1. apply List.app_assoc.
  - injection E as <- <-.
    destruct (Hm _ _ _ E1) as (Hd1 & n1 & Ht1 & HP).
    split; [exact Hd1|]. exists n1. auto.
Qed.

Lemma spec_tryCatch {A} (body : M W A) (handler : thrown -> M W A)
    (P Q : outcome A -> list Ev -> Prop) :
  spec body P ->
  (forall a n1, P (Returned a) n1 -> Q (Returned a) n1) ->
  (forall e n1, P (Threw e) n1 -> spec (handler e) (fun r n2 => Q r (n2 ++ n1))) ->
  spec (tryCatch body handler) Q.
Proof.
  intros Hb Hr Hh w r w' E.
  unfold tryCatch in E.
  destruct (body w) as [[a|e] w1] eqn:E1.
  - injection E as <- <-.
    destruct (Hb _ _ _ E1) as (Hd1 & n1 & Ht1 & HP).
    split; [exact Hd1|]. exists n1. auto.
  - destruct (Hb _ _ _ E1) as (Hd1 & n1 & Ht1 & HP).
    destruct (Hh e n1 HP _ _ _ E) as (Hd2 & n2 & Ht2 & HQ).
    split; [exact (keeps_trans _ _ _ Hd1 Hd2)|]. exists (n2 ++ n1).
    split; [|exact HQ]. rewrite Ht2, Ht1. apply List.app_assoc.
Qed.

Lemma free_app (bad : Ev -> bool) (n1 n2 : list Ev) :
  existsb bad n1 = false -> existsb bad n2 = false -> existsb bad (n2 ++ n1) = false.
Proof. intros H1 H2. now rewrite existsb_app, H1, H2. Qed.

Lemma free_ret (bad : Ev -> bool) {A} (a : A) : spec (mret a) (free bad).
Proof. now apply spec_ret. Qed.

Lemma free_throw (bad : Ev -> bool) {A} (e : thrown) : spec (@throw W A e) (free bad).
Proof. now apply spec_throw. Qed.

Lemma free_get (bad : Ev -> bool) : spec get (free bad).
Proof. now apply spec_get. Qed.

Lemma free_bind (bad : Ev -> bool) {A B} (m : M W A) (k : A -> M W B) :
  spec m (free bad) -> (forall a, spec (k a) (free bad)) -> spec (m ≫= k) (free bad).
Proof.
  intros Hm Hk. eapply spec_bind; [exact Hm| |].
  - intros a n1 H1. eapply spec_weaken; [apply Hk|].
    intros r n2 H2. now apply free_app.
  - intros e n1 H1. exact H1.
Qed.

Lemma free_tryCatch (bad : Ev -> bool) {A} (body : M W A) (handler : thrown -> M W A) :
  spec body (free bad) -> (forall e, spec (handler e) (free bad)) ->
  spec (tryCatch body handler) (free bad).
Proof.
  intros Hb Hh. eapply spec_tryCatch; [exact Hb| |].
  - intros a n1 H1. exact H1.
  - intros e n1 H1. eapply spec_weaken; [apply Hh|].
    intros r n2 H2. now apply free_app.
Qed.

(** Fewer bad events are easier to avoid. *)
Lemma free_fewer (bad bad' : Ev -> bool) {A} (m : M W A) :
  (forall e, bad' e = true -> bad e = true) -> spec m (free bad) -> spec m (free bad').
Proof.
  intros Hsub Hm. eapply spec_weaken; [exact Hm|].
  intros r new H. unfold free in *.
  destruct (existsb bad' new) eqn:E; [|reflexivity].
  apply existsb_exists in E as (e & Hin & He).
  assert (existsb bad new = true) by (apply existsb_exists; exists e; auto).
  congruence.
Qed.

End Runs.

(* ===================================================================== *)
(** * Properties: provisioning                                            *)
(* ===================================================================== *)

Section InstallerFacts.
Import Eff McpInstaller.
Context {host : Host}.

Local Abbreviation M := (Eff.M World).

Lemma installer_run {A} (m : M A) (Q : outcome A -> list Event -> Prop)
    (w : World) (r : outcome A) (w' : World) :
  spec m Q -> m w = (r, w') ->
  mcpJson w' = mcpJson w /\ exists new, trace w' = new ++ trace w /\ Q r new.
Proof. intros Hm E. exact (Hm w r w' E). Qed.

Lemma installer_emit (e : Event) (Q : outcome unit -> list Event -> Prop) :
  Q (Returned tt) [e] -> spec (emit e) Q.
Proof.
  intros HQ w r w' E. injection E as <- <-. split; [reflexivity|]. now exists [e].
Qed.

Lemma installer_ask {A} (oracle : list Event -> A) (Q : outcome A -> list Event -> Prop) :
  (forall a, Q (Returned a) []) -> spec (ask oracle) Q.
Proof.
  intros HQ w r w' E. injection E as <- <-. split; [reflexivity|]. now exists [].
Qed.

Lemma quiet_app (n1 n2 : list Event) : quiet n1 -> quiet n2 -> quiet (n2 ++ n1).
Proof.
  unfold quiet, declined, mutated, wrote. intros (D1 & M1 & W1) (D2 & M2 & W2).
  rewrite !existsb_app, D1, D2, M1, M2, W1, W2. auto.
Qed.

Lemma calm_ret {A} (a : A) : spec (mret a) calm.
Proof. apply spec_ret. repeat split. Qed.

Lemma calm_throw {A} (e : thrown) : spec (@throw World A e) calm.
Proof. apply spec_throw. repeat split. Qed.

Lemma calm_ask {A} (oracle : list Event -> A) : spec (ask oracle) calm.
Proof. apply installer_ask. repeat split. Qed.

Lemma calm_get : spec get calm.
Proof. apply spec_get. repeat split. Qed.

Lemma calm_emit (e : Event) :
  isDecline e || isMutation e || isDiskCall e = false -> spec (emit e) calm.
Proof.
  intros H. apply installer_emit. unfold calm, quiet, declined, mutated, wrote. simpl.
  destruct (isDecline e), (isMutation e), (isDiskCall e); try discriminate. auto.
Qed.

Lemma calm_bind {A B} (m : M A) (k : A -> M B) :
  spec m calm -> (forall a, spec (k a) calm) -> spec (m ≫= k) calm.
Proof.
  intros Hm Hk. eapply spec_bind; [exact Hm| |].
  - intros a n1 H1. eapply spec_weaken; [apply Hk|].
    intros r n2 H2. now apply quiet_app.
  - intros e n1 H1. exact H1.
Qed.

Lemma calm_tryCatch {A} (body : M A) (handler : thrown -> M A) :
  spec body calm -> (forall e, spec (handler e) calm) -> spec (tryCatch body handler) calm.
Proof.
  intros Hb Hh. eapply spec_tryCatch; [exact Hb| |].
  - intros a n1 H1. exact H1.
  - intros e n1 H1. eapply spec_weaken; [apply Hh|].
    intros r n2 H2. now apply quiet_app.
Qed.

(** Runs a calm computation apart by its syntax. *)
Ltac calm_steps :=
  repeat first
    [ apply calm_ret
    | apply calm_throw
    | apply calm_ask
    | apply calm_get
    | apply calm_emit; reflexivity
    | apply calm_bind; [|intros ?]
    | apply calm_tryCatch; [|intros ?]
    | progress cbv zeta
    | match goal with
      | |- spec (match ?x with _ => _ end) _ => destruct x
      end ].

Lemma calm_appendLine (line : string) : spec (appendLine line) calm.
Proof. unfold appendLine. calm_steps. Qed.

Lemma calm_executeDotnetCommand (args : list string) :
  spec (executeDotnetCommand args) calm.
Proof. unfold executeDotnetCommand, appendLine. calm_steps. Qed.

Lemma calm_getNuGetPackageVersion (packageName : string) :
  spec (getNuGetPackageVersion packageName) calm.
Proof.
  unfold getNuGetPackageVersion.
  apply calm_bind; [apply calm_appendLine|intros _].
  apply calm_bind; [apply calm_executeDotnetCommand|intros result].
  apply calm_bind; [apply calm_appendLine|intros _].
  cbv zeta.
  destruct (Js.split _ _) as [|l0 [|l1 [|l2 ls]]];
    try (apply calm_bind; [apply calm_appendLine|intros _; apply calm_ret]).
  destruct (Js.splitWs _) as [|p0 [|p1 ps]];
    apply calm_bind; try apply calm_appendLine; intros _; apply calm_ret.
Qed.

Lemma calm_installNuGetGlobalTool (server : McpServerConfig.t) :
  spec (installNuGetGlobalTool server) calm.
Proof.
  unfold installNuGetGlobalTool.
  destruct (negb _); [apply calm_throw|]. cbv zeta.
  apply calm_bind; [apply calm_emit; reflexivity|intros _].
  apply calm_bind; [apply calm_emit; reflexivity|intros _].
  apply calm_bind.
  { destruct (truthy (McpServerConfig.nugetFeed server)); [|apply calm_ret].
    apply calm_bind; [apply calm_appendLine|intros _; apply calm_ret]. }
  intros installArgs.
  apply calm_bind; [apply calm_emit; reflexivity|intros _].
  apply calm_bind; [apply calm_executeDotnetCommand|intros result].
  destruct (negb _); [apply calm_throw|apply calm_appendLine].
Qed.

Lemma calm_readMcpConfig : spec readMcpConfig calm.
Proof.
  unfold readMcpConfig.
  apply calm_tryCatch.
  - apply calm_bind; [apply calm_ask|intros fault].
    apply calm_bind; [apply calm_emit; reflexivity|intros _].
    destruct fault; [apply calm_throw|].
    apply calm_bind; [apply calm_get|intros w].
    destruct (mcpJson w); [|apply calm_throw].
    destruct (jsonParse _); [apply calm_throw|apply calm_ret].
  - intros error. destruct error as [n m|code m|]; try apply calm_throw.
    destruct (String.eqb code "FileNotFound"); [apply calm_ret|apply calm_throw].
Qed.

Lemma spec_after_calm {A B} (m : M A) (k : A -> M B)
    (Q : outcome B -> list Event -> Prop) :
  stable Q -> spec m calm -> (forall a, spec (k a) Q) -> spec (m ≫= k) Q.
Proof.
  intros [Hold Hthrow] Hm Hk. eapply spec_bind; [exact Hm| |].
  - intros a n1 H1. eapply spec_weaken; [apply Hk|].
    intros r n2 H2. now apply Hold.
  - intros e n1 H1. now apply Hthrow.
Qed.

Lemma stable_stepPost (server : McpServerConfig.t) : stable (stepPost server).
Proof.
  split.
  - intros r n2 n1 [W2 H2] (D1 & M1 & W1). split.
    { unfold wrote in *. now rewrite existsb_app, W2, W1. }
    destruct r as [[result c]|e].
    + destruct (cancelled result).
      * destruct H2 as (Hmod & older & -> & Hq). split; [exact Hmod|].
        exists (older ++ n1). split; [reflexivity|].
        apply quiet_app; [now repeat split | exact Hq].
      * destruct H2 as [D2 M2]. unfold declined, mutated in *.
        rewrite !existsb_app, D2, D1, M1, <- M2. split; [reflexivity | apply orb_false_r].
    + unfold declined in *. now rewrite existsb_app, H2, D1.
  - intros e n1 (D1 & M1 & W1). now split.
Qed.

Lemma addServerToConfig_spec (config : McpConfiguration.t) (server : McpServerConfig.t) :
  spec (addServerToConfig config server)
       (fun r new => wrote new = false /\ declined new = false
                     /\ mutated new = match r with Returned _ => true | Threw _ => false end).
Proof.
  unfold addServerToConfig. cbv zeta.
  destruct (McpConfiguration.servers config) as [servers|].
  - intros w r w' E. injection E as <- <-. split; [reflexivity|].
    eexists [_; _]. split; [reflexivity|]. repeat split.
  - apply spec_throw. repeat split.
Qed.

Lemma confirmed_then (server : McpServerConfig.t) {A} (k : M A)
    (Q : outcome A -> list Event -> Prop) (answer : bool) :
  spec k (fun r n2 => Q r (n2 ++ [ShowConfirmation server answer])) ->
  spec (emit (ShowConfirmation server answer);; k) Q.
Proof.
  intros Hk.
  eapply spec_bind
    with (P := fun r n => r = Returned tt /\ n = [ShowConfirmation server answer]).
  - apply installer_emit. now split.
  - intros _ n1 [_ ->]. exact Hk.
  - intros e n1 [Hr _]. discriminate Hr.
Qed.

Lemma installServerConfig_spec (server : McpServerConfig.t) (config : McpConfiguration.t) :
  spec (installServerConfig server config) (stepPost server).
Proof.
  unfold installServerConfig.
  destruct (McpConfiguration.servers config) as [servers|];
    [|apply spec_throw; now split].
  destruct (inServers _ _ _).
  - apply spec_after_calm; [apply stable_stepPost | apply calm_appendLine |].
    intros _. apply spec_ret. now repeat split.
  - apply spec_after_calm; [apply stable_stepPost | apply calm_ask |].
    intros [|]; apply confirmed_then; cbn [negb].
    + eapply spec_bind; [apply addServerToConfig_spec| |].
      * intros config' n1 (W & D & Mu). apply spec_ret. cbn [app].
        unfold stepPost, wrote, declined, mutated in *. simpl.
        rewrite !existsb_app, W, D, Mu. now repeat split.
      * intros e n1 (W & D & Mu).
        unfold stepPost, wrote, declined in *.
        rewrite !existsb_app, W, D. now split.
    + apply spec_ret. split; [reflexivity|]. simpl.
      split; [reflexivity|]. exists []. now repeat split.
Qed.

Lemma installNuGetForServer_spec (server : McpServerConfig.t) (config : McpConfiguration.t) :
  spec (installNuGetForServer server config) (stepPost server).
Proof.
  unfold installNuGetForServer.
  destruct (negb _); [apply spec_throw; now split|]. cbv zeta.
  apply spec_after_calm; [apply stable_stepPost | apply calm_appendLine | intros _].
  apply spec_after_calm; [apply stable_stepPost | | intros sufficient].
  { destruct (truthy (McpServerConfig.version server)); [|apply calm_ret].
    apply calm_bind; [apply calm_getNuGetPackageVersion | intros installedVersion].
    destruct (_ && _).
    - apply calm_bind; [apply calm_appendLine | intros _; apply calm_ret].
    - apply calm_bind; [|intros _; apply calm_ret].
      destruct (truthy installedVersion); [apply calm_appendLine | apply calm_ret]. }
  destruct sufficient; [apply spec_ret; now repeat split|].
  apply spec_after_calm; [apply stable_stepPost | apply calm_ask |].
  intros [|]; apply confirmed_then; cbn [negb].
  - assert (Hframe : forall r n2, stepPost server r n2 ->
                       stepPost server r (n2 ++ [ShowConfirmation server true])).
    { intros r n2 H. apply stable_stepPost; [exact H | now repeat split]. }
    eapply spec_weaken; [|exact Hframe].
    apply spec_after_calm;
      [apply stable_stepPost | apply calm_installNuGetGlobalTool | intros _].
    apply spec_after_calm; [apply stable_stepPost | apply calm_appendLine | intros _].
    eapply spec_bind; [apply addServerToConfig_spec| |].
    + intros config' n1 (W & D & Mu). apply spec_ret. cbn [app].
      unfold stepPost. simpl. now repeat split.
    + intros e n1 (W & D & Mu). now split.
  - apply spec_ret. split; [reflexivity|]. simpl.
    split; [reflexivity|]. exists []. now repeat split.
Qed.

Lemma installOne_spec (server : McpServerConfig.t) (config : McpConfiguration.t)
    (needs : bool) :
  spec (installOne server config needs)
       (fun r new =>
          turnPost needs r new
          /\ forall b, r = Returned (inl b) ->
               exists older,
                 new = AppendLine (cancelLine server) :: ShowConfirmation server false :: older).
Proof.
  unfold installOne.
  eapply spec_tryCatch
    with (P := fun r new =>
            turnPost needs r new
            /\ forall b, r = Returned (inl b) ->
                 exists older,
                   new = AppendLine (cancelLine server)
                         :: ShowConfirmation server false :: older).
  - eapply spec_bind with (P := stepPost server).
    + destruct (truthy _);
        [apply installNuGetForServer_spec | apply installServerConfig_spec].
    + intros [result config'] n1 [W H]. destruct (cancelled result).
      * destruct H as (_ & older & -> & Hq).
        intros w r w' E. injection E as <- <-. split; [reflexivity|].
        eexists [_]. split; [reflexivity|]. cbn [app]. split.
        -- split; [exact W|]. split; [reflexivity|].
           exists server, older. split; [reflexivity | apply Hq].
        -- intros _ _. now exists older.
      * destruct H as [D Mu]. apply spec_ret. cbn [app]. split.
        -- split; [exact W|]. split; [exact D|].
           rewrite Mu. now destruct (configModified result), needs.
        -- intros b Hb. discriminate Hb.
    + intros e n1 [W D]. split; [now split|]. intros b Hb. discriminate Hb.
  - intros a n1 H. exact H.
  - intros e n1 [[W D] _]. cbv zeta.
    eapply spec_bind with (P := calm); [apply calm_appendLine| |].
    + intros _ n2 (D2 & M2 & W2). apply spec_throw. cbn [app]. split.
      * unfold turnPost, wrote, declined in *. rewrite !existsb_app, W, W2, D, D2. now split.
      * intros b Hb. discriminate Hb.
    + intros e' n2 (D2 & M2 & W2). split.
      * unfold turnPost, wrote, declined in *. rewrite !existsb_app, W, W2, D, D2. now split.
      * intros b Hb. discriminate Hb.
Qed.

Lemma installLoop_spec (servers : list McpServerConfig.t) :
  forall (config : McpConfiguration.t) (needs : bool),
    spec (installLoop servers config needs) (turnPost needs).
Proof.
  induction servers as [|server rest IH]; intros config needs; cbn [installLoop].
  - apply spec_ret. repeat split. now destruct needs.
  - eapply spec_bind; [apply installOne_spec| |].
    + intros [b|[config' needs']] n1 [[W H] _].
      * apply spec_ret. cbn [app]. now split.
      * destruct H as [D ->].
        eapply spec_weaken; [apply IH|].
        intros r n2 [W2 H2]. split.
        { unfold wrote in *. now rewrite existsb_app, W2, W. }
        destruct r as [[b|[config'' needs'']]|e].
        -- destruct H2 as (-> & s & older & -> & Hd). split; [reflexivity|].
           exists s, (older ++ n1). split; [reflexivity|].
           unfold declined in *. now rewrite existsb_app, Hd, D.
        -- destruct H2 as [D2 ->]. unfold declined, mutated in *.
           rewrite !existsb_app, D2, D. split; [reflexivity|].
           now destruct needs, (existsb isMutation n1), (existsb isMutation n2).
        -- unfold declined in *. now rewrite existsb_app, H2, D.
    + intros e n1 [[W D] _]. now split.
Qed.

(** When the loop ends in a cancellation, it ended at one descriptor
    [s] with the declined confirmation of [s], and what follows [s] in
    the list was not looked at: any other tail gives the same run. *)
Lemma installLoop_cut (servers : list McpServerConfig.t) :
  forall (config : McpConfiguration.t) (needs : bool) (w w' : World) (b : bool),
    installLoop servers config needs w = (Returned (inl b), w') ->
    exists pre s post,
      servers = pre ++ s :: post
      /\ (exists older,
            trace w' = AppendLine (cancelLine s) :: ShowConfirmation s false :: older)
      /\ forall post',
           installLoop (pre ++ s :: post') config needs w = (Returned (inl b), w').
Proof.
  induction servers as [|server rest IH]; intros config needs w w' b H;
    cbn [installLoop] in H; [discriminate H|].
  unfold mbind, eff_bind, bind in H.
  destruct (installOne server config needs w) as [[[b0|[config1 needs1]]|e] w1] eqn:E1.
  - injection H as <- <-. exists [], server, rest. split; [reflexivity|]. split.
    + destruct (installer_run _ _ _ _ _ (installOne_spec _ _ _) E1) as (_ & new & Ht & _ & Hshape).
      destruct (Hshape b0 eq_refl) as [older ->].
      exists (older ++ trace w). exact Ht.
    + intros post'. cbn [app installLoop]. unfold mbind, eff_bind, bind.
      now rewrite E1.
  - destruct (IH _ _ _ _ _ H) as (pre & s & post & -> & Hshape & Hcut).
    exists (server :: pre), s, post. split; [reflexivity|]. split; [exact Hshape|].
    intros post'. cbn [app installLoop]. unfold mbind, eff_bind, bind.
    rewrite E1. apply Hcut.
  - discriminate H.
Qed.

Lemma not_declined (new : list Event) (s : McpServerConfig.t) :
  declined new = false -> ~ In (ShowConfirmation s false) new.
Proof.
  intros Hd Hin. unfold declined in Hd.
  assert (existsb isDecline new = true) as Hex
    by (apply existsb_exists; now exists (ShowConfirmation s false)).
  congruence.
Qed.

(** The runs of [writeMcpConfig]: it returns after creating the
    directory and writing the text of the configuration, in that
    order; when it throws, the file is as before. *)
Lemma writeMcpConfig_run (config : McpConfiguration.t) (w : World)
    (r : outcome unit) (w' : World) :
  writeMcpConfig config w = (r, w') ->
  match r with
  | Returned _ =>
      trace w' = WriteFile (jsonStringify config) :: CreateDirectory :: trace w
      /\ mcpJson w' = Some (jsonStringify config)
  | Threw _ =>
      mcpJson w' = mcpJson w
      /\ exists new, trace w' = new ++ trace w
                     /\ declined new = false /\ mutated new = false
  end.
Proof.
  unfold writeMcpConfig, mbind, eff_bind, bind, ask, emit, modify, throw. cbn.
  destruct (fsFault (trace w) FsCreateDirectory) as [e|].
  - intros H. injection H as <- <-. split; [reflexivity|].
    now exists [CreateDirectory].
  - simpl. destruct (fsFault (CreateDirectory :: trace w) FsWrite) as [e|].
    + intros H. injection H as <- <-. split; [reflexivity|].
      now exists [WriteFile (jsonStringify config); CreateDirectory].
    + intros H. injection H as <- <-. now split.
Qed.

(** The three stages of [installServers], run apart. *)
Lemma installServers_run (servers : list McpServerConfig.t) (w : World) :
  installServers servers w
  = let w0 := mkWorld (mcpJson w)
                (AppendLine ("promptu: Installing " +:+ pretty (length servers)
                             +:+ " MCP server(s)...") :: trace w) in
    match readMcpConfig w0 with
    | (Threw e, w1) => (Threw e, w1)
    | (Returned read, w1) =>
        match installLoop servers
                (match read with Some c => c | None => emptyConfig end) false w1 with
        | (Threw e, w2) => (Threw e, w2)
        | (Returned (inl b), w2) => (Returned b, w2)
        | (Returned (inr (config, needsConfigWrite)), w2) =>
            if needsConfigWrite
            then match writeMcpConfig config w2 with
                 | (Returned _, w3) => (Returned true, w3)
                 | (Threw e, w3) => (Threw e, w3)
                 end
            else (Returned true, w2)
        end
    end.
Proof.
  unfold installServers, mbind, eff_bind, bind, appendLine, emit. cbn.
  destruct (readMcpConfig _) as [[read|e] w1]; [|reflexivity].
  destruct (installLoop _ _ _ _) as [[[b|[config needs]]|e] w2]; try reflexivity.
  destruct needs; [|reflexivity].
  now destruct (writeMcpConfig config w2) as [[[]|e] w3].
Qed.

Lemma new_events (base new newer : list Event) (first : Event) (t : list Event) :
  t = new ++ base -> t = newer ++ first :: base -> new = newer ++ [first].
Proof.
  intros -> H. apply (List.app_inv_tail base).
  rewrite H, <- List.app_assoc. reflexivity.
Qed.

(** C2. When, in a run of [installServers], the user declines the
    confirmation asked for a descriptor [s], the function returns
    [false], the file is what it was before and no disk call was made,
    the declined confirmation is the last thing that happened but for
    the line logged about it, and the descriptors that follow [s] in
    the batch were not processed: replacing them by any others, as
    many, gives the same run. *)
Theorem installServers_declined (servers : list McpServerConfig.t) (w w' : World)
    (r : outcome bool) (new : list Event) (s : McpServerConfig.t) :
  installServers servers w = (r, w') ->
  trace w' = new ++ trace w ->
  In (ShowConfirmation s false) new ->
  r = Returned false
  /\ mcpJson w' = mcpJson w
  /\ wrote new = false
  /\ (exists older, new = AppendLine (cancelLine s) :: ShowConfirmation s false :: older)
  /\ exists pre post,
       servers = pre ++ s :: post
       /\ forall post', length post' = length post ->
            installServers (pre ++ s :: post') w = (r, w').
Proof.
  rewrite installServers_run. cbv zeta.
  set (line := AppendLine _). set (w0 := mkWorld _ _).
  intros H Ht Hin.
  destruct (readMcpConfig w0) as [[read|e] w1] eqn:E1;
    destruct (installer_run _ _ _ _ _ calm_readMcpConfig E1) as (Hd1 & n1 & Ht1 & D1 & M1 & W1);
    change (trace w0) with (line :: trace w) in Ht1.
  2: { injection H as <- <-.
       pose proof (new_events _ _ _ _ _ Ht Ht1) as ->.
       exfalso. apply (not_declined _ s) in Hin; [exact Hin|].
       unfold declined in *. now rewrite existsb_app, D1. }
  set (config0 := match read with Some c => c | None => emptyConfig end) in *.
  destruct (installLoop servers config0 false w1)
    as [[[b|[config needs]]|e] w2] eqn:E2;
    destruct (installer_run _ _ _ _ _ (installLoop_spec _ _ _) E2) as (Hd2 & n2 & Ht2 & W2 & H2).
  - (* the loop ended in a cancellation *)
    injection H as <- <-.
    destruct H2 as (-> & s' & older & -> & Dold).
    assert (Hnew : new = AppendLine (cancelLine s') :: ShowConfirmation s' false
                         :: older ++ n1 ++ [line]).
    { apply (List.app_inv_tail (trace w)). rewrite <- Ht, Ht2, Ht1.
      cbn [app]. now rewrite <- !List.app_assoc. }
    assert (s' = s) as ->.
    { rewrite Hnew in Hin. destruct Hin as [Hin|[Hin|Hin]].
      - discriminate Hin.
      - now injection Hin.
      - exfalso. apply (not_declined _ s) in Hin; [exact Hin|].
        unfold declined in *. now rewrite !existsb_app, Dold, D1. }
    split; [reflexivity|]. split; [now rewrite Hd2, Hd1|]. split.
    { rewrite Hnew. unfold wrote in *. cbn [existsb isDiskCall orb] in *.
      rewrite !existsb_app. cbn [existsb isDiskCall orb app] in *.
      rewrite W1. subst line. cbn [isDiskCall orb]. now rewrite W2. }
    split; [now exists (older ++ n1 ++ [line])|].
    destruct (installLoop_cut _ _ _ _ _ _ E2)
      as (pre & s'' & post & -> & [older' Hshape] & Hcut).
    assert (s'' = s) as ->.
    { rewrite Ht2 in Hshape. cbn [app] in Hshape. now injection Hshape. }
    exists pre, post. split; [reflexivity|].
    intros post' Hlen. rewrite installServers_run. cbv zeta.
    replace (length (pre ++ s :: post')) with (length (pre ++ s :: post))
      by (rewrite !List.length_app; cbn [length]; now rewrite Hlen).
    fold line. fold w0. rewrite E1. fold config0. now rewrite Hcut.
  - (* the loop ran to its end: no confirmation was declined *)
    exfalso. destruct H2 as [D2 _].
    destruct needs.
    + destruct (writeMcpConfig config w2) as [[[]|e] w3] eqn:E3;
        pose proof (writeMcpConfig_run _ _ _ _ E3) as H3; cbn in H3;
        injection H as <- <-.
      * destruct H3 as [Ht3 _].
        assert (new = [WriteFile (jsonStringify config); CreateDirectory]
                      ++ n2 ++ n1 ++ [line]) as ->.
        { apply (List.app_inv_tail (trace w)). rewrite <- Ht, Ht3, Ht2, Ht1.
          cbn [app]. now rewrite <- !List.app_assoc. }
        apply (not_declined _ s) in Hin; [exact Hin|].
        unfold declined in *. rewrite !existsb_app, D2, D1. reflexivity.
      * destruct H3 as (_ & n3 & Ht3 & D3 & _).
        assert (new = n3 ++ n2 ++ n1 ++ [line]) as ->.
        { apply (List.app_inv_tail (trace w)). rewrite <- Ht, Ht3, Ht2, Ht1.
          now rewrite <- !List.app_assoc. }
        apply (not_declined _ s) in Hin; [exact Hin|].
        unfold declined in *. rewrite !existsb_app, D3, D2, D1. reflexivity.
    + injection H as <- <-.
      assert (new = n2 ++ n1 ++ [line]) as ->.
      { apply (List.app_inv_tail (trace w)). rewrite <- Ht, Ht2, Ht1.
        now rewrite <- !List.app_assoc. }
      apply (not_declined _ s) in Hin; [exact Hin|].
      unfold declined in *. rewrite !existsb_app, D2, D1. reflexivity.
  - (* the loop threw *)
    exfalso. injection H as <- <-.
    assert (new = n2 ++ n1 ++ [line]) as ->.
    { apply (List.app_inv_tail (trace w)). rewrite <- Ht, Ht2, Ht1.
      now rewrite <- !List.app_assoc. }
    apply (not_declined _ s) in Hin; [exact Hin|].
    unfold declined in *. rewrite !existsb_app, H2, D1. reflexivity.
Qed.

End InstallerFacts.


(* ===================================================================== *)
(** * Properties: remote prompt session                                   *)
(* ===================================================================== *)

Section ClientFacts.
Import Eff McpClient.
Context {host : Host}.

Local Abbreviation M := (Eff.M World).

Lemma client_run {A} (m : M A) (Q : outcome A -> list Event -> Prop)
    (w : World) (r : outcome A) (w' : World) :
  spec m Q -> m w = (r, w') -> exists new, trace w' = new ++ trace w /\ Q r new.
Proof. intros Hm E. exact (proj2 (Hm w r w' E)). Qed.

Lemma client_emit (e : Event) (Q : outcome unit -> list Event -> Prop) :
  Q (Returned tt) [e] -> spec (emit e) Q.
Proof.
  intros HQ w r w' E. injection E as <- <-. split; [exact I|]. now exists [e].
Qed.

Lemma client_ask {A} (oracle : list Event -> A) (Q : outcome A -> list Event -> Prop) :
  (forall a, Q (Returned a) []) -> spec (ask oracle) Q.
Proof.
  intros HQ w r w' E. injection E as <- <-. split; [exact I|]. now exists [].
Qed.

Lemma idle_ret {A} (a : A) : spec (mret a) idle.
Proof. apply spec_ret. now split. Qed.

Lemma idle_throw {A} (e : thrown) : spec (@throw World A e) idle.
Proof. apply spec_throw. now split. Qed.

Lemma idle_ask {A} (oracle : list Event -> A) : spec (ask oracle) idle.
Proof. apply client_ask. now split. Qed.

Lemma idle_emit (e : Event) : isConnected e || isClose e = false -> spec (emit e) idle.
Proof.
  intros H. apply client_emit. unfold idle, connected, closed. simpl.
  destruct (isConnected e), (isClose e); try discriminate. auto.
Qed.

Lemma idle_appendLine (line : string) : spec (appendLine line) idle.
Proof. apply idle_emit. reflexivity. Qed.

Lemma idle_app (n1 n2 : list Event) :
  connected n1 = false /\ closed n1 = false ->
  connected n2 = false /\ closed n2 = false ->
  connected (n2 ++ n1) = false /\ closed (n2 ++ n1) = false.
Proof.
  unfold connected, closed. intros [C1 X1] [C2 X2].
  now rewrite !existsb_app, C1, C2, X1, X2.
Qed.

Lemma idle_bind {A B} (m : M A) (k : A -> M B) :
  spec m idle -> (forall a, spec (k a) idle) -> spec (m ≫= k) idle.
Proof.
  intros Hm Hk. eapply spec_bind; [exact Hm| |].
  - intros a n1 H1. eapply spec_weaken; [apply Hk|].
    intros r n2 H2. now apply idle_app.
  - intros e n1 H1. exact H1.
Qed.

Lemma idle_tryCatch {A} (body : M A) (handler : thrown -> M A) :
  spec body idle -> (forall e, spec (handler e) idle) -> spec (tryCatch body handler) idle.
Proof.
  intros Hb Hh. eapply spec_tryCatch; [exact Hb| |].
  - intros a n1 H1. exact H1.
  - intros e n1 H1. eapply spec_weaken; [apply Hh|].
    intros r n2 H2. now apply idle_app.
Qed.

Lemma idle_lift {A} (r : thrown + A) : spec (lift r) idle.
Proof. destruct r; [apply idle_throw | apply idle_ret]. Qed.

Lemma idle_httpTransport (serverUrl : string) (authorization : option string) :
  spec (httpTransport serverUrl authorization) idle.
Proof. unfold httpTransport. destruct (validUrl _); [apply idle_ret | apply idle_throw]. Qed.

Lemma idle_createAuthenticatedTransport (serverUrl : string) :
  spec (createAuthenticatedTransport serverUrl) idle.
Proof.
  unfold createAuthenticatedTransport. apply idle_tryCatch.
  - apply idle_bind; [apply idle_appendLine | intros _].
    apply idle_bind; [apply idle_ask | intros found].
    apply idle_bind; [apply idle_emit; reflexivity | intros _].
    apply idle_bind; [apply idle_lift | intros resourceMetadata].
    assert (Hnone : spec (appendLine ("promptu: No authentication required for " +:+ serverUrl);;
                          httpTransport serverUrl None) idle).
    { apply idle_bind; [apply idle_appendLine | intros _; apply idle_httpTransport]. }
    destruct resourceMetadata as [[[[|authServer others]|] scopes]|]; try exact Hnone.
    apply idle_bind; [apply idle_appendLine | intros _].
    destruct (Js.includes authServer _).
    + cbv zeta.
      apply idle_bind; [apply idle_appendLine | intros _].
      apply idle_bind; [apply idle_ask | intros answer].
      apply idle_bind; [apply idle_emit; reflexivity | intros _].
      apply idle_bind; [apply idle_lift | intros session].
      destruct (truthy session); [|apply idle_throw].
      apply idle_bind; [apply idle_appendLine | intros _; apply idle_httpTransport].
    + apply idle_bind; [apply idle_appendLine | intros _; apply idle_throw].
  - intros error. destruct (match error with NotAnError => _ | _ => _ end).
    + apply idle_throw.
    + apply idle_bind; [apply idle_appendLine | intros _; apply idle_httpTransport].
Qed.

Lemma client_ask_then {A B} (oracle : list Event -> A) (k : A -> M B)
    (Q : outcome B -> list Event -> Prop) :
  (forall a, spec (k a) Q) -> spec (ask oracle ≫= k) Q.
Proof. intros Hk w r w' E. exact (Hk (oracle (trace w)) w r w' E). Qed.

Lemma client_emit_then {B} (e : Event) (k : M B) (Q : outcome B -> list Event -> Prop) :
  spec k (fun r n => Q r (n ++ [e])) -> spec (emit e;; k) Q.
Proof.
  intros Hk w r w' E.
  destruct (Hk (mkWorld (e :: trace w)) r w' E) as (_ & n & Ht & HQ).
  split; [exact I|]. exists (n ++ [e]). split; [|exact HQ].
  cbn in Ht |- *. rewrite Ht, <- List.app_assoc. reflexivity.
Qed.

Lemma spec_after_idle {A B} (m : M A) (k : A -> M B) :
  spec m idle -> (forall a, spec (k a) unopened) -> spec (m ≫= k) unopened.
Proof.
  intros Hm Hk. eapply spec_bind; [exact Hm| |].
  - intros a n1 [C1 X1]. eapply spec_weaken; [apply Hk|].
    intros r n2 [X2 H2]. unfold unopened, closed, connected in *.
    rewrite !existsb_app, X2, X1. split; [reflexivity|].
    destruct r; [exact I|]. now rewrite H2, C1.
  - intros e n1 [C1 X1]. now split.
Qed.

(** [createClient] returns only after [connect] accepted the transport,
    and throws only without that; it never closes. *)
Lemma createClient_spec (serverName : string) (serverConfig : McpServerConfig.t) :
  spec (createClient serverName serverConfig) unopened.
Proof.
  unfold createClient.
  apply spec_after_idle.
  { destruct (String.eqb _ "stdio").
    - destruct (negb _); [apply idle_throw | apply idle_ret].
    - destruct (String.eqb _ "http"); [|apply idle_throw].
      destruct (negb _); [apply idle_throw | apply idle_createAuthenticatedTransport]. }
  intros transport.
  apply spec_after_idle; [apply idle_appendLine | intros _].
  eapply spec_tryCatch with (P := unopened).
  - apply client_ask_then. intros refused. apply client_emit_then.
    destruct refused as [e|].
    + apply spec_throw. now split.
    + apply client_emit. now split.
  - intros a n H. exact H.
  - intros e n [X C]. cbv zeta.
    destruct (_ || _); apply spec_throw; cbn [app]; now split.
Qed.

Lemma idle_render (serverName promptName promptArgs : string) :
  spec (render serverName promptName promptArgs) idle.
Proof.
  unfold render, requestPrompt. apply idle_tryCatch.
  - apply idle_bind; [apply idle_ask | intros answer].
    apply idle_bind; [apply idle_emit; reflexivity | intros _].
    apply idle_bind; [apply idle_lift | intros response].
    destruct (messages response) as [[|[[block|]] others]|]; try apply idle_throw.
    destruct (String.eqb _ _); [|apply idle_throw].
    apply idle_bind; [apply idle_appendLine | intros _; apply idle_ret].
  - intros error. cbv zeta.
    apply idle_bind; [apply idle_appendLine | intros _; apply idle_throw].
Qed.

Lemma silent_parseArguments (input : string) :
  spec (parseArguments input) (fun _ new => new = []).
Proof.
  unfold parseArguments. destruct (truthy _); [|now apply spec_ret].
  eapply spec_tryCatch with (P := fun _ new => new = []).
  - destruct (jsonParse input) as [e|[text|]]; cbn.
    + now apply spec_throw.
    + apply (spec_ret text). reflexivity.
    + now apply spec_throw.
  - intros a n H. exact H.
  - intros e n ->. now apply spec_throw.
Qed.

Lemma appendLine_run (line : string) (w : World) :
  appendLine line w = (Returned tt, mkWorld (AppendLine line :: trace w)).
Proof. reflexivity. Qed.

Lemma appendLine_bind {A} (line : string) (k : M A) (w : World) :
  (appendLine line;; k) w = k (mkWorld (AppendLine line :: trace w)).
Proof. reflexivity. Qed.

(** [closeClient] never throws: it calls [close] and logs what came of it. *)
Lemma closeClient_run (serverName : string) (w : World) :
  closeClient serverName w
  = (Returned tt,
     mkWorld (AppendLine (closeLine serverName (close (trace w))) :: CloseClient :: trace w)).
Proof.
  unfold closeClient, closeLine.
  cbv [tryCatch mbind eff_bind bind ask get emit modify appendLine mret eff_ret ret throw].
  cbn [trace].
  destruct (close (trace w)); reflexivity.
Qed.

(** The [try] and [catch] end with the text of the first message, or
    with the error of the request wrapped in the message of [getPrompt]. *)
Lemma render_outcome (serverName promptName promptArgs : string) (w : World)
    (r : outcome string) (w' : World) :
  render serverName promptName promptArgs w = (r, w') ->
  (exists text, r = Returned text)
  \/ exists message,
       r = Threw (newError ("Failed to fetch prompt '" +:+ promptName +:+
                            "' from MCP server '" +:+ serverName +:+ "': " +:+ message)).
Proof.
  unfold render, tryCatch.
  destruct (requestPrompt promptName promptArgs w) as [[text|e] w1].
  - intros H. injection H as <- <-. left. now exists text.
  - cbv zeta. rewrite (appendLine_bind _ _ w1). intros H. injection H as <- <-.
    right. now exists (messageOf e).
Qed.

(** The [finally] always runs, once, after the [try] and [catch]; its
    own failure goes to the log, and the outcome is the one of the
    [try] and [catch]. *)
Lemma session_run (serverName promptName promptArgs : string) (w : World)
    (r : outcome string) (w' : World) :
  session serverName promptName promptArgs w = (r, w') ->
  exists wr,
    render serverName promptName promptArgs w = (r, wr)
    /\ trace w' = AppendLine (closeLine serverName (close (trace wr)))
                  :: CloseClient :: trace wr.
Proof.
  unfold session, tryFinally.
  destruct (render serverName promptName promptArgs w) as [r0 wr].
  rewrite closeClient_run. intros H. injection H as <- <-.
  exists wr. now split.
Qed.

(** C8. A run of [getPrompt] in which [connect] accepted the transport
    ends with the call of [client.close()] followed by nothing but the
    line logged about it: the line of success, or the line carrying the
    error [close] threw.  Before that there was no call of [close], and
    the outcome of [getPrompt] is the outcome of the request and its
    error handling, whatever [close] did: the text of the prompt, or
    the error of the request under the message of [getPrompt]. *)
Theorem getPrompt_closes_session (mcpPromptName input : string)
    (mcpServers : list McpServerConfig.t) (w w' : World) (r : outcome string)
    (new : list Event) :
  getPrompt mcpPromptName input mcpServers w = (r, w') ->
  trace w' = new ++ trace w ->
  connected new = true ->
  exists serverName promptName promptArgs w0 wr,
    render serverName promptName promptArgs w0 = (r, wr)
    /\ ((exists text, r = Returned text)
        \/ exists message,
             r = Threw (newError ("Failed to fetch prompt '" +:+ promptName +:+
                                  "' from MCP server '" +:+ serverName +:+ "': "
                                  +:+ message)))
    /\ (exists before, trace wr = before ++ trace w /\ closed before = false)
    /\ trace w' = AppendLine (closeLine serverName (close (trace wr)))
                  :: CloseClient :: trace wr.
Proof.
  intros H Ht Hc.
  assert (Hnone : w' = w -> False).
  { intros ->. assert (new = []) as ->; [|discriminate Hc].
    apply (List.app_inv_tail (trace w)). now rewrite <- Ht. }
  unfold getPrompt in H. cbv zeta in H.
  destruct (Js.split mcpPromptName ".") as [|first [|serverName [|promptName [|x l]]]];
    try (cbv [throw] in H; injection H as <- <-; now destruct Hnone).
  destruct (negb _); [cbv [throw] in H; injection H as <- <-; now destruct Hnone|].
  destruct (find _ mcpServers) as [serverConfig|];
    [|cbv [throw] in H; injection H as <- <-; now destruct Hnone].
  unfold mbind, eff_bind, bind in H.
  destruct (parseArguments input w) as [[promptArgs|e] w1] eqn:E1;
    destruct (client_run _ _ _ _ _ (silent_parseArguments input) E1) as (n1 & Ht1 & ->);
    cbn [app] in Ht1.
  2: { injection H as <- <-. exfalso.
       assert (new = []) as ->; [|discriminate Hc].
       apply (List.app_inv_tail (trace w)). now rewrite <- Ht, Ht1. }
  destruct (createClient serverName serverConfig w1) as [[[]|e] w2] eqn:E2;
    destruct (client_run _ _ _ _ _ (createClient_spec _ _) E2) as (n2 & Ht2 & X2 & C2).
  2: { injection H as <- <-. exfalso.
       assert (new = n2) as ->; [|congruence].
       apply (List.app_inv_tail (trace w)). now rewrite <- Ht, Ht2, Ht1. }
  cbv beta iota in H. rewrite appendLine_run in H. cbv beta iota in H.
  destruct (session_run _ _ _ _ _ _ H) as (wr & Er & Hend).
  destruct (client_run _ _ _ _ _ (idle_render _ _ _) Er) as (nr & Htr & _ & Xr).
  eexists serverName, promptName, promptArgs, _, wr.
  split; [exact Er|]. split; [exact (render_outcome _ _ _ _ _ _ Er)|].
  split; [|exact Hend].
  eexists (nr ++ _ :: n2). split.
  - rewrite Htr. cbn [trace]. rewrite Ht2, Ht1, <- List.app_assoc. reflexivity.
  - unfold closed in *. rewrite existsb_app, Xr. cbn. exact X2.
Qed.

End ClientFacts.

(* ===================================================================== *)
(** * Properties: retrieval                                               *)
(* ===================================================================== *)

Section FetcherFacts.
Import Eff PromptFetcher.
Context {host : Host}.

Local Abbreviation M := (Eff.M World).

Lemma fetcher_run {A} (m : M A) (Q : outcome A -> list Event -> Prop)
    (w : World) (r : outcome A) (w' : World) :
  spec m Q -> m w = (r, w') -> exists new, trace w' = new ++ trace w /\ Q r new.
Proof. intros Hm E. exact (proj2 (Hm w r w' E)). Qed.

Lemma fetcher_emit (e : Event) (Q : outcome unit -> list Event -> Prop) :
  Q (Returned tt) [e] -> spec (emit e) Q.
Proof.
  intros HQ w r w' E. injection E as <- <-. split; [exact I|]. now exists [e].
Qed.

Lemma fetcher_ask {A} (oracle : list Event -> A) (Q : outcome A -> list Event -> Prop) :
  (forall a, Q (Returned a) []) -> spec (ask oracle) Q.
Proof.
  intros HQ w r w' E. injection E as <- <-. split; [exact I|]. now exists [].
Qed.

Lemma fetcher_ask_then {A B} (oracle : list Event -> A) (k : A -> M B)
    (Q : outcome B -> list Event -> Prop) :
  (forall a, spec (k a) Q) -> spec (ask oracle ≫= k) Q.
Proof. intros Hk w r w' E. exact (Hk (oracle (trace w)) w r w' E). Qed.

Lemma fetcher_emit_then {B} (e : Event) (k : M B) (Q : outcome B -> list Event -> Prop) :
  spec k (fun r n => Q r (n ++ [e])) -> spec (emit e;; k) Q.
Proof.
  intros Hk w r w' E.
  destruct (Hk (mkWorld (files w) (promptFilesLocations w) (e :: trace w)) r w' E)
    as (_ & n & Ht & HQ).
  split; [exact I|]. exists (n ++ [e]). split; [|exact HQ].
  cbn in Ht |- *. rewrite Ht, <- List.app_assoc. reflexivity.
Qed.

Local Abbreviation plain := (free isFetchOrWrite).

Section Free.
Variable bad : Event -> bool.

Lemma free_ask {A} (oracle : list Event -> A) : spec (ask oracle) (free bad).
Proof. now apply fetcher_ask. Qed.

(** A change of the world that leaves its trace alone. *)
Lemma free_modify (f : World -> World) :
  (forall w, trace (f w) = trace w) -> spec (modify f) (free bad).
Proof.
  intros Hf w r w' E. injection E as <- <-. split; [exact I|].
  exists []. split; [apply Hf | reflexivity].
Qed.

Lemma free_emit (e : Event) : bad e = false -> spec (emit e) (free bad).
Proof. intros H. apply fetcher_emit. unfold free. simpl. now rewrite H. Qed.


Lemma free_fsCall (call : FsCall) (e : Event) (effect : World -> World) :
  bad e = false ->
  (forall w, trace (effect w) = trace w) ->
  spec (fsCall call e effect) (free bad).
Proof.
  intros He Hf. unfold fsCall.
  apply free_bind; [apply free_ask | intros fault].
  apply free_bind; [now apply free_emit | intros _].
  destruct fault; [apply free_throw | now apply free_modify].
Qed.

Lemma free_existsSync (path : string) : spec (existsSync path) (free bad).
Proof.
  unfold existsSync.
  apply free_bind; [apply free_get | intros w]. apply free_ret.
Qed.

End Free.

Lemma plain_appendLine (line : string) : spec (appendLine line) plain.
Proof. apply free_emit. reflexivity. Qed.

Lemma plain_getADOAuthHeaders : spec getADOAuthHeaders plain.
Proof.
  unfold getADOAuthHeaders.
  apply free_bind; [apply free_ask | intros silent].
  apply free_bind; [apply free_emit; reflexivity | intros _].
  apply free_bind.
  { destruct silent; [apply free_throw | | apply free_ret].
    apply free_bind; [apply free_ask | intros created].
    apply free_bind; [apply free_emit; reflexivity | intros _].
    destruct created; [apply free_throw | apply free_ret | apply free_ret]. }
  intros [token|]; [|apply free_throw].
  destruct (truthy _); [|apply free_throw].
  apply free_bind; [apply plain_appendLine | intros _; apply free_ret].
Qed.

Lemma plain_ensurePromptsDirectory : spec ensurePromptsDirectory plain.
Proof.
  unfold ensurePromptsDirectory. cbv zeta. apply free_tryCatch.
  - apply free_bind; [apply free_fsCall; [reflexivity | reflexivity] | intros _].
    apply free_bind; [apply free_get | intros w].
    apply free_bind; [|intros _; apply free_ret].
    destruct (negb _); [|apply free_ret].
    apply free_bind; [apply free_fsCall; [reflexivity | reflexivity] | intros _].
    apply free_emit. reflexivity.
  - intros error. apply free_throw.
Qed.

(** Storing from a file copies it: nothing is written from memory. *)
Lemma plain_storeFile (fsPath promptName : string) :
  spec (storePromptInStorage (FileUri fsPath) promptName) plain.
Proof.
  unfold storePromptInStorage. apply free_tryCatch.
  - apply free_bind; [apply plain_ensurePromptsDirectory | intros promptsDir].
    cbv zeta.
    apply free_bind.
    + apply free_tryCatch.
      * apply free_bind; [apply free_emit; reflexivity | intros _].
        apply free_bind; [apply free_get | intros w].
        destruct (files w !! fsPath); [apply free_ret | apply free_throw].
      * intros _. apply free_throw.
    + intros _. apply free_fsCall; [reflexivity|].
      intros w. now destruct (files w !! fsPath).
  - intros error. apply free_throw.
Qed.

(** Storing text makes no request. *)
Lemma unfetched_storeContent (text promptName : string) :
  spec (storePromptInStorage (Content text) promptName) (free isFetch).
Proof.
  unfold storePromptInStorage. apply free_tryCatch.
  - apply free_bind.
    + apply (free_fewer isFetchOrWrite); [|apply plain_ensurePromptsDirectory].
      intros e He. unfold isFetchOrWrite. now rewrite He.
    + intros promptsDir. cbv zeta. apply free_fsCall; reflexivity.
  - intros error. apply free_throw.
Qed.

Lemma plain_cleanupDirectory (dirPath : string) : spec (cleanupDirectory dirPath) plain.
Proof.
  unfold cleanupDirectory. apply free_tryCatch.
  - apply free_bind; [apply free_existsSync | intros [|]].
    + apply free_fsCall; reflexivity.
    + apply free_ret.
  - intros _. apply free_ret.
Qed.

Lemma spawned_executeGitCommand (args : list string) :
  spec (executeGitCommand args) (spawned args).
Proof.
  unfold executeGitCommand.
  apply fetcher_ask_then. intros ending. apply fetcher_emit_then.
  assert (Hend : forall (r : outcome unit) n, plain r n -> spawned args r (n ++ [SpawnGit args])).
  { intros r n Hn. split.
    - unfold free in *. now rewrite existsb_app, Hn.
    - apply in_or_app. right. now left. }
  eapply spec_weaken; [|exact Hend].
  destruct ending as [code err created|message]; [|apply free_throw].
  apply free_bind; [now apply free_modify | intros _].
  destruct code as [[| |]|]; first [apply free_ret | apply free_throw].
Qed.

Lemma spec_ret_then {A B} (a : A) (k : A -> M B) (Q : outcome B -> list Event -> Prop) :
  spec (k a) Q -> spec (mret a ≫= k) Q.
Proof. intros Hk w r w' E. exact (Hk w r w' E). Qed.

Lemma spawned_then (args : list string) {A B} (m : M A) (k : A -> M B) :
  spec m (spawned args) -> (forall a, spec (k a) plain) -> spec (m ≫= k) (spawned args).
Proof.
  intros Hm Hk. eapply spec_bind; [exact Hm| |].
  - intros a n1 [P1 I1]. eapply spec_weaken; [apply Hk|].
    intros r n2 P2. split; [now apply free_app|].
    apply in_or_app. now right.
  - intros e n1 H1. exact H1.
Qed.

Lemma spawned_tryCatch (args : list string) {A} (body : M A) (handler : thrown -> M A) :
  spec body (spawned args) -> (forall e, spec (handler e) plain) ->
  spec (tryCatch body handler) (spawned args).
Proof.
  intros Hb Hh. eapply spec_tryCatch; [exact Hb| |].
  - intros a n1 H1. exact H1.
  - intros e n1 [P1 I1]. eapply spec_weaken; [apply Hh|].
    intros r n2 P2. split; [now apply free_app|].
    apply in_or_app. now right.
Qed.

Lemma cloned_fetchViaGitToFile (parsedPrompt : ParsedPrompt.t) :
  spec (fetchViaGitToFile parsedPrompt) (cloned parsedPrompt).
Proof.
  unfold fetchViaGitToFile. apply fetcher_ask_then. intros tempDir.
  assert (Hrest : forall sourceDir : string,
            spec (filePath ← match ParsedPrompt.filePath parsedPrompt with
                            | Some f => mret f
                            | None => throw (typeError "The path argument must be of type string")
                            end;
                  let sourceFilePath := pathJoin sourceDir filePath in
                  storePromptInStorage (FileUri sourceFilePath) (ParsedPrompt.name parsedPrompt);;
                  cleanupDirectory sourceDir) plain).
  { intros sourceDir. apply free_bind.
    - destruct (ParsedPrompt.filePath parsedPrompt); [apply free_ret | apply free_throw].
    - intros filePath. cbv zeta.
      apply free_bind; [apply plain_storeFile | intros _; apply plain_cleanupDirectory]. }
  assert (Hhandler : forall error : thrown,
            spec (cleanupDirectory tempDir;; @throw World unit error) plain).
  { intros error. apply free_bind; [apply plain_cleanupDirectory | intros _; apply free_throw]. }
  destruct (buildGitUrl parsedPrompt) as [e|repoUrl] eqn:Eg.
  - eapply spec_weaken with (P := plain).
    + apply free_tryCatch; [|exact Hhandler].
      apply free_bind; [apply free_throw | intros a].
      apply free_bind; [|intros _; apply Hrest].
      eapply spec_weaken; [apply spawned_executeGitCommand | now intros r n [Hp _]].
    + intros r n Hp. split; [exact Hp|]. intros repoUrl Hr. congruence.
  - eapply spec_weaken with (P := spawned ["clone"; "--depth"; "1"; repoUrl; tempDir]).
    + apply spawned_tryCatch; [|exact Hhandler].
      apply spec_ret_then.
      apply spawned_then; [apply spawned_executeGitCommand | intros _; apply Hrest].
    + intros r n [Hp Hin]. split; [exact Hp|].
      intros repoUrl' Hr. rewrite Eg in Hr. injection Hr as <-. now exists tempDir.
Qed.

Lemma cloned_fetchFallback (parsedPrompt : ParsedPrompt.t) :
  spec (fetchFallback parsedPrompt) (cloned parsedPrompt).
Proof.
  unfold fetchFallback.
  eapply spec_bind; [apply cloned_fetchViaGitToFile| |].
  - intros [] n1 [P1 H1]. eapply spec_weaken; [apply plain_appendLine|].
    intros r n2 P2. split; [now apply free_app|].
    intros repoUrl Hr. destruct (H1 repoUrl Hr) as [tempDir Hin].
    exists tempDir. apply in_or_app. now right.
  - intros e n1 H1. exact H1.
Qed.

(** [fetchViaHttp] makes one request, and returns the body exactly when
    the request did not fail in the sense of [tier1Failed]. *)
Lemma fetchViaHttp_spec (url : string) (headers : Headers) :
  spec (fetchViaHttp url headers)
       (fun r new =>
          exists answer,
            new = [Fetch url headers answer]
            /\ match r with
               | Returned _ => ~ tier1Failed answer
               | Threw _ => tier1Failed answer
               end).
Proof.
  intros w r w' E. split; [exact I|].
  exists [Fetch url headers (fetch (trace w) url headers)].
  revert E. unfold fetchViaHttp, tryFinally, tryCatch.
  cbv [mbind eff_bind bind ask emit mret eff_ret ret throw]. cbn [trace files promptFilesLocations].
  destruct (fetch (trace w) url headers) as [e|ok status statusText [e|content]].
  - destruct (hasName e "AbortError"); intros E; injection E as <- <-;
      (split; [reflexivity|]); eexists; (split; [reflexivity|exact I]).
  - destruct ok; cbn [negb].
    + destruct (hasName e "AbortError"); intros E; injection E as <- <-;
        (split; [reflexivity|]); eexists; (split; [reflexivity|]); right; exact I.
    + intros E. cbn in E. injection E as <- <-.
      split; [reflexivity|]. eexists. split; [reflexivity|]. now left.
  - destruct ok; cbn [negb].
    + destruct (isSignInPage content) eqn:Es.
      * intros E. cbn in E. injection E as <- <-.
        split; [reflexivity|]. eexists. split; [reflexivity|]. now right.
      * intros E. injection E as <- <-.
        split; [reflexivity|]. eexists. split; [reflexivity|].
        intros [H|H]; congruence.
    + intros E. cbn in E. injection E as <- <-.
      split; [reflexivity|]. eexists. split; [reflexivity|]. now left.
Qed.

Lemma no_fetch_in (new : list Event) (url : string) (headers : Headers)
    (answer : FetchEnd) :
  existsb isFetch new = false -> ~ In (Fetch url headers answer) new.
Proof.
  intros Hn Hin.
  assert (existsb isFetch new = true)
    by (apply existsb_exists; now exists (Fetch url headers answer)).
  congruence.
Qed.

Lemma plain_parts (new : list Event) :
  existsb isFetchOrWrite new = false ->
  existsb isFetch new = false /\ existsb isWriteFile new = false.
Proof.
  induction new as [|e new IH]; [now split|].
  cbn [existsb]. unfold isFetchOrWrite at 1.
  destruct (isFetch e), (isWriteFile e); cbn; try discriminate.
  exact IH.
Qed.

Lemma direct_fetchDirect (parsedPrompt : ParsedPrompt.t) (rawUrl : string) :
  spec (fetchDirect parsedPrompt rawUrl) direct.
Proof.
  unfold fetchDirect.
  eapply spec_bind with (P := plain).
  - destruct (ParsedPrompt.type parsedPrompt);
      first [apply plain_getADOAuthHeaders | apply free_ret].
  - intros headers n1 P1. destruct (plain_parts _ P1) as [F1 _].
    eapply spec_bind; [apply fetchViaHttp_spec| |].
    + intros content n (answer & -> & Hok).
      eapply spec_weaken with (P := free isFetch).
      * apply free_bind; [apply free_emit; reflexivity | intros _].
        apply unfetched_storeContent.
      * intros r n3 F3 url h a Hin Hfail. exfalso.
        apply in_app_or in Hin as [Hin|Hin]; [|now apply no_fetch_in in Hin].
        apply in_app_or in Hin as [Hin|[Hin|[]]]; [now apply no_fetch_in in Hin|].
        injection Hin as <- <- <-. auto.
    + intros e n (answer & -> & Hfailed) url h a Hin _.
      destruct Hin as [Hin|Hin]; [|now apply no_fetch_in in Hin].
      injection Hin as <- <- <-. split; [now exists n1 | now exists e].
  - intros e n1 P1 url h a Hin _. exfalso.
    destruct (plain_parts _ P1) as [F1 _]. now apply no_fetch_in in Hin.
Qed.

(** C1. In a run of [fetchWithFallbackStrategyToFile] whose request for
    the raw file failed (rejected or timed out, status not a success,
    body unreadable) or came back with a body taken for a sign-in page,
    the first attempt ends with that request, the run goes on with the
    clone-based fallback, whose outcome is the outcome of the run, the
    clone of the repository of the address is spawned, and no file is
    written from text in memory: the body is never stored. *)
Theorem failed_fetch_falls_back (parsedPrompt : ParsedPrompt.t) (w w' : World)
    (r : outcome unit) (new : list Event) (url : string) (headers : Headers)
    (answer : FetchEnd) :
  fetchWithFallbackStrategyToFile parsedPrompt w = (r, w') ->
  trace w' = new ++ trace w ->
  In (Fetch url headers answer) new ->
  tier1Failed answer ->
  (exists w1 before,
     fetchFallback parsedPrompt w1 = (r, w')
     /\ trace w1 = Fetch url headers answer :: before ++ trace w
     /\ existsb isFetchOrWrite before = false)
  /\ existsb isWriteFile new = false
  /\ exists repoUrl tempDir,
       buildGitUrl parsedPrompt = inr repoUrl
       /\ In (SpawnGit ["clone"; "--depth"; "1"; repoUrl; tempDir]) new.
Proof.
  intros H Ht Hin Hfail.
  unfold fetchWithFallbackStrategyToFile in H.
  destruct (buildRawFileUrl parsedPrompt) as [e|rawUrl] eqn:Eraw.
  { exfalso. injection H as <- <-.
    assert (new = []) as -> by (apply (List.app_inv_tail (trace w)); now rewrite <- Ht).
    destruct Hin. }
  assert (Hgit : exists repoUrl, buildGitUrl parsedPrompt = inr repoUrl).
  { unfold buildRawFileUrl in Eraw. unfold buildGitUrl.
    destruct (ParsedPrompt.type parsedPrompt); try discriminate Eraw; eauto. }
  change (tryCatch (fetchDirect parsedPrompt rawUrl) (fun _ => fetchFallback parsedPrompt) w
          = (r, w')) in H.
  unfold tryCatch in H.
  destruct (fetchDirect parsedPrompt rawUrl w) as [[[]|e] w1] eqn:E1;
    destruct (fetcher_run _ _ _ _ _ (direct_fetchDirect _ _) E1) as (n1 & Ht1 & Hdirect).
  - exfalso. injection H as <- <-.
    assert (new = n1) as -> by (apply (List.app_inv_tail (trace w)); now rewrite <- Ht).
    destruct (Hdirect _ _ _ Hin Hfail) as [_ [e He]]. discriminate He.
  - destruct (fetcher_run _ _ _ _ _ (cloned_fetchFallback _) H) as (n2 & Ht2 & P2 & Hclone).
    destruct (plain_parts _ P2) as [F2 S2].
    assert (new = n2 ++ n1) as ->.
    { apply (List.app_inv_tail (trace w)). now rewrite <- Ht, Ht2, Ht1, List.app_assoc. }
    apply in_app_or in Hin as [Hin|Hin]; [now apply no_fetch_in in Hin|].
    destruct (Hdirect _ _ _ Hin Hfail) as [(before & -> & Pb) _].
    destruct (plain_parts _ Pb) as [_ Sb].
    split; [|split].
    + exists w1, before. now repeat split.
    + rewrite existsb_app, S2. cbn. exact Sb.
    + destruct Hgit as [repoUrl Hr]. destruct (Hclone _ Hr) as [tempDir Hc].
      exists repoUrl, tempDir. split; [exact Hr|]. apply in_or_app. now left.
Qed.

End FetcherFacts.

(* ===================================================================== *)
(** * Worked runs                                                         *)
(* ===================================================================== *)

Section WorkedRuns.
Import Eff Samples.

(** The first descriptor of a batch of two is declined: the batch is
    cancelled there. *)
Lemma installServers_declined_witness :
  fst declinedRun = Returned false
  /\ McpInstaller.mcpJson (snd declinedRun) = McpInstaller.mcpJson installerWorld
  /\ wrote (McpInstaller.trace (snd declinedRun)) = false
  /\ (exists older,
        McpInstaller.trace (snd declinedRun)
        = McpInstaller.AppendLine (cancelLine docs)
          :: McpInstaller.ShowConfirmation docs false :: older)
  /\ exists pre post,
       [docs; tool] = pre ++ docs :: post
       /\ forall post', length post' = length post ->
            McpInstaller.installServers (host := installerHost false)
              (pre ++ docs :: post') installerWorld
            = (fst declinedRun, snd declinedRun).
Proof.
  apply (installServers_declined (host := installerHost false)
           [docs; tool] installerWorld (snd declinedRun) (fst declinedRun)
           (McpInstaller.trace (snd declinedRun)) docs).
  - vm_compute. reflexivity.
  - vm_compute. reflexivity.
  - vm_compute. right. left. reflexivity.
Defined.

(** The raw file of a GitHub address comes back as a sign-in page: the
    prompt is taken from the clone. *)
Lemma failed_fetch_falls_back_witness :
  (exists w1 before,
     PromptFetcher.fetchFallback (host := fetcherHost) address w1
     = (fst fallbackRun, snd fallbackRun)
     /\ PromptFetcher.trace w1
        = PromptFetcher.Fetch rawUrl []
            (PromptFetcher.Responded true 200 "OK" (inr signInPage))
          :: before ++ PromptFetcher.trace fetcherWorld
     /\ existsb isFetchOrWrite before = false)
  /\ existsb isWriteFile (PromptFetcher.trace (snd fallbackRun)) = false
  /\ exists repoUrl tempDir,
       PromptFetcher.buildGitUrl address = inr repoUrl
       /\ In (PromptFetcher.SpawnGit ["clone"; "--depth"; "1"; repoUrl; tempDir])
             (PromptFetcher.trace (snd fallbackRun)).
Proof.
  apply (failed_fetch_falls_back (host := fetcherHost)
           address fetcherWorld (snd fallbackRun) (fst fallbackRun)
           (PromptFetcher.trace (snd fallbackRun)) rawUrl []
           (PromptFetcher.Responded true 200 "OK" (inr signInPage))).
  - apply surjective_pairing.
  - symmetry. apply List.app_nil_r.
  - vm_compute. do 8 right. left. reflexivity.
  - right. reflexivity.
Defined.

(** The service accepts the connection, fails the request and fails to
    close: the error of the request is what [getPrompt] throws. *)
Lemma getPrompt_closes_session_witness :
  exists serverName promptName promptArgs w0 wr,
    McpClient.render (host := clientHost) serverName promptName promptArgs w0
    = (fst renderRun, wr)
    /\ ((exists text, fst renderRun = Returned text)
        \/ exists message,
             fst renderRun
             = Threw (newError ("Failed to fetch prompt '" +:+ promptName +:+
                                "' from MCP server '" +:+ serverName +:+ "': "
                                +:+ message)))
    /\ (exists before,
          McpClient.trace wr = before ++ McpClient.trace clientWorld
          /\ closed before = false)
    /\ McpClient.trace (snd renderRun)
       = McpClient.AppendLine
           (closeLine serverName (@McpClient.close clientHost (McpClient.trace wr)))
         :: McpClient.CloseClient :: McpClient.trace wr.
Proof.
  apply (getPrompt_closes_session (host := clientHost)
           "mcp.tool.review" "" [docs; tool] clientWorld (snd renderRun) (fst renderRun)
           (McpClient.trace (snd renderRun))).
  - vm_compute. reflexivity.
  - vm_compute. reflexivity.
  - vm_compute. reflexivity.
Defined.

End WorkedRuns.

(* ===================================================================== *)
(** * Properties: splitting and joining                                   *)
(* ===================================================================== *)

Section SplitFacts.

Lemma prefix_empty (s : string) : String.prefix "" s = true.
Proof. now destruct s. Qed.

(** [includes] with a one-character pattern tells whether the string is
    free of that character. *)
Lemma includes_char (c : ascii) (s : string) :
  Js.includes s (String c "") = negb (freeOf (Ascii.eqb c) s).
Proof.
  induction s as [|x s IH]; [reflexivity|].
  cbn [Js.includes freeOf String.prefix]. rewrite IH.
  destruct (ascii_dec c x) as [->|N].
  - now rewrite prefix_empty, Ascii.eqb_refl.
  - apply Ascii.eqb_neq in N. now rewrite N.
Qed.

Lemma includes_free (c : ascii) (s : string) :
  Js.includes s (String c "") = false <-> freeOf (Ascii.eqb c) s = true.
Proof. rewrite includes_char. now destruct (freeOf _ s). Qed.

Lemma freeOf_app (sep : ascii -> bool) (a b : string) :
  freeOf sep (a +:+ b) = freeOf sep a && freeOf sep b.
Proof.
  induction a as [|x a IH]; [reflexivity|].
  cbn [String.append freeOf]. rewrite IH. apply andb_assoc.
Qed.

Lemma splitBy_nonempty (sep : ascii -> bool) (s : string) : Js.splitBy sep s <> [].
Proof.
  destruct s as [|c s]; [discriminate|].
  cbn [Js.splitBy]. destruct (sep c); [discriminate|].
  destruct (Js.splitBy sep s); discriminate.
Qed.

(** A separator cuts the array of segments in two. *)
Lemma splitBy_app (sep : ascii -> bool) (a b : string) (c : ascii) :
  sep c = true ->
  Js.splitBy sep (a +:+ String c b) = Js.splitBy sep a ++ Js.splitBy sep b.
Proof.
  intros Hc. induction a as [|x a IH].
  - cbn [String.append Js.splitBy]. now rewrite Hc.
  - cbn [String.append Js.splitBy]. rewrite IH.
    destruct (sep x); [reflexivity|].
    pose proof (splitBy_nonempty sep a) as Hne.
    destruct (Js.splitBy sep a) as [|h t]; [congruence | reflexivity].
Qed.

Lemma splitBy_free (sep : ascii -> bool) (s : string) :
  freeOf sep s = true -> Js.splitBy sep s = [s].
Proof.
  induction s as [|x s IH]; [reflexivity|].
  cbn [freeOf Js.splitBy]. intros H. apply andb_prop in H as [Hx Hs].
  apply negb_true_iff in Hx. now rewrite Hx, IH.
Qed.

(** Text after the last separator lengthens the last segment only. *)
Lemma firstOf_splitBy_app (sep : ascii -> bool) (a b : string) :
  freeOf sep a = false ->
  Js.firstOf (Js.splitBy sep (a +:+ b)) = Js.firstOf (Js.splitBy sep a).
Proof.
  induction a as [|x a IH]; [discriminate|].
  cbn [String.append freeOf Js.splitBy]. destruct (sep x); [reflexivity|].
  cbn [negb andb]. intros Ha. specialize (IH Ha).
  pose proof (splitBy_nonempty sep a) as Hne.
  pose proof (splitBy_nonempty sep (a +:+ b)) as Hne'.
  destruct (Js.splitBy sep a) as [|h t]; [congruence|].
  destruct (Js.splitBy sep (a +:+ b)) as [|h' t']; [congruence|].
  cbn in *. now rewrite IH.
Qed.

(** [split] then [join] on the same character gives the string back. *)
Lemma join_split (s : string) (c : ascii) : Js.join (Js.split s c) (String c "") = s.
Proof.
  unfold Js.join, Js.split. induction s as [|x s IH]; [reflexivity|].
  cbn [Js.splitBy].
  pose proof (splitBy_nonempty (Ascii.eqb c) s) as Hne.
  destruct (Ascii.eqb c x) eqn:E.
  - apply Ascii.eqb_eq in E as <-.
    destruct (Js.splitBy (Ascii.eqb c) s) as [|h t]; [congruence|].
    cbn [String.concat String.append] in *. now rewrite IH.
  - destruct (Js.splitBy (Ascii.eqb c) s) as [|h [|h' t]]; [congruence| |].
    + cbn [String.concat] in *. now rewrite IH.
    + cbn [String.concat String.append] in *. now rewrite IH.
Qed.

End SplitFacts.

(* ===================================================================== *)
(** * Properties: the order of versions                                   *)
(* ===================================================================== *)

Section VersionOrder.
Import Version.

(** When [isVersionSufficient] says yes: at the first index where the
    segments differ the installed one is the larger, or they differ
    nowhere and the pre-release rule allows it. *)
Lemma isVersionSufficient_true (installed required : string) :
  isVersionSufficient installed required = true <->
  (exists i, (forall j, (j < i)%nat -> segment installed j = segment required j)
             /\ segment installed i > segment required i)
  \/ ((forall j, segment installed j = segment required j)
      /\ tieBreak installed required = true).
Proof.
  destruct (isVersionSufficient_spec installed required)
    as [(i & Hbefore & Hat & E)|[Hall E]]; rewrite E; split.
  - intros H. left. exists i. split; [exact Hbefore | lia].
  - intros [(i' & Hbefore' & Hgt)|[Hall _]].
    + destruct (Nat.lt_trichotomy i i') as [Hlt|[->|Hlt]].
      * specialize (Hbefore' i Hlt). contradiction.
      * lia.
      * specialize (Hbefore i' Hlt). lia.
    + specialize (Hall i). contradiction.
  - intros H. right. now split.
  - intros [(i' & _ & Hgt)|[_ H]]; [|exact H].
    specialize (Hall i'). lia.
Qed.

(** X1. [isVersionSufficient] is a total preorder on version strings:
    every version suffices for itself; of two versions one suffices for
    the other; and when [a] suffices for [b] and [b] for [c], then [a]
    suffices for [c]. *)
Theorem isVersionSufficient_total_preorder :
  (forall v, isVersionSufficient v v = true)
  /\ (forall a b, isVersionSufficient a b = true \/ isVersionSufficient b a = true)
  /\ (forall a b c, isVersionSufficient a b = true -> isVersionSufficient b c = true ->
                    isVersionSufficient a c = true).
Proof.
  split; [|split].
  - intros v. apply isVersionSufficient_true. right. split; [reflexivity|].
    unfold tieBreak. now destruct (Js.includes v "-").
  - intros a b.
    destruct (isVersionSufficient_spec a b) as [(i & Hbefore & Hat & E)|[Hall E]].
    + destruct (Z.lt_total (segment a i) (segment b i)) as [Hlt|[Heq|Hgt]].
      * right. apply isVersionSufficient_true. left. exists i. split; [|lia].
        intros j Hj. symmetry. now apply Hbefore.
      * contradiction.
      * left. rewrite E. lia.
    + destruct (Js.includes a "-") eqn:Ea.
      * right. apply isVersionSufficient_true. right. split; [now intros j|].
        unfold tieBreak. rewrite Ea. now destruct (Js.includes b "-").
      * left. rewrite E. unfold tieBreak. now rewrite Ea.
  - intros a b c Hab Hbc.
    apply isVersionSufficient_true in Hab, Hbc. apply isVersionSufficient_true.
    destruct Hab as [(i & Hi & Hgi)|[Hab Tab]]; destruct Hbc as [(k & Hk & Hgk)|[Hbc Tbc]].
    + left. destruct (Nat.lt_trichotomy i k) as [Hlt|[->|Hlt]].
      * exists i. split; [|rewrite <- (Hk i Hlt); exact Hgi].
        intros j Hj. rewrite (Hi j Hj). apply Hk. lia.
      * exists k. split; [|lia].
        intros j Hj. rewrite (Hi j Hj). now apply Hk.
      * exists k. split; [|rewrite (Hi k Hlt); exact Hgk].
        intros j Hj. rewrite (Hi j) by lia. now apply Hk.
    + left. exists i. split; [|now rewrite <- Hbc].
      intros j Hj. rewrite <- Hbc. now apply Hi.
    + left. exists k. split; [|now rewrite Hab].
      intros j Hj. rewrite Hab. now apply Hk.
    + right. split; [intros j; now rewrite Hab|].
      unfold tieBreak in *.
      destruct (Js.includes a "-"), (Js.includes b "-"), (Js.includes c "-");
        try reflexivity; discriminate.
Qed.

Lemma split_free (s : string) (c : ascii) :
  Js.includes s (String c "") = false -> Js.split s c = [s].
Proof. intros H. apply splitBy_free. now apply includes_free. Qed.

Lemma split_app_free (a b : string) (c : ascii) :
  Js.includes a (String c "") = false ->
  Js.split (a +:+ String c b) c = a :: Js.split b c.
Proof.
  intros H. unfold Js.split. rewrite splitBy_app by apply Ascii.eqb_refl.
  fold (Js.split a c). now rewrite split_free.
Qed.

(** The text from the first '-' on plays no part in the segments. *)
Lemma clean_prerelease (core tag : string) :
  Js.includes core "-" = false -> clean (core +:+ "-" +:+ tag) = clean core.
Proof.
  intros Hcore. unfold clean.
  change (core +:+ "-" +:+ tag) with (core +:+ String "-" tag).
  rewrite split_app_free, (split_free core "-") by assumption. reflexivity.
Qed.

(** X2. A release and a pre-release of the same core: whatever the core
    (free of '-') and the tag, the release suffices where the
    pre-release is required, and the pre-release does not suffice where
    the release is required. *)
Theorem isVersionSufficient_release_over_prerelease (core tag : string) :
  Js.includes core "-" = false ->
  isVersionSufficient core (core +:+ "-" +:+ tag) = true
  /\ isVersionSufficient (core +:+ "-" +:+ tag) core = false.
Proof.
  intros Hcore.
  assert (Hseg : forall j, segment core j = segment (core +:+ "-" +:+ tag) j).
  { intros j. unfold segment, parts. now rewrite clean_prerelease. }
  assert (Hpre : Js.includes (core +:+ "-" +:+ tag) "-" = true).
  { change (core +:+ "-" +:+ tag) with (core +:+ String "-" tag).
    apply includes_occurrence. }
  split.
  - apply isVersionSufficient_true. right. split; [exact Hseg|].
    unfold tieBreak. now rewrite Hcore.
  - destruct (isVersionSufficient_spec (core +:+ "-" +:+ tag) core)
      as [(i & _ & Hat & _)|[_ ->]].
    + exfalso. apply Hat. symmetry. apply Hseg.
    + unfold tieBreak. now rewrite Hpre, Hcore.
Qed.

Lemma isVersionSufficient_release_over_prerelease_witness :
  isVersionSufficient "2025.1.15" "2025.1.15-rc.1" = true
  /\ isVersionSufficient "2025.1.15-rc.1" "2025.1.15" = false.
Proof.
  apply (isVersionSufficient_release_over_prerelease "2025.1.15" "rc.1").
  reflexivity.
Defined.

Lemma firstOf_split_app (a b : string) (c : ascii) :
  Js.includes b (String c "") = false ->
  Js.firstOf (Js.split (a +:+ b) c)
  = if Js.includes a (String c "") then Js.firstOf (Js.split a c) else a +:+ b.
Proof.
  intros Hb. rewrite (includes_char c a). unfold Js.split.
  destruct (freeOf (Ascii.eqb c) a) eqn:Ha; cbn [negb].
  - rewrite splitBy_free; [reflexivity|].
    rewrite freeOf_app, Ha. now apply includes_free.
  - now apply firstOf_splitBy_app.
Qed.

Lemma includes_app_free (a b : string) (c : ascii) :
  Js.includes b (String c "") = false ->
  Js.includes (a +:+ b) (String c "") = Js.includes a (String c "").
Proof.
  intros Hb. rewrite !includes_char, freeOf_app.
  apply includes_free in Hb. rewrite Hb. now rewrite andb_true_r.
Qed.

Lemma nth_app_zero (l : list Z) (j : nat) : nth j (l ++ [0]) 0 = nth j l 0.
Proof.
  destruct (Nat.lt_ge_cases j (length l)) as [Hlt|Hge].
  - now apply List.app_nth1.
  - rewrite List.app_nth2 by assumption. rewrite (List.nth_overflow l) by assumption.
    destruct (j - length l)%nat as [|[|n]]; reflexivity.
Qed.

(** Appending ".0" leaves every zero-extended segment as it was. *)
Lemma segment_trailing_zero (v : string) (j : nat) :
  segment (v +:+ ".0") j = segment v j.
Proof.
  unfold segment, parts, clean.
  rewrite (firstOf_split_app v ".0" "-") by reflexivity.
  destruct (Js.includes v "-") eqn:Hh.
  - reflexivity.
  - rewrite (split_free v "-") by assumption. cbn [Js.firstOf hd].
    rewrite (firstOf_split_app v ".0" "+") by reflexivity.
    destruct (Js.includes v "+") eqn:Hp; [reflexivity|].
    rewrite (split_free v "+") by assumption. cbn [Js.firstOf hd].
    unfold Js.split. change (v +:+ ".0") with (v +:+ String "." "0").
    rewrite splitBy_app by reflexivity.
    rewrite List.map_app. apply nth_app_zero.
Qed.

(** X3. A trailing ".0" never changes a comparison: for every version
    [v], [v] followed by ".0" suffices for exactly the versions [v]
    suffices for, and is satisfied by exactly the versions that satisfy
    [v]. *)
Theorem isVersionSufficient_trailing_zero (v w : string) :
  isVersionSufficient (v +:+ ".0") w = isVersionSufficient v w
  /\ isVersionSufficient w (v +:+ ".0") = isVersionSufficient w v.
Proof.
  assert (Hh : Js.includes (v +:+ ".0") "-" = Js.includes v "-")
    by now apply includes_app_free.
  split; apply isVersionSufficient_by_segments;
    try (intros j; apply segment_trailing_zero); try reflexivity;
    unfold tieBreak; now rewrite Hh.
Qed.

Lemma firstOf_split_sep (a b : string) (c : ascii) :
  Js.firstOf (Js.split (a +:+ String c b) c) = Js.firstOf (Js.split a c).
Proof.
  unfold Js.split. rewrite splitBy_app by apply Ascii.eqb_refl.
  pose proof (splitBy_nonempty (Ascii.eqb c) a) as Hne.
  destruct (Js.splitBy (Ascii.eqb c) a) as [|h t]; [congruence | reflexivity].
Qed.

(** Build metadata without a hyphen leaves the segments as they were. *)
Lemma segment_build_metadata (v meta : string) (j : nat) :
  Js.includes meta "-" = false ->
  segment (v +:+ "+" +:+ meta) j = segment v j.
Proof.
  intros Hmeta. unfold segment, parts, clean.
  rewrite (firstOf_split_app v ("+" +:+ meta) "-")
    by (change ("+" +:+ meta) with (String "+" meta); cbn [Js.includes String.prefix];
        destruct (ascii_dec "-" "+"); [discriminate | exact Hmeta]).
  destruct (Js.includes v "-") eqn:Hh; [reflexivity|].
  rewrite (split_free v "-") by assumption. cbn [Js.firstOf hd].
  change (v +:+ "+" +:+ meta) with (v +:+ String "+" meta).
  now rewrite firstOf_split_sep.
Qed.

(** X4. Build metadata that holds no hyphen is ignored: [v] followed by
    '+' and such metadata compares like [v], on either side. *)
Theorem isVersionSufficient_build_metadata (v meta w : string) :
  Js.includes meta "-" = false ->
  isVersionSufficient (v +:+ "+" +:+ meta) w = isVersionSufficient v w
  /\ isVersionSufficient w (v +:+ "+" +:+ meta) = isVersionSufficient w v.
Proof.
  intros Hmeta.
  assert (Hh : Js.includes (v +:+ "+" +:+ meta) "-" = Js.includes v "-").
  { apply includes_app_free. change ("+" +:+ meta) with (String "+" meta).
    cbn [Js.includes String.prefix]. destruct (ascii_dec "-" "+"); [discriminate | exact Hmeta]. }
  split; apply isVersionSufficient_by_segments;
    try (intros j; now apply segment_build_metadata); try reflexivity;
    unfold tieBreak; now rewrite Hh.
Qed.

Lemma isVersionSufficient_build_metadata_witness :
  isVersionSufficient "1.2.3+build.7" "1.2.3" = isVersionSufficient "1.2.3" "1.2.3"
  /\ isVersionSufficient "1.2.3" "1.2.3+build.7" = isVersionSufficient "1.2.3" "1.2.3".
Proof.
  apply (isVersionSufficient_build_metadata "1.2.3" "build.7" "1.2.3").
  reflexivity.
Defined.

End VersionOrder.

(* ===================================================================== *)
(** * Properties: the grammar of addresses                                *)
(* ===================================================================== *)

Section AddressFacts.
Import PromptParser.

Lemma splitBy_segments_free (sep : ascii -> bool) (s : string) :
  Forall (fun x => freeOf sep x = true) (Js.splitBy sep s).
Proof.
  induction s as [|c s IH]; [repeat constructor|].
  cbn [Js.splitBy]. destruct (sep c) eqn:Hc.
  - constructor; [reflexivity | exact IH].
  - destruct (Js.splitBy sep s) as [|h t]; [repeat constructor; cbn; now rewrite Hc|].
    inversion IH as [|? ? Hh Ht]; subst. constructor; [|exact Ht].
    cbn [freeOf]. now rewrite Hc, Hh.
Qed.

Lemma last_app_nonempty {A} (l1 l2 : list A) (d : A) :
  l2 <> [] -> List.last (l1 ++ l2) d = List.last l2 d.
Proof.
  intros Hne. induction l1 as [|x l1 IH]; [reflexivity|].
  cbn [app List.last]. destruct (l1 ++ l2) eqn:E; [|exact IH].
  apply List.app_eq_nil in E as [_ E]. contradiction.
Qed.

(** The last segment is read behind the last separator. *)
Lemma lastOf_splitBy_app (sep : ascii -> bool) (a b : string) (c : ascii) :
  sep c = true ->
  Js.lastOf (Js.splitBy sep (a +:+ String c b)) = Js.lastOf (Js.splitBy sep b).
Proof.
  intros Hc. rewrite splitBy_app by assumption.
  apply last_app_nonempty, splitBy_nonempty.
Qed.

Lemma getPromptName_after_separator (dir file : string) (c : ascii) :
  isPathSeparator c = true ->
  getPromptName (dir +:+ String c file) = getPromptName file.
Proof. intros Hc. unfold getPromptName. now rewrite lastOf_splitBy_app. Qed.

(** A suffix without the separator lies behind the separator. *)
Lemma suffix_after_separator (c : ascii) (ext file : string) :
  freeOf (Ascii.eqb c) ext = true ->
  forall dir stem, dir +:+ String c file = stem +:+ ext ->
  exists stem', file = stem' +:+ ext.
Proof.
  intros Hext.
  assert (Hno : forall a b, ext <> a +:+ String c b).
  { intros a b E. rewrite E, freeOf_app in Hext. cbn [freeOf] in Hext.
    rewrite Ascii.eqb_refl in Hext. cbn in Hext. now rewrite andb_false_r in Hext. }
  induction dir as [|d dir IH]; intros [|x stem] E; cbn [String.append] in E.
  - exfalso. apply (Hno "" file). now rewrite <- E.
  - injection E as _ E. now exists stem.
  - exfalso. apply (Hno (String d dir) file). now rewrite <- E.
  - injection E as _ E. now apply (IH stem).
Qed.

Lemma endsWith_after_separator (c : ascii) (dir file ext : string) :
  freeOf (Ascii.eqb c) ext = true ->
  Js.endsWith (dir +:+ String c file) ext = Js.endsWith file ext.
Proof.
  intros Hext. apply Bool.eq_iff_eq_true. rewrite !endsWith_iff. split.
  - intros [stem E]. now apply (suffix_after_separator c ext file Hext dir stem).
  - intros [stem ->]. exists (dir +:+ String c stem).
    rewrite app_assoc. reflexivity.
Qed.

(** The default extension goes behind the last segment, whatever
    precedes a '/' or a ':'. *)
Lemma addDefaultExtension_after_separator (c : ascii) (dir file : string) :
  c = "/"%char \/ c = ":"%char ->
  addDefaultExtension (dir +:+ String c file) = dir +:+ String c (addDefaultExtension file).
Proof.
  intros Hc. unfold addDefaultExtension, extensions. cbn [existsb].
  rewrite !(endsWith_after_separator c dir file)
    by (destruct Hc as [-> | ->]; reflexivity).
  destruct (_ || _); [reflexivity|].
  rewrite app_assoc. reflexivity.
Qed.

Lemma freeOf_addDefaultExtension (c : ascii) (s : string) :
  c = "/"%char \/ c = ":"%char ->
  freeOf (Ascii.eqb c) (addDefaultExtension s) = freeOf (Ascii.eqb c) s.
Proof.
  intros Hc. unfold addDefaultExtension. destruct (existsb _ _); [reflexivity|].
  rewrite freeOf_app. destruct Hc as [-> | ->]; apply andb_true_r.
Qed.

(** What [parsePrompt] does with a scheme tag: for text before the first
    ':' that no earlier case claims, the platform is that text, and the
    path is what follows the ':' with the default extension. *)
Lemma parsePrompt_scheme (platform body : string) :
  Js.includes platform ":" = false ->
  Js.startsWith (platform +:+ String ":" body) "mcp." = false ->
  Js.startsWith (platform +:+ String ":" body) "http://"
  || Js.startsWith (platform +:+ String ":" body) "https://" = false ->
  isWindowsAbsolute (platform +:+ String ":" body)
  || Js.startsWith (platform +:+ String ":" body) "/" = false ->
  parsePrompt (platform +:+ String ":" body)
  = let name := getPromptName body in
    let fullPath := addDefaultExtension body in
    if String.eqb platform "ado" then
      match Js.split fullPath "/" with
      | org :: project :: repo :: ((_ :: _) as pathParts) =>
          inr (ParsedPrompt.mk ParsedPrompt.ado name None (Some org) (Some project)
                 (Some repo) None (Some (Js.join pathParts "/")) None)
      | _ => inl InvalidAdoFormat
      end
    else if String.eqb platform "gh" then
      match Js.split fullPath "/" with
      | owner :: repo :: ((_ :: _) as pathParts) =>
          inr (ParsedPrompt.mk ParsedPrompt.github name None None None (Some repo)
                 (Some owner) (Some (Js.join pathParts "/")) None)
      | _ => inl InvalidGitHubFormat
      end
    else inl (UnsupportedPlatform platform).
Proof.
  intros Hplatform Hmcp Hhttp Hlocal. unfold parsePrompt.
  rewrite Hmcp, Hhttp, Hlocal, includes_occurrence.
  rewrite addDefaultExtension_after_separator by now right.
  rewrite split_app_free by assumption.
  rewrite getPromptName_after_separator by reflexivity.
  pose proof (splitBy_nonempty (Ascii.eqb ":") (addDefaultExtension body)) as Hne.
  fold (Js.split (addDefaultExtension body) ":") in Hne.
  replace (length (Js.split (addDefaultExtension body) ":") =? 0)%nat with false
    by (destruct (Js.split (addDefaultExtension body) ":"); [congruence | reflexivity]).
  change ":"%string with (String ":" ""). rewrite join_split. reflexivity.
Qed.

(** A path of one segment, with its default extension, is one segment. *)
Lemma split_addDefaultExtension_segment (s : string) :
  freeOf (Ascii.eqb "/") s = true ->
  Js.split (addDefaultExtension s) "/" = [addDefaultExtension s].
Proof.
  intros Hs. apply splitBy_free.
  rewrite freeOf_addDefaultExtension by now left. exact Hs.
Qed.

Lemma join_cons (h : string) (t : list string) (c : ascii) :
  t <> [] -> Js.join (h :: t) (String c "") = h +:+ String c (Js.join t (String c "")).
Proof. destruct t; [congruence | reflexivity]. Qed.

(** A string is its first segment, then the separator and the rest
    joined, when there is a rest. *)
Lemma split_cons (s h : string) (t : list string) (c : ascii) :
  Js.split s c = h :: t ->
  freeOf (Ascii.eqb c) h = true
  /\ s = match t with [] => h | _ => h +:+ String c (Js.join t (String c "")) end.
Proof.
  intros E. split.
  - pose proof (splitBy_segments_free (Ascii.eqb c) s) as F.
    unfold Js.split in E. rewrite E in F. now inversion F.
  - rewrite <- (join_split s c) at 1. rewrite E. now destruct t.
Qed.

(** The segments behind the first are the split of the rest. *)
Lemma split_tail (s h : string) (t : list string) (c : ascii) :
  Js.split s c = h :: t -> t <> [] -> Js.split (Js.join t (String c "")) c = t.
Proof.
  intros E Hne. destruct (split_cons s h t c E) as [Hh Hs].
  destruct t as [|x t]; [congruence|].
  rewrite Hs in E. rewrite split_app_free in E by now apply includes_free.
  now injection E.
Qed.

(** X5. The grammar of GitHub addresses.  For every text [body],
    [parsePrompt] of "gh:" followed by [body] succeeds exactly when
    [body] has at least three segments between '/': the first is the
    owner, the second the repository, the remaining ones joined are the
    path, which gets the default extension and from which the name is
    taken.  With fewer segments the GitHub format error is thrown. *)
Theorem parsePrompt_github (body : string) :
  parsePrompt ("gh:" +:+ body)
  = match Js.split body "/" with
    | owner :: repo :: ((_ :: _) as pathParts) =>
        inr (ParsedPrompt.mk ParsedPrompt.github
               (getPromptName (Js.join pathParts "/")) None None None
               (Some repo) (Some owner)
               (Some (addDefaultExtension (Js.join pathParts "/"))) None)
    | _ => inl InvalidGitHubFormat
    end.
Proof.
  change ("gh:" +:+ body) with ("gh" +:+ String ":" body).
  rewrite parsePrompt_scheme by reflexivity. cbv zeta.
  change (String.eqb "gh" "ado") with false. change (String.eqb "gh" "gh") with true.
  cbv iota.
  destruct (Js.split body "/") as [|owner [|repo rest]] eqn:E.
  - now apply splitBy_nonempty in E.
  - destruct (split_cons _ _ _ _ E) as [Ho ->].
    now rewrite split_addDefaultExtension_segment.
  - destruct (split_cons _ _ _ _ E) as [Ho Hbody].
    pose proof (split_tail _ _ _ _ E ltac:(discriminate)) as E1.
    set (tail1 := Js.join (repo :: rest) "/") in *.
    rewrite Hbody.
    rewrite addDefaultExtension_after_separator by now left.
    rewrite split_app_free by now apply includes_free.
    rewrite getPromptName_after_separator by reflexivity.
    destruct rest as [|p ps].
    + destruct (split_cons _ _ _ _ E1) as [Hr ->].
      now rewrite split_addDefaultExtension_segment.
    + destruct (split_cons _ _ _ _ E1) as [Hr Htail].
      set (path := Js.join (p :: ps) "/") in *.
      rewrite Htail.
      rewrite addDefaultExtension_after_separator by now left.
      rewrite split_app_free by now apply includes_free.
      rewrite getPromptName_after_separator by reflexivity.
      pose proof (splitBy_nonempty (Ascii.eqb "/") (addDefaultExtension path)) as Hne.
      pose proof (join_split (addDefaultExtension path) "/") as J.
      unfold Js.split in *.
      destruct (Js.splitBy (Ascii.eqb "/") (addDefaultExtension path)) as [|q qs];
        [congruence|].
      now rewrite J.
Qed.

(** X6. The grammar of Azure DevOps addresses.  For every text [body],
    [parsePrompt] of "ado:" followed by [body] succeeds exactly when
    [body] has at least four segments between '/': organization,
    project and repository, and the remaining ones joined as the path,
    which gets the default extension and from which the name is taken.
    With fewer segments the ADO format error is thrown. *)
Theorem parsePrompt_ado (body : string) :
  parsePrompt ("ado:" +:+ body)
  = match Js.split body "/" with
    | org :: project :: repo :: ((_ :: _) as pathParts) =>
        inr (ParsedPrompt.mk ParsedPrompt.ado
               (getPromptName (Js.join pathParts "/")) None
               (Some org) (Some project) (Some repo) None
               (Some (addDefaultExtension (Js.join pathParts "/"))) None)
    | _ => inl InvalidAdoFormat
    end.
Proof.
  change ("ado:" +:+ body) with ("ado" +:+ String ":" body).
  rewrite parsePrompt_scheme by reflexivity. cbv zeta.
  change (String.eqb "ado" "ado") with true. cbv iota.
  destruct (Js.split body "/") as [|org [|project rest]] eqn:E.
  - now apply splitBy_nonempty in E.
  - destruct (split_cons _ _ _ _ E) as [Ho ->].
    now rewrite split_addDefaultExtension_segment.
  - destruct (split_cons _ _ _ _ E) as [Ho Hbody].
    pose proof (split_tail _ _ _ _ E ltac:(discriminate)) as E1.
    set (tail1 := Js.join (project :: rest) "/") in *.
    rewrite Hbody.
    rewrite addDefaultExtension_after_separator by now left.
    rewrite split_app_free by now apply includes_free.
    rewrite getPromptName_after_separator by reflexivity.
    destruct rest as [|repo rest].
    + destruct (split_cons _ _ _ _ E1) as [Hr ->].
      now rewrite split_addDefaultExtension_segment.
    + destruct (split_cons _ _ _ _ E1) as [Hp Htail].
      pose proof (split_tail _ _ _ _ E1 ltac:(discriminate)) as E2.
      set (tail2 := Js.join (repo :: rest) "/") in *.
      rewrite Htail.
      rewrite addDefaultExtension_after_separator by now left.
      rewrite split_app_free by now apply includes_free.
      rewrite getPromptName_after_separator by reflexivity.
      destruct rest as [|p ps].
      * destruct (split_cons _ _ _ _ E2) as [Hr ->].
        now rewrite split_addDefaultExtension_segment.
      * destruct (split_cons _ _ _ _ E2) as [Hr Htail2].
        set (path := Js.join (p :: ps) "/") in *.
        rewrite Htail2.
        rewrite addDefaultExtension_after_separator by now left.
        rewrite split_app_free by now apply includes_free.
        rewrite getPromptName_after_separator by reflexivity.
        pose proof (splitBy_nonempty (Ascii.eqb "/") (addDefaultExtension path)) as Hne.
        pose proof (join_split (addDefaultExtension path) "/") as J.
        unfold Js.split in *.
        destruct (Js.splitBy (Ascii.eqb "/") (addDefaultExtension path)) as [|q qs];
          [congruence|].
        now rewrite J.
Qed.

End AddressFacts.

(* ===================================================================== *)
(** * Properties: what a parsed address holds                             *)
(* ===================================================================== *)

Section ParsedFacts.
Import PromptParser.

Lemma recognized_addDefaultExtension (path : string) :
  recognized (addDefaultExtension path).
Proof.
  unfold addDefaultExtension. destruct (existsb _ extensions) eqn:E.
  - now apply hasExtension_iff.
  - apply recognized_default.
Qed.

(** A recognized suffix of a text is one of what follows a '/' in it. *)
Lemma recognized_after_slash (dir file : string) :
  recognized (dir +:+ String "/" file) -> recognized file.
Proof.
  intros (ext & stem & Hin & E).
  assert (Hext : freeOf (Ascii.eqb "/") ext = true).
  { unfold extensions in Hin. cbn in Hin.
    destruct Hin as [<-|[<-|[<-|[<-|[]]]]]; reflexivity. }
  destruct (suffix_after_separator "/" ext file Hext dir stem E) as [stem' ->].
  now exists ext, stem'.
Qed.

(** The text before the first occurrence of a character. *)
Lemma includes_first (s : string) (c : ascii) :
  Js.includes s (String c "") = true ->
  exists a b, s = a +:+ String c b /\ Js.includes a (String c "") = false.
Proof.
  induction s as [|x s IH]; [discriminate|].
  destruct (Ascii.eqb c x) eqn:E.
  - apply Ascii.eqb_eq in E as <-. intros _. now exists "", s.
  - intros H. rewrite includes_char in H. cbn [freeOf] in H. rewrite E in H.
    cbn [negb andb] in H. rewrite <- includes_char in H.
    destruct (IH H) as (a & b & -> & Ha).
    exists (String x a), b. split; [reflexivity|].
    rewrite includes_char. cbn [freeOf]. rewrite E. cbn [negb andb].
    now rewrite <- includes_char.
Qed.

(** X7. What a successful parse holds.  Whatever the string, the result
    of [parsePrompt] has exactly the members of its variant: organization,
    project, repository and path for Azure DevOps; owner, repository
    and path for GitHub; the address for a URL; the path for a local
    file; and nothing but the string itself as name for an installed or
    an MCP prompt.  Every path or address among them ends in one of the
    recognized extensions, and the name of the first four variants is
    [getPromptName] of the string. *)
Theorem parsePrompt_fields (prompt : string) (p : ParsedPrompt.t) :
  parsePrompt prompt = inr p ->
  match ParsedPrompt.type p with
  | ParsedPrompt.ado =>
      exists org project repo filePath,
        p = ParsedPrompt.mk ParsedPrompt.ado (getPromptName prompt) None
              (Some org) (Some project) (Some repo) None (Some filePath) None
        /\ recognized filePath
  | ParsedPrompt.github =>
      exists owner repo filePath,
        p = ParsedPrompt.mk ParsedPrompt.github (getPromptName prompt) None
              None None (Some repo) (Some owner) (Some filePath) None
        /\ recognized filePath
  | ParsedPrompt.url_ =>
      exists url,
        p = ParsedPrompt.mk ParsedPrompt.url_ (getPromptName prompt) (Some url)
              None None None None None None
        /\ recognized url
  | ParsedPrompt.local_ =>
      exists localPath,
        p = ParsedPrompt.mk ParsedPrompt.local_ (getPromptName prompt) None
              None None None None None (Some localPath)
        /\ recognized localPath
  | kind => p = ParsedPrompt.bare kind prompt
  end.
Proof.
  unfold parsePrompt.
  destruct (Js.startsWith prompt "mcp.") eqn:Hmcp.
  { destruct (negb _); [discriminate|]. now intros [= <-]. }
  destruct (Js.startsWith prompt "http://" || Js.startsWith prompt "https://") eqn:Hhttp.
  { intros [= <-]. eexists. split; [reflexivity | apply recognized_addDefaultExtension]. }
  destruct (isWindowsAbsolute prompt || Js.startsWith prompt "/") eqn:Hlocal.
  { intros [= <-]. eexists. split; [reflexivity | apply recognized_addDefaultExtension]. }
  destruct (Js.includes prompt ":") eqn:Hcolon; [|now intros [= <-]].
  destruct (includes_first prompt ":" Hcolon) as (platform & body & -> & Hplatform).
  pose proof (parsePrompt_scheme platform body Hplatform Hmcp Hhttp Hlocal) as Hscheme.
  unfold parsePrompt in Hscheme. rewrite Hmcp, Hhttp, Hlocal, Hcolon in Hscheme.
  rewrite Hscheme. cbv zeta.
  rewrite getPromptName_after_separator by reflexivity.
  pose proof (recognized_addDefaultExtension body) as R.
  destruct (String.eqb platform "ado").
  - destruct (Js.split (addDefaultExtension body) "/")
      as [|org [|project [|repo [|q qs]]]] eqn:E; try discriminate.
    intros [= <-]. cbn [ParsedPrompt.type].
    exists org, project, repo, (Js.join (q :: qs) "/"). split; [reflexivity|].
    destruct (split_cons _ _ _ _ E) as [_ E0].
    pose proof (split_tail _ _ _ _ E ltac:(discriminate)) as E1.
    destruct (split_cons _ _ _ _ E1) as [_ E1'].
    pose proof (split_tail _ _ _ _ E1 ltac:(discriminate)) as E2.
    destruct (split_cons _ _ _ _ E2) as [_ E2'].
    rewrite E0 in R. apply recognized_after_slash in R.
    rewrite E1' in R. apply recognized_after_slash in R.
    rewrite E2' in R. now apply recognized_after_slash in R.
  - destruct (String.eqb platform "gh"); [|discriminate].
    destruct (Js.split (addDefaultExtension body) "/")
      as [|owner [|repo [|q qs]]] eqn:E; try discriminate.
    intros [= <-]. cbn [ParsedPrompt.type].
    exists owner, repo, (Js.join (q :: qs) "/"). split; [reflexivity|].
    destruct (split_cons _ _ _ _ E) as [_ E0].
    pose proof (split_tail _ _ _ _ E ltac:(discriminate)) as E1.
    destruct (split_cons _ _ _ _ E1) as [_ E1'].
    rewrite E0 in R. apply recognized_after_slash in R.
    rewrite E1' in R. now apply recognized_after_slash in R.
Qed.

Lemma parsePrompt_fields_witness :
  exists owner repo filePath,
    Samples.address
    = ParsedPrompt.mk ParsedPrompt.github (getPromptName "gh:acme/prompts/code-review")
        None None None (Some repo) (Some owner) (Some filePath) None
    /\ recognized filePath.
Proof.
  exact (parsePrompt_fields "gh:acme/prompts/code-review" Samples.address eq_refl).
Defined.

Lemma freeOf_skip (sep : ascii -> bool) (n : nat) (s : string) :
  freeOf sep s = true -> freeOf sep (Js.skip n s) = true.
Proof.
  revert s; induction n as [|n IH]; intros [|c s] H; cbn [Js.skip]; auto.
  cbn [freeOf] in H. apply andb_prop in H as [_ H]. now apply IH.
Qed.

Lemma freeOf_replace_empty (sep : ascii -> bool) (pat s : string) :
  freeOf sep s = true -> freeOf sep (Js.replace pat "" s) = true.
Proof.
  induction s as [|c s IH]; intros H.
  - cbn [Js.replace]. destruct (String.prefix pat ""); [|reflexivity].
    cbn [String.append]. now apply freeOf_skip.
  - cbn [Js.replace]. destruct (String.prefix pat (String c s)).
    + cbn [String.append]. now apply freeOf_skip.
    + cbn [freeOf] in *. apply andb_prop in H as [Hc Hs]. now rewrite Hc, IH.
Qed.

Lemma freeOf_removeLastExtension (sep : ascii -> bool) (s : string) :
  freeOf sep s = true -> freeOf sep (removeLastExtension s) = true.
Proof.
  induction s as [|c s IH]; intros H; [reflexivity|].
  cbn [removeLastExtension]. destruct (_ && _); [reflexivity|].
  cbn [freeOf] in *. apply andb_prop in H as [Hc Hs]. now rewrite Hc, IH.
Qed.

Lemma lastOf_free (sep : ascii -> bool) (s : string) :
  freeOf sep (Js.lastOf (Js.splitBy sep s)) = true.
Proof.
  unfold Js.lastOf. pose proof (splitBy_segments_free sep s) as F.
  induction F as [|x l Hx F IH]; [reflexivity|].
  cbn [List.last]. destruct l; [exact Hx | exact IH].
Qed.

(** X8. The canonical name holds no separator: whatever the string,
    [getPromptName] returns text without '/', backslash or ':', so that
    the file name built from it names a file directly inside the
    directory it is joined to. *)
Theorem getPromptName_no_separator (prompt : string) :
  freeOf isPathSeparator (getPromptName prompt) = true
  /\ Js.includes (getPromptName prompt) "/" = false
  /\ Js.includes (getPromptName prompt) "\" = false
  /\ Js.includes (getPromptName prompt) ":" = false.
Proof.
  assert (F : freeOf isPathSeparator (getPromptName prompt) = true).
  { unfold getPromptName. pose proof (lastOf_free isPathSeparator prompt) as L.
    destruct (Js.endsWith _ _).
    - now apply freeOf_replace_empty.
    - now apply freeOf_removeLastExtension. }
  split; [exact F|].
  assert (G : forall c, isPathSeparator c = true ->
                        Js.includes (getPromptName prompt) (String c "") = false).
  { intros c Hc. apply includes_free.
    induction (getPromptName prompt) as [|x s IH]; [reflexivity|].
    cbn [freeOf] in *. apply andb_prop in F as [Hx Hs]. rewrite (IH Hs), andb_true_r.
    destruct (Ascii.eqb c x) eqn:E; [|reflexivity].
    apply Ascii.eqb_eq in E as <-. now rewrite Hc in Hx. }
  repeat split; apply G; reflexivity.
Qed.

(** X9. A scheme tag other than "ado" and "gh" is reported as it was
    written: when the text before the first ':' is neither, and none of
    the earlier cases of [parsePrompt] takes the string, the parse
    fails with the unsupported-platform error carrying that text. *)
Theorem parsePrompt_unsupported_platform (platform body : string) :
  Js.includes platform ":" = false ->
  platform <> "ado" -> platform <> "gh" ->
  Js.startsWith (platform +:+ ":" +:+ body) "mcp." = false ->
  Js.startsWith (platform +:+ ":" +:+ body) "http://" = false ->
  Js.startsWith (platform +:+ ":" +:+ body) "https://" = false ->
  isWindowsAbsolute (platform +:+ ":" +:+ body) = false ->
  Js.startsWith (platform +:+ ":" +:+ body) "/" = false ->
  parsePrompt (platform +:+ ":" +:+ body) = inl (UnsupportedPlatform platform)
  /\ message (UnsupportedPlatform platform) = "Unsupported platform: " +:+ platform.
Proof.
  intros Hplatform Hado Hgh Hmcp Hhttp Hhttps Hwin Hroot. split; [|reflexivity].
  change (platform +:+ ":" +:+ body) with (platform +:+ String ":" body) in *.
  rewrite parsePrompt_scheme; try assumption.
  - cbv zeta. apply String.eqb_neq in Hado, Hgh. now rewrite Hado, Hgh.
  - now rewrite Hhttp, Hhttps.
  - now rewrite Hwin, Hroot.
Qed.

Lemma parsePrompt_unsupported_platform_witness :
  parsePrompt "bitbucket:team/repo/review.md" = inl (UnsupportedPlatform "bitbucket")
  /\ message (UnsupportedPlatform "bitbucket") = "Unsupported platform: bitbucket".
Proof.
  apply (parsePrompt_unsupported_platform "bitbucket" "team/repo/review.md");
    (reflexivity || discriminate).
Defined.

Lemma startsWith_decompose (s p : string) :
  Js.startsWith s p = true -> exists rest, s = p +:+ rest.
Proof.
  unfold Js.startsWith. revert s; induction p as [|c p IH]; intros s H.
  - now exists s.
  - destruct s as [|x s]; [discriminate|]. cbn [String.prefix] in H.
    destruct (ascii_dec c x) as [->|]; [|discriminate].
    destruct (IH s H) as [rest ->]. now exists rest.
Qed.

(** X10. A string without ':' that begins neither with "mcp." nor with
    '/' is the name of an installed prompt, taken as it stands: no
    extension is added and nothing is removed. *)
Theorem parsePrompt_installed (prompt : string) :
  Js.includes prompt ":" = false ->
  Js.startsWith prompt "mcp." = false ->
  Js.startsWith prompt "/" = false ->
  parsePrompt prompt = inr (ParsedPrompt.bare ParsedPrompt.installed prompt).
Proof.
  intros Hcolon Hmcp Hroot. unfold parsePrompt. rewrite Hmcp, Hroot, Hcolon.
  assert (Hhttp : Js.startsWith prompt "http://" = false).
  { destruct (Js.startsWith prompt "http://") eqn:E; [|reflexivity].
    apply startsWith_decompose in E as [rest ->].
    change ("http://" +:+ rest) with ("http" +:+ String ":" ("//" +:+ rest)) in Hcolon.
    now rewrite includes_occurrence in Hcolon. }
  assert (Hhttps : Js.startsWith prompt "https://" = false).
  { destruct (Js.startsWith prompt "https://") eqn:E; [|reflexivity].
    apply startsWith_decompose in E as [rest ->].
    change ("https://" +:+ rest) with ("https" +:+ String ":" ("//" +:+ rest)) in Hcolon.
    now rewrite includes_occurrence in Hcolon. }
  assert (Hwin : isWindowsAbsolute prompt = false).
  { destruct prompt as [|c0 [|c1 [|c2 rest]]]; try reflexivity.
    cbn [isWindowsAbsolute]. destruct (Ascii.eqb c1 ":") eqn:E.
    - apply Ascii.eqb_eq in E as ->.
      change (String c0 (String ":" (String c2 rest)))
        with (String c0 "" +:+ String ":" (String c2 rest)) in Hcolon.
      now rewrite includes_occurrence in Hcolon.
    - now rewrite andb_false_r. }
  now rewrite Hhttp, Hhttps, Hwin.
Qed.

Lemma parsePrompt_installed_witness :
  parsePrompt "code-review.v2" = inr (ParsedPrompt.bare ParsedPrompt.installed "code-review.v2").
Proof. apply (parsePrompt_installed "code-review.v2"); reflexivity. Defined.

End ParsedFacts.

(* ===================================================================== *)
(** * Properties: the layout of long paths                                *)
(* ===================================================================== *)

Section DialogFacts.
Import UserDialogs.

(** What the scan of [lastIndexOf] finds: nothing up to [fromIndex], or
    the last occurrence there. *)
Lemma lastIndexFrom_spec (c : ascii) (n : nat) (s : string) :
  forall (i : nat) (found : Z),
    (lastIndexFrom c n s i found = found
     /\ forall p, (i + p <= n)%nat -> String.get p s <> Some c)
    \/ exists p, lastIndexFrom c n s i found = Z.of_nat (i + p)
                 /\ (i + p <= n)%nat /\ String.get p s = Some c
                 /\ forall q, (p < q)%nat -> (i + q <= n)%nat -> String.get q s <> Some c.
Proof.
  induction s as [|x r IH]; intros i found.
  - left. split; [reflexivity|]. intros p _. now destruct p.
  - cbn [lastIndexFrom]. destruct (Nat.leb_spec i n) as [Hle|Hgt].
    + destruct (IH (S i) (if Ascii.eqb x c then Z.of_nat i else found))
        as [[E Hnone]|(p & E & Hp & Hget & Hafter)].
      * destruct (Ascii.eqb x c) eqn:Exc.
        -- apply Ascii.eqb_eq in Exc as ->. right. exists 0%nat.
           rewrite E, Nat.add_0_r. repeat split; [assumption|].
           intros [|q] Hq Hle'; [lia|]. cbn [String.get]. apply Hnone. lia.
        -- left. split; [exact E|]. intros [|p] Hp; cbn [String.get].
           ++ intros [= ->]. now rewrite Ascii.eqb_refl in Exc.
           ++ apply Hnone. lia.
      * right. exists (S p). rewrite E. replace (i + S p)%nat with (S i + p)%nat by lia.
        repeat split; [assumption | exact Hget |].
        intros [|q] Hq Hle'; [lia|]. cbn [String.get]. apply Hafter; lia.
    + left. split; [reflexivity|]. intros p Hp. lia.
Qed.

Lemma lastIndexOf_spec (s : string) (c : ascii) (n : nat) :
  (lastIndexOf s c n = -1 /\ forall p, (p <= n)%nat -> String.get p s <> Some c)
  \/ exists p, lastIndexOf s c n = Z.of_nat p /\ (p <= n)%nat /\ String.get p s = Some c
               /\ forall q, (p < q <= n)%nat -> String.get q s <> Some c.
Proof.
  unfold lastIndexOf.
  destruct (lastIndexFrom_spec c n s 0 (-1)) as [[E H]|(p & E & Hp & Hget & Hafter)].
  - left. split; [exact E|]. intros p Hp. now apply H.
  - right. exists p. repeat split; try assumption.
    intros q [Hq Hq']. now apply Hafter.
Qed.

Lemma isSeparator_cases (c : ascii) :
  isSeparator c = true <-> c = "/"%char \/ c = "\"%char.
Proof.
  unfold isSeparator, separators. cbn [existsb]. rewrite orb_false_r, orb_true_iff.
  now rewrite !Ascii.eqb_eq.
Qed.

(** What the loop over the separators finds: no separator up to the
    limit, or the last one there. *)
Lemma findSplitIndex_cases (r : string) :
  let n := (Nat.min (Js.len r) maxLineLength - 1)%nat in
  (findSplitIndex r = -1
   /\ forall q x, (q <= n)%nat -> String.get q r = Some x -> isSeparator x = false)
  \/ exists k c, findSplitIndex r = Z.of_nat k /\ (k <= n)%nat
                 /\ String.get k r = Some c /\ isSeparator c = true
                 /\ forall q x, (k < q <= n)%nat -> String.get q r = Some x ->
                                isSeparator x = false.
Proof.
  intros n. unfold findSplitIndex, separators. cbn [fold_left]. fold n.
  assert (Hsep : forall x, isSeparator x = false \/ x = "/"%char \/ x = "\"%char).
  { intros x. destruct (isSeparator x) eqn:E; [right; now apply isSeparator_cases | now left]. }
  destruct (lastIndexOf_spec r "/" n) as [[E1 H1]|(p1 & E1 & Hp1 & G1 & A1)];
    destruct (lastIndexOf_spec r "\" n) as [[E2 H2]|(p2 & E2 & Hp2 & G2 & A2)];
    rewrite E1, E2.
  - left. split; [reflexivity|]. intros q x Hq Hx.
    destruct (Hsep x) as [|[->| ->]]; [assumption | now apply H1 in Hx | now apply H2 in Hx].
  - right. exists p2, "\"%char. split; [|repeat split; try assumption].
    + cbn. destruct (Z.of_nat p2 >? -1) eqn:E; [reflexivity | lia].
    + intros q x Hq Hx.
      destruct (Hsep x) as [|[->| ->]];
        [assumption | apply H1 in Hx; [contradiction | lia] | now apply A2 in Hx].
  - right. exists p1, "/"%char. split; [|repeat split; try assumption].
    + replace (Z.of_nat p1 >? -1) with true by (symmetry; apply Z.gtb_gt; lia).
      replace (-1 >? Z.of_nat p1) with false by (symmetry; rewrite Z.gtb_ltb; apply Z.ltb_ge; lia).
      reflexivity.
    + intros q x Hq Hx.
      destruct (Hsep x) as [|[->| ->]];
        [assumption | now apply A1 in Hx | apply H2 in Hx; [contradiction | lia]].
  - replace (Z.of_nat p1 >? -1) with true by (symmetry; apply Z.gtb_gt; lia).
    destruct (Z.of_nat p2 >? Z.of_nat p1) eqn:E.
    + apply Z.gtb_gt in E. right. exists p2, "\"%char. repeat split; try assumption.
      intros q x Hq Hx.
      destruct (Hsep x) as [|[->| ->]];
        [assumption | apply A1 in Hx; [contradiction | lia] | now apply A2 in Hx].
    + rewrite Z.gtb_ltb in E. apply Z.ltb_ge in E. right. exists p1, "/"%char.
      repeat split; try assumption.
      intros q x Hq Hx.
      destruct (Hsep x) as [|[->| ->]];
        [assumption | now apply A1 in Hx | apply A2 in Hx; [contradiction | lia]].
Qed.

(** The line break goes in front of the last separator among the first
    seventy code units. *)
Lemma findSplitIndex_at (r : string) (k : nat) (c : ascii) :
  (maxLineLength < Js.len r)%nat -> (k <= 69)%nat ->
  String.get k r = Some c -> isSeparator c = true ->
  (forall q x, (k < q <= 69)%nat -> String.get q r = Some x -> isSeparator x = false) ->
  findSplitIndex r = Z.of_nat k.
Proof.
  intros Hlen Hk Hget Hc Hafter.
  pose proof (findSplitIndex_cases r) as H. cbv zeta in H.
  replace (Nat.min (Js.len r) maxLineLength - 1)%nat with 69%nat in H
    by (unfold maxLineLength in *; lia).
  destruct H as [[_ Hnone]|(k' & c' & E & Hk' & Hget' & Hc' & Hafter')].
  - rewrite (Hnone k c Hk Hget) in Hc. discriminate.
  - rewrite E. f_equal.
    destruct (Nat.lt_trichotomy k k') as [Hlt|[->|Hgt]]; [|reflexivity|].
    + rewrite (Hafter k' c' ltac:(lia) Hget') in Hc'. discriminate.
    + rewrite (Hafter' k c ltac:(lia) Hget) in Hc. discriminate.
Qed.

Lemma length_substring (k : nat) (s : string) :
  (Js.len (String.substring 0 k s) <= k)%nat.
Proof.
  unfold Js.len. revert s; induction k as [|k IH]; intros [|c s]; cbn; try lia.
  specialize (IH s). lia.
Qed.

Lemma len_skip (k : nat) (s : string) : Js.len (Js.skip k s) = (Js.len s - k)%nat.
Proof.
  unfold Js.len. revert s; induction k as [|k IH]; intros [|c s]; cbn; try lia. apply IH.
Qed.

(** A turn cuts the path in two, the first piece within the limit. *)
Lemma turn_pieces (r : string) :
  exists k, (k <= maxLineLength)%nat
            /\ turn r = (String.substring 0 k r, Js.skip k r).
Proof.
  unfold turn. pose proof (findSplitIndex_cases r) as H. cbv zeta in H.
  destruct H as [[E _]|(k & c & E & Hk & _)]; rewrite E.
  - exists maxLineLength. split; [lia | reflexivity].
  - exists k. split; [unfold maxLineLength in *; lia|].
    replace (Z.of_nat k =? -1) with false by (symmetry; apply Z.eqb_neq; lia).
    now rewrite Nat2Z.id.
Qed.

Lemma join_empty_snoc (lines : list string) (x : string) :
  Js.join (lines ++ [x]) "" = Js.join lines "" +:+ x.
Proof.
  unfold Js.join. induction lines as [|a [|b l] IH]; [reflexivity | |].
  - reflexivity.
  - change (String.concat "" ((a :: b :: l) ++ [x]))
      with (a +:+ String.concat "" ((b :: l) ++ [x])).
    rewrite IH. change (String.concat "" (a :: b :: l)) with (a +:+ String.concat "" (b :: l)).
    now rewrite app_assoc.
Qed.

(** The lines the loop produces are the path cut into pieces within
    the limit. *)
Lemma wrap_pieces (fuel : nat) :
  forall (r : string) (lines out : list string),
    wrap fuel r lines = Some out ->
    Js.join out "" = Js.join lines "" +:+ r
    /\ (Forall (fun l => (Js.len l <= maxLineLength)%nat) lines ->
        Forall (fun l => (Js.len l <= maxLineLength)%nat) out).
Proof.
  assert (Hend : forall r lines out,
             (maxLineLength <? Js.len r)%nat = false ->
             Some (if (0 <? Js.len r)%nat then lines ++ [r] else lines) = Some out ->
             Js.join out "" = Js.join lines "" +:+ r
             /\ (Forall (fun l => (Js.len l <= maxLineLength)%nat) lines ->
                 Forall (fun l => (Js.len l <= maxLineLength)%nat) out)).
  { intros r lines out Hshort [= <-]. apply Nat.ltb_ge in Hshort.
    destruct (Nat.ltb_spec 0 (Js.len r)) as [Hpos|Hzero].
    - split; [apply join_empty_snoc|].
      intros F. apply Forall_app. split; [exact F|].
      constructor; [exact Hshort | constructor].
    - destruct r; [|cbn in Hzero; lia]. now rewrite app_empty_r. }
  induction fuel as [|fuel IH]; intros r lines out; cbn [wrap];
    destruct (maxLineLength <? Js.len r)%nat eqn:Hlong; try (now apply Hend);
    [discriminate|].
  destruct (turn_pieces r) as (k & Hk & ->). intros H.
  destruct (IH _ _ _ H) as [J F]. split.
  - rewrite J, join_empty_snoc, app_assoc. now rewrite <- skip_split.
  - intros Flines. apply F, Forall_app. split; [exact Flines|].
    constructor; [|constructor]. pose proof (length_substring k r). lia.
Qed.

(** X11. What [formatLongPath] returns, when it returns: the path cut
    into lines of at most seventy code units, joined by line feeds.
    Nothing of the path is lost and nothing is added: the lines put
    together again are the path. *)
Theorem formatLongPath_pieces (fuel : nat) (pathOrUrl formatted : string) :
  formatLongPath fuel pathOrUrl = Some formatted ->
  exists lines,
    formatted = Js.join lines (String "010" "")
    /\ Js.join lines "" = pathOrUrl
    /\ Forall (fun l => (Js.len l <= maxLineLength)%nat) lines.
Proof.
  unfold formatLongPath. destruct (Nat.leb_spec (Js.len pathOrUrl) maxLineLength) as [Hle|Hgt].
  - intros [= <-]. exists [pathOrUrl]. repeat split.
    constructor; [exact Hle | constructor].
  - destruct (wrap fuel pathOrUrl []) as [lines|] eqn:E; [|discriminate].
    intros [= <-]. exists lines. destruct (wrap_pieces _ _ _ _ E) as [J F].
    repeat split; [exact J | apply F; constructor].
Qed.

Lemma formatLongPath_pieces_witness :
  exists lines,
    "https://github.com/acme/prompts/blob/main/reviews/security/checklists" +:+ String "010"
    "/code-review.prompt.md"
    = Js.join lines (String "010" "")
    /\ Js.join lines ""
       = "https://github.com/acme/prompts/blob/main/reviews/security/checklists/code-review.prompt.md"
    /\ Forall (fun l => (Js.len l <= maxLineLength)%nat) lines.
Proof.
  apply (formatLongPath_pieces 1
    "https://github.com/acme/prompts/blob/main/reviews/security/checklists/code-review.prompt.md").
  vm_compute. reflexivity.
Defined.

Lemma get_app_len (a b : string) (x : ascii) :
  String.get (Js.len a) (a +:+ String x b) = Some x.
Proof. unfold Js.len. induction a as [|c a IH]; cbn; auto. Qed.

Lemma get_app_right (a b : string) (q : nat) :
  String.get (Js.len a + q) (a +:+ b) = String.get q b.
Proof. unfold Js.len. induction a as [|c a IH]; cbn; auto. Qed.

Lemma get_app_left (a b : string) (q : nat) :
  (q < Js.len a)%nat -> String.get q (a +:+ b) = String.get q a.
Proof.
  unfold Js.len. revert q; induction a as [|c a IH]; intros q Hq; cbn in *; [lia|].
  destruct q; [reflexivity|]. apply IH. lia.
Qed.

Lemma get_free (sep : ascii -> bool) (s : string) (q : nat) (x : ascii) :
  freeOf sep s = true -> String.get q s = Some x -> sep x = false.
Proof.
  revert q; induction s as [|c s IH]; intros q F G; [now destruct q|].
  cbn [freeOf] in F. apply andb_prop in F as [Fc Fs].
  destruct q; cbn [String.get] in G.
  - injection G as <-. now apply negb_true_iff.
  - now apply (IH q).
Qed.

(** A path that begins with a separator and goes on without one for
    the next sixty-nine code units is cut in front of that separator:
    the turn pushes an empty line and leaves the path as it was. *)
Lemma turn_stuck (c : ascii) (seg rest : string) :
  isSeparator c = true -> freeOf isSeparator seg = true ->
  (69 <= Js.len seg)%nat -> (70 <= Js.len seg + Js.len rest)%nat ->
  turn (String c (seg +:+ rest)) = ("", String c (seg +:+ rest)).
Proof.
  intros Hc Hseg Hlen Hall. unfold turn.
  rewrite (findSplitIndex_at _ 0 c); try assumption; try reflexivity; try lia.
  - unfold Js.len, maxLineLength in *. cbn [String.length].
    change (String.length (seg +:+ rest)) with (Js.len (seg +:+ rest)).
    rewrite len_app. unfold Js.len. lia.
  - intros [|q] x Hq G; [lia|]. cbn [String.get] in G.
    rewrite get_app_left in G by lia. now apply (get_free _ _ _ _ Hseg G).
Qed.

Lemma wrap_stuck (fuel : nat) (r : string) :
  (maxLineLength < Js.len r)%nat -> turn r = ("", r) ->
  forall lines, wrap fuel r lines = None.
Proof.
  intros Hlen Hturn. apply Nat.ltb_lt in Hlen.
  induction fuel as [|fuel IH]; intros lines; cbn [wrap]; rewrite Hlen; [reflexivity|].
  rewrite Hturn. apply IH.
Qed.

(** X12. [formatLongPath] does not return on a path that has, behind a
    separator among its first seventy code units, a stretch of
    sixty-nine or more code units without separator (and seventy or
    more code units in all behind that separator): after the cut in
    front of that separator, every turn of the loop pushes an empty
    line and leaves the rest as it was, whatever the number of turns. *)
Theorem formatLongPath_never_returns (dir seg rest : string) (c : ascii) :
  isSeparator c = true -> freeOf isSeparator seg = true ->
  (Js.len dir <= 69)%nat -> (69 <= Js.len seg)%nat ->
  (70 <= Js.len seg + Js.len rest)%nat ->
  forall fuel, formatLongPath fuel (dir +:+ String c (seg +:+ rest)) = None.
Proof.
  intros Hc Hseg Hdir Hlen Hall fuel.
  assert (Hstuck : forall fuel lines, wrap fuel (String c (seg +:+ rest)) lines = None).
  { intros f lines. apply wrap_stuck; [|now apply turn_stuck].
    unfold Js.len, maxLineLength in *. cbn [String.length].
    change (String.length (seg +:+ rest)) with (Js.len (seg +:+ rest)).
    rewrite len_app. unfold Js.len. lia. }
  assert (Hlong : (maxLineLength < Js.len (dir +:+ String c (seg +:+ rest)))%nat).
  { rewrite len_app. unfold Js.len at 2. cbn [String.length].
    change (String.length (seg +:+ rest)) with (Js.len (seg +:+ rest)).
    rewrite len_app. unfold maxLineLength. lia. }
  unfold formatLongPath.
  replace (Js.len (dir +:+ String c (seg +:+ rest)) <=? maxLineLength)%nat with false
    by (symmetry; apply Nat.leb_gt; exact Hlong).
  destruct fuel as [|fuel]; cbn [wrap];
    replace (maxLineLength <? Js.len (dir +:+ String c (seg +:+ rest)))%nat with true
      by (symmetry; apply Nat.ltb_lt; exact Hlong); [reflexivity|].
  unfold turn. rewrite (findSplitIndex_at _ (Js.len dir) c); try assumption.
  - replace (Z.of_nat (Js.len dir) =? -1) with false by (symmetry; apply Z.eqb_neq; lia).
    rewrite Nat2Z.id, skip_app. now rewrite Hstuck.
  - apply get_app_len.
  - intros q x Hq G.
    replace q with (Js.len dir + S (q - Js.len dir - 1))%nat in G by lia.
    rewrite get_app_right in G. cbn [String.get] in G.
    rewrite get_app_left in G by lia. now apply (get_free _ _ _ _ Hseg G).
Qed.

Lemma formatLongPath_never_returns_witness :
  formatLongPath 1000
    ("https://example.com/prompts" +:+
     String "/" ("a-prompt-file-whose-name-runs-to-seventy-code-units-or-more-in-all.prompt.md"
                 +:+ "")) = None.
Proof.
  apply (formatLongPath_never_returns "https://example.com/prompts"
           "a-prompt-file-whose-name-runs-to-seventy-code-units-or-more-in-all.prompt.md"
           "" "/"); vm_compute; (reflexivity || lia || (intros; discriminate)).
Defined.

End DialogFacts.

Section DialogTermination.
Import UserDialogs.

(** The first segment of a split ends the string or stands in front of
    a separator. *)
Lemma splitBy_first (sep : ascii -> bool) (t : string) :
  forall h l, Js.splitBy sep t = h :: l ->
    (l = [] /\ t = h) \/ exists x t', t = h +:+ String x t' /\ sep x = true.
Proof.
  induction t as [|y t IH]; intros h l E.
  - injection E as <- <-. now left.
  - cbn [Js.splitBy] in E. destruct (sep y) eqn:Hy.
    + injection E as <- <-. right. now exists y, t.
    + destruct (Js.splitBy sep t) as [|h' l'] eqn:E'.
      { now apply splitBy_nonempty in E'. }
      injection E as <- <-.
      destruct (IH h' l' eq_refl) as [[-> ->]|(x & t' & -> & Hx)]; [now left|].
      right. now exists x, t'.
Qed.

Lemma shortSegments_tail (sep : ascii -> bool) (n : nat) (y : ascii) (t : string) :
  Forall (fun seg => (Js.len seg < n)%nat) (Js.splitBy sep (String y t)) ->
  Forall (fun seg => (Js.len seg < n)%nat) (Js.splitBy sep t).
Proof.
  cbn [Js.splitBy]. destruct (sep y).
  - intros F. now inversion F.
  - destruct (Js.splitBy sep t) as [|h l]; [constructor|].
    intros F. inversion F as [|? ? Hh Hl]; subst. constructor; [|exact Hl].
    unfold Js.len in *. cbn in Hh. lia.
Qed.

Lemma shortSegments_skip (sep : ascii -> bool) (n k : nat) (s : string) :
  Forall (fun seg => (Js.len seg < n)%nat) (Js.splitBy sep s) ->
  Forall (fun seg => (Js.len seg < n)%nat) (Js.splitBy sep (Js.skip k s)).
Proof.
  revert s; induction k as [|k IH]; intros [|y s] F; cbn [Js.skip]; try assumption.
  apply IH. now apply shortSegments_tail in F.
Qed.

(** Among segments shorter than sixty-nine code units, a separator
    stands among the sixty-nine code units behind the first. *)
Lemma shortSegments_turn (r : string) :
  Forall (fun seg => (Js.len seg < 69)%nat) (Js.splitBy isSeparator r) ->
  (maxLineLength < Js.len r)%nat ->
  exists k c, (1 <= k <= 69)%nat /\ String.get k r = Some c /\ isSeparator c = true
              /\ turn r = (String.substring 0 k r, Js.skip k r).
Proof.
  intros F Hlen. destruct r as [|y t]; [cbn in Hlen; lia|].
  apply shortSegments_tail in F.
  assert (Ht : (70 <= Js.len t)%nat) by (unfold Js.len, maxLineLength in *; cbn in Hlen; lia).
  destruct (Js.splitBy isSeparator t) as [|h l] eqn:E; [now apply splitBy_nonempty in E|].
  inversion F as [|? ? Hh _]; subst.
  destruct (splitBy_first _ _ _ _ E) as [[_ ->]|(x & t' & -> & Hx)]; [lia|].
  pose proof (findSplitIndex_cases (String y (h +:+ String x t'))) as H. cbv zeta in H.
  replace (Nat.min (Js.len (String y (h +:+ String x t'))) maxLineLength - 1)%nat
    with 69%nat in H by (unfold maxLineLength in *; lia).
  assert (G : String.get (S (Js.len h)) (String y (h +:+ String x t')) = Some x)
    by (cbn [String.get]; apply get_app_len).
  destruct H as [[_ Hnone]|(k & c & Ek & Hk & Hget & Hc & Hafter)].
  - rewrite (Hnone (S (Js.len h)) x ltac:(lia) G) in Hx. discriminate.
  - assert (S (Js.len h) <= k)%nat.
    { destruct (Nat.le_gt_cases (S (Js.len h)) k) as [|Hlt]; [assumption|].
      rewrite (Hafter (S (Js.len h)) x ltac:(lia) G) in Hx. discriminate. }
    exists k, c. repeat split; try assumption; try lia.
    unfold turn. rewrite Ek.
    replace (Z.of_nat k =? -1) with false by (symmetry; apply Z.eqb_neq; lia).
    now rewrite Nat2Z.id.
Qed.

Lemma skip_get (k : nat) (s : string) (c : ascii) :
  String.get k s = Some c -> exists s', Js.skip k s = String c s'.
Proof.
  revert s; induction k as [|k IH]; intros [|y s] G; try discriminate; cbn in *.
  - injection G as ->. now exists s.
  - now apply IH.
Qed.

(** Among short segments the loop ends, and every line but the first
    begins with the separator it was cut in front of. *)
Lemma wrap_breaks (fuel : nat) :
  forall (r : string) (lines : list string),
    Forall (fun seg => (Js.len seg < 69)%nat) (Js.splitBy isSeparator r) ->
    (Js.len r <= fuel)%nat ->
    (lines = [] \/ exists c r', r = String c r' /\ isSeparator c = true) ->
    Forall (fun l => exists c l', l = String c l' /\ isSeparator c = true) (tl lines) ->
    exists out, wrap fuel r lines = Some out
                /\ Forall (fun l => exists c l', l = String c l' /\ isSeparator c = true) (tl out).
Proof.
  assert (Hsnoc : forall (lines : list string) (x : string) (c : ascii) (x' : string),
             Forall (fun l => exists c l', l = String c l' /\ isSeparator c = true) (tl lines) ->
             (lines = [] \/ (x = String c x' /\ isSeparator c = true)) ->
             Forall (fun l => exists c l', l = String c l' /\ isSeparator c = true)
                    (tl (lines ++ [x]))).
  { intros [|a l] x c x' F H; [constructor|]. cbn [tl app] in *.
    destruct H as [|[-> Hc]]; [discriminate|].
    apply Forall_app. split; [exact F|]. constructor; [|constructor]. now exists c, x'. }
  induction fuel as [|fuel IH]; intros r lines F Hfuel Hstart Htl; cbn [wrap];
    destruct (Nat.ltb_spec maxLineLength (Js.len r)) as [Hlong|Hshort];
    try (unfold maxLineLength in *; lia).
  - eexists. split; [reflexivity|]. destruct (0 <? Js.len r)%nat; [|exact Htl].
    destruct Hstart as [->|(c & r' & -> & Hc)]; [constructor|].
    apply (Hsnoc lines _ c r' Htl). now right.
  - destruct (shortSegments_turn r F Hlong) as (k & c & Hk & Hget & Hc & ->).
    destruct (skip_get _ _ _ Hget) as [s' Hs'].
    apply IH.
    + now apply shortSegments_skip.
    + rewrite len_skip. lia.
    + right. now exists c, s'.
    + destruct Hstart as [->|(c0 & r' & -> & Hc0)]; [constructor|].
      destruct k as [|k]; [lia|]. cbn [String.substring].
      apply (Hsnoc lines _ c0 (String.substring 0 k r') Htl). now right.
  - eexists. split; [reflexivity|]. destruct (0 <? Js.len r)%nat; [|exact Htl].
    destruct Hstart as [->|(c & r' & -> & Hc)]; [constructor|].
    apply (Hsnoc lines _ c r' Htl). now right.
Qed.

(** X13. [formatLongPath] returns on every path whose segments between
    separators are all shorter than sixty-nine code units, within as
    many turns as the path has code units.  The lines it returns are
    the path cut into pieces of at most seventy code units, and every
    cut is made in front of a separator: each line but the first begins
    with one. *)
Theorem formatLongPath_short_segments (pathOrUrl : string) :
  Forall (fun seg => (Js.len seg < 69)%nat) (Js.splitBy isSeparator pathOrUrl) ->
  exists lines,
    formatLongPath (Js.len pathOrUrl) pathOrUrl = Some (Js.join lines (String "010" ""))
    /\ Js.join lines "" = pathOrUrl
    /\ Forall (fun l => (Js.len l <= maxLineLength)%nat) lines
    /\ Forall (fun l => exists c l', l = String c l' /\ isSeparator c = true) (tl lines).
Proof.
  intros F. unfold formatLongPath.
  destruct (Nat.leb_spec (Js.len pathOrUrl) maxLineLength) as [Hle|Hgt].
  - exists [pathOrUrl]. repeat split; [|constructor].
    constructor; [exact Hle | constructor].
  - destruct (wrap_breaks (Js.len pathOrUrl) pathOrUrl [] F (le_n _) (or_introl eq_refl)
                ltac:(constructor)) as (out & E & B).
    rewrite E. exists out. destruct (wrap_pieces _ _ _ _ E) as [J P].
    repeat split; [exact J | apply P; constructor | exact B].
Qed.

Lemma formatLongPath_short_segments_witness :
  exists lines,
    formatLongPath 91
      "https://github.com/acme/prompts/blob/main/reviews/security/checklists/code-review.prompt.md"
    = Some (Js.join lines (String "010" ""))
    /\ Js.join lines ""
       = "https://github.com/acme/prompts/blob/main/reviews/security/checklists/code-review.prompt.md"
    /\ Forall (fun l => (Js.len l <= maxLineLength)%nat) lines
    /\ Forall (fun l => exists c l', l = String c l' /\ isSeparator c = true) (tl lines).
Proof.
  apply (formatLongPath_short_segments
    "https://github.com/acme/prompts/blob/main/reviews/security/checklists/code-review.prompt.md").
  vm_compute. repeat (constructor; [lia|]). constructor.
Defined.

End DialogTermination.

(* ===================================================================== *)
(** * Properties: src/copilotExecutor.ts                                  *)
(* ===================================================================== *)

Section ExecutorFacts.
Import Eff CopilotExecutor.
Context {host : Host}.

Lemma attempts_app (newer older : list Event) :
  attempts (newer ++ older) = attempts older ++ attempts newer.
Proof. unfold attempts. now rewrite rev_app_distr, omap_app. Qed.

(** What running a command does: one event, and the failure passed on. *)
Lemma run_result (command : string) (argument : option string) (w : World) :
  run command argument w
  = (match executeCommand (trace w) command argument with
     | Some e => Threw e
     | None => Returned tt
     end,
     mkWorld (chatCommand w) (copilotChatCommand w)
       (ExecuteCommand command argument
          (match executeCommand (trace w) command argument with
           | None => true
           | Some _ => false
           end) :: trace w)).
Proof.
  unfold run, ask, emit. cbv [mbind eff_bind bind get mret eff_ret ret modify throw].
  cbn [trace]. now destruct (executeCommand (trace w) command argument).
Qed.

(** [updateChatCommandSetting] always returns, with the field set; it
    runs no command. *)
Lemma updateChatCommandSetting_result (newCommand : string) (w : World) :
  exists w' extra,
    updateChatCommandSetting newCommand w = (Returned tt, w')
    /\ chatCommand w' = newCommand
    /\ trace w' = extra ++ trace w
    /\ attempts extra = [].
Proof.
  unfold updateChatCommandSetting, ask, emit.
  cbv [mbind eff_bind bind get mret eff_ret ret modify throw tryCatch].
  cbn [trace chatCommand copilotChatCommand].
  destruct (updateFault (trace w) newCommand); eexists; eexists.
  - split; [reflexivity|]. split; [reflexivity|]. split.
    + cbn [trace]. now instantiate (1 := [_; _]).
    + reflexivity.
  - split; [reflexivity|]. split; [reflexivity|]. split.
    + cbn [trace]. now instantiate (1 := [_; _]).
    + reflexivity.
Qed.

(** What the loop over the variants leaves behind, whatever the list
    of variants. *)
Lemma fallback_attempts (content : string) (variants : list string) :
  forall (lastError : thrown) (w : World) (r : outcome unit) (w' : World),
    fallback variants content lastError w = (r, w') ->
    exists new, trace w' = new ++ trace w
      /\ let candidates :=
           List.filter (fun cmd => negb (String.eqb cmd (chatCommand w))) variants in
         match r with
         | Returned _ =>
             exists failed command rest,
               candidates = failed ++ command :: rest
               /\ attempts new = failures content failed ++ [(command, content, true)]
               /\ chatCommand w' = command
         | Threw _ =>
             attempts new = failures content candidates
             /\ chatCommand w' = chatCommand w
         end.
Proof.
  induction variants as [|command rest IH]; intros lastError w r w' H.
  - injection H as <- <-. exists []. now repeat split.
  - cbn [fallback] in H.
    unfold mbind, eff_bind, bind, tryCatch, get in H.
    cbn [List.filter]. 
    destruct (String.eqb command (chatCommand w)) eqn:Q.
    + cbn [negb]. cbv [mret eff_ret ret] in H. now apply IH in H.
    + cbn [negb]. rewrite run_result in H.
      destruct (executeCommand (trace w) command (Some content)) as [e|] eqn:E.
      * cbv [mret eff_ret ret] in H. apply IH in H as (new & Ht & Hr).
        cbn [trace chatCommand] in *.
        exists (new ++ [ExecuteCommand command (Some content) false]).
        split; [now rewrite Ht, <- List.app_assoc|].
        rewrite attempts_app. cbv zeta in Hr.
        destruct r as [[]|e'].
        -- destruct Hr as (failed & c & rest' & Hc & Ha & Hw).
           exists (command :: failed), c, rest'. rewrite Hc, Ha. now repeat split.
        -- destruct Hr as [Ha Hw]. rewrite Ha. now split.
      * destruct (updateChatCommandSetting_result command
                    (mkWorld (chatCommand w) (copilotChatCommand w)
                       (ExecuteCommand command (Some content) true :: trace w)))
          as (w1 & extra & Hu & Hc & Ht & Ha).
        rewrite Hu in H.
        cbv [appendLine emit modify mret eff_ret ret] in H. injection H as <- <-.
        cbn [trace chatCommand] in *.
        exists (AppendLine "promptu: Content sent to Copilot Chat" :: extra
                ++ [ExecuteCommand command (Some content) true]).
        split; [rewrite Ht; cbn [app]; now rewrite <- List.app_assoc|].
        exists [], command, (List.filter (fun cmd => negb (String.eqb cmd (chatCommand w))) rest).
        split; [reflexivity|]. split; [|exact Hc].
        change (AppendLine "promptu: Content sent to Copilot Chat"
                :: extra ++ [ExecuteCommand command (Some content) true])
          with ([AppendLine "promptu: Content sent to Copilot Chat"]
                ++ extra ++ [ExecuteCommand command (Some content) true]).
        rewrite !attempts_app, Ha. reflexivity.
Qed.

Lemma openNewChat_result (w : World) :
  exists w1 opening,
    openNewChat w = (Returned tt, w1)
    /\ trace w1 = opening ++ trace w /\ attempts opening = []
    /\ chatCommand w1 = chatCommand w.
Proof.
  unfold openNewChat, tryCatch. rewrite run_result.
  destruct (executeCommand (trace w) "workbench.action.chat.newChat" None) as [e|].
  - eexists; exists [ConsoleWarn;
                     AppendLine ("promptu: Could not open new chat: " +:+ describe e);
                     ExecuteCommand "workbench.action.chat.newChat" None false].
    now repeat split.
  - eexists; exists [ExecuteCommand "workbench.action.chat.newChat" None true].
    now repeat split.
Qed.

Lemma runConfigured_result (content : string) (w : World) :
  exists first w2 new,
    runConfigured content w = (Returned first, w2)
    /\ trace w2 = new ++ trace w /\ chatCommand w2 = chatCommand w
    /\ attempts new
       = [(chatCommand w, content, match first with None => true | Some _ => false end)].
Proof.
  unfold runConfigured, tryCatch, mbind, eff_bind, bind, get. rewrite run_result.
  destruct (executeCommand (trace w) (chatCommand w) (Some content)) as [e|].
  - exists (Some (toError e)). eexists.
    exists [ExecuteCommand (chatCommand w) (Some content) false]. now repeat split.
  - exists None. eexists.
    exists [AppendLine "promptu: Content sent to Copilot Chat";
            ExecuteCommand (chatCommand w) (Some content) true]. now repeat split.
Qed.

(** What a run of [executeCopilotChatCommand] leaves behind. *)
Lemma chat_attempts (content : string) (w : World) (r : outcome unit) (w' : World) :
  executeCopilotChatCommand content w = (r, w') ->
  exists new, trace w' = new ++ trace w
    /\ match r with
       | Returned _ =>
           exists failed command rest,
             triedCommands (chatCommand w) = failed ++ command :: rest
             /\ attempts new = failures content failed ++ [(command, content, true)]
             /\ chatCommand w' = command
       | Threw _ =>
           attempts new = failures content (triedCommands (chatCommand w))
           /\ chatCommand w' = chatCommand w
       end.
Proof.
  unfold executeCopilotChatCommand, mbind, eff_bind, bind. intros H.
  destruct (openNewChat_result w) as (w1 & opening & E1 & Ht1 & Ha1 & Hc1).
  rewrite E1 in H.
  destruct (runConfigured_result content w1) as (first & w2 & new2 & E2 & Ht2 & Hc2 & Ha2).
  rewrite E2 in H. rewrite Hc1 in *.
  destruct first as [lastError|].
  - apply fallback_attempts in H as (new3 & Ht3 & Hr). cbv zeta in Hr.
    rewrite Hc2 in Hr.
    exists (new3 ++ new2 ++ opening).
    split; [now rewrite Ht3, Ht2, Ht1, <- !List.app_assoc|].
    rewrite !attempts_app, Ha1, Ha2. cbn [app]. unfold triedCommands.
    destruct r as [[]|e].
    + destruct Hr as (failed & c & rest & Hc & Ha & Hw).
      exists (chatCommand w :: failed), c, rest. rewrite Hc, Ha. now repeat split.
    + destruct Hr as [Ha Hw]. rewrite Ha. split; [reflexivity | congruence].
  - injection H as <- <-.
    exists (new2 ++ opening). split; [now rewrite Ht2, Ht1, <- List.app_assoc|].
    exists [], (chatCommand w), (List.filter (fun cmd => negb (String.eqb cmd (chatCommand w)))
                                   defaultCommandVariants).
    rewrite attempts_app, Ha1, Ha2. now repeat split.
Qed.

(** X14. [executeCopilotChatCommand] delivers the content at most once.
    The commands it runs with the content are, in this order, the
    configured command and then the default variants other than it;
    it stops at the first that succeeds, returns, and keeps that command
    in its field for the next call.  It throws only when every one of
    them has been run once and has failed, and then leaves the field as
    it was. *)
Theorem executeCopilotChatCommand_attempts (content : string) (w : World)
    (r : outcome unit) (w' : World) :
  executeCopilotChatCommand content w = (r, w') ->
  exists new, trace w' = new ++ trace w
    /\ match r with
       | Returned _ =>
           exists failed command rest,
             triedCommands (chatCommand w) = failed ++ command :: rest
             /\ attempts new = failures content failed ++ [(command, content, true)]
             /\ chatCommand w' = command
       | Threw _ =>
           attempts new = failures content (triedCommands (chatCommand w))
           /\ chatCommand w' = chatCommand w
       end.
Proof. apply chat_attempts. Qed.

Lemma failures_content (content : string) (commands : list string) :
  Forall (fun a => a.1.2 = content /\ a.2 = false) (failures content commands).
Proof. induction commands; constructor; auto. Qed.

(** X15. [executePrompt] sends one slash command: every command it runs
    with an argument carries '/' and the name of the prompt, followed by
    a space and the input when there is input.  It returns when one of
    them succeeded, which is then the last it ran; when it throws, all
    of them failed and the error says which prompt could not be
    executed. *)
Theorem executePrompt_slash_command (promptName promptInput : string) (w : World)
    (r : outcome unit) (w' : World) :
  executePrompt promptName promptInput w = (r, w') ->
  let slashCommand :=
    match promptInput with
    | EmptyString => "/" +:+ promptName
    | _ => "/" +:+ promptName +:+ " " +:+ promptInput
    end in
  exists new, trace w' = new ++ trace w
    /\ Forall (fun a => a.1.2 = slashCommand) (attempts new)
    /\ match r with
       | Returned _ =>
           exists earlier command,
             attempts new = earlier ++ [(command, slashCommand, true)]
             /\ Forall (fun a => a.2 = false) earlier
       | Threw e =>
           Forall (fun a => a.2 = false) (attempts new)
           /\ exists cause,
                e = newError ("Failed to execute prompt '" +:+ promptName +:+ "': " +:+ cause)
       end.
Proof.
  intros H slashCommand.
  assert (Hslash : slashCommand
                   = if truthy (Some promptInput)
                     then "/" +:+ promptName +:+ " " +:+ promptInput
                     else "/" +:+ promptName) by now destruct promptInput.
  unfold executePrompt, tryCatch in H. rewrite <- Hslash in H.
  destruct (executeCopilotChatCommand slashCommand w) as [r0 w0] eqn:E.
  apply chat_attempts in E as (new & Ht & Hr).
  assert (w0 = w' /\ match r0 with
                     | Returned a => r = Returned a
                     | Threw error =>
                         r = Threw (newError ("Failed to execute prompt '" +:+ promptName
                                              +:+ "': " +:+ messageOf error))
                     end) as [<- Hr0].
  { destruct r0; injection H as <- <-; now split. }
  exists new. split; [exact Ht|].
  pose proof (failures_content slashCommand) as F.
  destruct r0 as [[]|error]; subst r.
  - destruct Hr as (failed & command & rest & _ & Ha & _). rewrite Ha. split.
    + apply Forall_app. split; [|now repeat constructor].
      eapply List.Forall_impl; [|apply F]. now intros a [].
    + exists (failures slashCommand failed), command. split; [reflexivity|].
      eapply List.Forall_impl; [|apply F]. now intros a [].
  - destruct Hr as [Ha _]. rewrite Ha. split; [|split].
    + eapply List.Forall_impl; [|apply F]. now intros a [].
    + eapply List.Forall_impl; [|apply F]. now intros a [].
    + now exists (messageOf error).
Qed.

End ExecutorFacts.

Section ExecutorRuns.
Import Eff Samples CopilotExecutor.

(** The configured command fails, the next variant is the one that was
    configured, the one after it succeeds and is kept. *)
Lemma executeCopilotChatCommand_attempts_witness :
  exists new, trace (snd chatRun) = new ++ trace executorWorld
    /\ exists failed command rest,
         triedCommands (chatCommand executorWorld) = failed ++ command :: rest
         /\ attempts new = failures "Review the code." failed
                           ++ [(command, "Review the code.", true)]
         /\ chatCommand (snd chatRun) = command.
Proof.
  apply (executeCopilotChatCommand_attempts (host := executorHost)
           "Review the code." executorWorld (Returned tt) (snd chatRun)).
  vm_compute. reflexivity.
Defined.

(** No command works: the prompt with its input is offered to each of
    the three commands, and the failure names the prompt. *)
Lemma executePrompt_slash_command_witness :
  exists new, trace (snd promptRun) = new ++ trace executorWorld
    /\ Forall (fun a => a.1.2 = "/code-review src/main.ts") (attempts new)
    /\ Forall (fun a => a.2 = false) (attempts new)
    /\ exists cause,
         fst promptRun = Threw (newError ("Failed to execute prompt 'code-review': " +:+ cause)).
Proof.
  destruct (executePrompt_slash_command (host := deafHost) "code-review" "src/main.ts"
              executorWorld (fst promptRun) (snd promptRun) (surjective_pairing _))
    as (new & Ht & Hall & Hr).
  exists new. split; [exact Ht|]. split; [exact Hall|].
  revert Hr. vm_compute (fst promptRun). intros [Hf (cause & Hc)].
  split; [exact Hf|]. exists cause. f_equal. exact Hc.
Defined.

End ExecutorRuns.

(* ===================================================================== *)
(** * Properties: the prompt store                                        *)
(* ===================================================================== *)

Section StorageFacts.
Import Eff PromptFetcher.
Context {host : Host}.

(** What a call of the file system does. *)
Lemma fsCall_run (call : FsCall) (e : Event) (effect : World -> World) (w : World) :
  fsCall call e effect w
  = match fsFault (trace w) call with
    | Some err => (Threw err, mkWorld (files w) (promptFilesLocations w) (e :: trace w))
    | None => (Returned tt, effect (mkWorld (files w) (promptFilesLocations w) (e :: trace w)))
    end.
Proof.
  unfold fsCall, ask, emit. cbv [mbind eff_bind bind mret eff_ret ret throw modify].
  now destruct (fsFault (trace w) call).
Qed.

Lemma getLocation_setLocation (dir : string) (locations : list (string * bool)) :
  getLocation dir (setLocation dir locations) = true.
Proof.
  induction locations as [|[k v] rest IH]; cbn [setLocation getLocation].
  - now rewrite String.eqb_refl.
  - destruct (String.eqb k dir) eqn:E; cbn [getLocation]; now rewrite E.
Qed.

Lemma getLocation_setLocation_other (dir other : string) (locations : list (string * bool)) :
  other <> dir ->
  getLocation other (setLocation dir locations) = getLocation other locations.
Proof.
  intros Hne. induction locations as [|[k v] rest IH]; cbn [setLocation getLocation].
  - apply String.eqb_neq in Hne. now rewrite String.eqb_sym, Hne.
  - destruct (String.eqb k dir) eqn:E; cbn [getLocation].
    + apply String.eqb_eq in E as ->.
      apply String.eqb_neq in Hne. now rewrite String.eqb_sym, Hne.
    + now rewrite IH.
Qed.

(** The runs of [ensurePromptsDirectory]. *)
Lemma ensurePromptsDirectory_run (w : World) (r : outcome string) (w' : World) :
  ensurePromptsDirectory w = (r, w') ->
  let promptsDir := pathJoin globalStoragePath "prompts" in
  files w' = files w
  /\ (exists new, trace w' = new ++ trace w /\ existsb isFetchOrWrite new = false
                  /\ existsb isCopy new = false)
  /\ match r with
     | Returned dir =>
         dir = promptsDir
         /\ getLocation promptsDir (locationsOf w') = true
         /\ (forall other, other <> promptsDir ->
               getLocation other (locationsOf w') = getLocation other (locationsOf w))
         /\ (getLocation promptsDir (locationsOf w) = true ->
               promptFilesLocations w' = promptFilesLocations w
               /\ trace w' = CreateDirectory promptsDir :: trace w)
     | Threw e =>
         promptFilesLocations w' = promptFilesLocations w
         /\ exists cause, e = newError ("Failed to setup prompts directory: " +:+ cause)
     end.
Proof.
  unfold ensurePromptsDirectory. cbv zeta. set (promptsDir := pathJoin _ _).
  unfold tryCatch, mbind, eff_bind, bind. rewrite fsCall_run.
  destruct (fsFault (trace w) FsCreateDirectory) as [err|].
  { intros [= <- <-]. cbn. split; [reflexivity|]. split; [now exists [CreateDirectory promptsDir]|].
    split; [reflexivity|]. now exists (messageOf err). }
  cbv [get]. cbn [promptFilesLocations].
  fold (locationsOf w).
  destruct (getLocation promptsDir (locationsOf w)) eqn:Hreg; cbn [negb].
  - intros [= <- <-]. cbn. split; [reflexivity|].
    split; [now exists [CreateDirectory promptsDir]|].
    split; [reflexivity|]. split; [exact Hreg|]. now repeat split.
  - rewrite fsCall_run. cbn [trace files promptFilesLocations].
    destruct (fsFault (CreateDirectory promptsDir :: trace w) FsUpdate) as [err|].
    + intros [= <- <-]. cbn. split; [reflexivity|].
      split; [now exists [UpdateSetting (setLocation promptsDir (locationsOf w));
                          CreateDirectory promptsDir]|].
      split; [reflexivity|]. now exists (messageOf err).
    + intros [= <- <-]. cbn. split; [reflexivity|].
      split; [now exists [ShowInformationMessage;
                          UpdateSetting (setLocation promptsDir (locationsOf w));
                          CreateDirectory promptsDir]|].
      split; [reflexivity|]. split; [apply getLocation_setLocation|].
      split; [|discriminate].
      intros other Hne. now apply getLocation_setLocation_other.
Qed.


(** X16. [ensurePromptsDirectory] registers the prompts directory and
    nothing else.  No file is touched.  When it returns, it returns the
    directory 'prompts' of the global storage, that directory is
    registered in [chat.promptFilesLocations], and every other
    registration there is as before; when the directory was registered
    already, the setting is not written and no notification is shown.
    When it throws, the setting is as before and the error names the
    setup of the prompts directory. *)
Theorem ensurePromptsDirectory_registers (w : World) (r : outcome string) (w' : World) :
  ensurePromptsDirectory w = (r, w') ->
  let promptsDir := pathJoin globalStoragePath "prompts" in
  files w' = files w
  /\ (exists new, trace w' = new ++ trace w /\ existsb isFetchOrWrite new = false
                  /\ existsb isCopy new = false)
  /\ match r with
     | Returned dir =>
         dir = promptsDir
         /\ getLocation promptsDir (locationsOf w') = true
         /\ (forall other, other <> promptsDir ->
               getLocation other (locationsOf w') = getLocation other (locationsOf w))
         /\ (getLocation promptsDir (locationsOf w) = true ->
               promptFilesLocations w' = promptFilesLocations w
               /\ trace w' = CreateDirectory promptsDir :: trace w)
     | Threw e =>
         promptFilesLocations w' = promptFilesLocations w
         /\ exists cause, e = newError ("Failed to setup prompts directory: " +:+ cause)
     end.
Proof. apply ensurePromptsDirectory_run. Qed.


Lemma requests_app (newer older : list Event) :
  requests (newer ++ older) = requests older ++ requests newer.
Proof. unfold requests. now rewrite rev_app_distr, omap_app. Qed.

Lemma requests_none (new : list Event) :
  existsb isFetch new = false -> requests new = [].
Proof.
  induction new as [|e new IH]; [reflexivity|]. cbn [existsb].
  intros H. apply orb_false_elim in H as [He Hn].
  change (e :: new) with ([e] ++ new). rewrite requests_app, (IH Hn).
  now destruct e.
Qed.

Section NoFaults.
Hypothesis sound : forall t call, fsFault t call = None.

(** On a file system without faults the directory is there and
    registered afterwards, and nothing else has changed. *)
Lemma ensurePromptsDirectory_sound (w : World) :
  exists w' new,
    ensurePromptsDirectory w = (Returned (pathJoin globalStoragePath "prompts"), w')
    /\ files w' = files w
    /\ getLocation (pathJoin globalStoragePath "prompts") (locationsOf w') = true
    /\ trace w' = new ++ trace w
    /\ existsb isFetch new = false /\ existsb isSpawnGit new = false
    /\ existsb isGetSession new = false.
Proof.
  destruct (ensurePromptsDirectory w) as [r w'] eqn:E.
  pose proof (ensurePromptsDirectory_run _ _ _ E) as (Hf & _ & Hr). cbv zeta in Hr.
  revert E. unfold ensurePromptsDirectory. cbv zeta. set (promptsDir := pathJoin _ _) in *.
  unfold tryCatch, mbind, eff_bind, bind. rewrite fsCall_run, sound.
  cbv [get]. cbn [promptFilesLocations]. fold (locationsOf w).
  destruct (getLocation promptsDir (locationsOf w)) eqn:Hreg; cbn [negb].
  - intros [= <- <-]. destruct Hr as (_ & Hreg' & _).
    eexists; exists [CreateDirectory promptsDir]. now repeat split.
  - rewrite fsCall_run, sound. intros [= <- <-]. destruct Hr as (_ & Hreg' & _).
    eexists; exists [ShowInformationMessage;
                     UpdateSetting (setLocation promptsDir (locationsOf w));
                     CreateDirectory promptsDir].
    now repeat split.
Qed.

(** On a file system without faults a text is stored under the name of
    the prompt. *)
Lemma storeContent_sound (text promptName : string) (w : World) :
  exists w' new,
    storePromptInStorage (Content text) promptName w = (Returned tt, w')
    /\ files w' = <[storedAt promptName := text]> (files w)
    /\ getLocation (pathJoin globalStoragePath "prompts") (locationsOf w') = true
    /\ trace w' = new ++ trace w
    /\ existsb isFetch new = false /\ existsb isSpawnGit new = false
    /\ existsb isGetSession new = false.
Proof.
  destruct (ensurePromptsDirectory_sound w) as (w0 & n0 & E0 & Hf0 & Hreg & Ht0 & F0 & S0 & G0).
  unfold storePromptInStorage, tryCatch, mbind, eff_bind, bind. rewrite E0.
  fold (storedAt promptName). rewrite fsCall_run, sound.
  eexists; exists (WriteFile (storedAt promptName) text :: n0).
  split; [reflexivity|]. cbn. rewrite Hf0, Ht0. now repeat split.
Qed.

(** What [fetchViaHttp] does with a good answer. *)
Lemma fetchViaHttp_good (url : string) (headers : Headers) (w : World)
    (status : nat) (statusText content : string) :
  fetch (trace w) url headers = Responded true status statusText (inr content) ->
  isSignInPage content = false ->
  fetchViaHttp url headers w
  = (Returned content,
     mkWorld (files w) (promptFilesLocations w)
       (Fetch url headers (Responded true status statusText (inr content)) :: trace w)).
Proof.
  intros Hfetch Hpage. unfold fetchViaHttp, tryFinally, tryCatch.
  cbv [mbind eff_bind bind ask emit mret eff_ret ret throw].
  rewrite Hfetch. cbn [negb]. now rewrite Hpage.
Qed.

End NoFaults.

(** X18. The first attempt, when all goes well.  For a GitHub address,
    on a network that answers the request for the raw file with a
    success and a body that is not taken for a sign-in page, and a file
    system without faults, [fetchPrompt] returns; the body is then the
    content of the file named after the prompt in the prompts
    directory, which is registered, and every other file is as before.
    One request was made, without headers; no session was asked for and
    git was not run. *)
Theorem fetchPrompt_github_direct (parsedPrompt : ParsedPrompt.t) (w : World)
    (rawUrl : string) (status : nat) (statusText content : string) :
  ParsedPrompt.type parsedPrompt = ParsedPrompt.github ->
  buildRawFileUrl parsedPrompt = inr rawUrl ->
  (forall t, fetch t rawUrl [] = Responded true status statusText (inr content)) ->
  isSignInPage content = false ->
  (forall t call, fsFault t call = None) ->
  exists w' new,
    fetchPrompt parsedPrompt w = (Returned tt, w')
    /\ files w' = <[storedAt (ParsedPrompt.name parsedPrompt) := content]> (files w)
    /\ getLocation (pathJoin globalStoragePath "prompts") (locationsOf w') = true
    /\ trace w' = new ++ trace w
    /\ requests new = [(rawUrl, [])]
    /\ existsb isSpawnGit new = false
    /\ existsb isGetSession new = false.
Proof.
  intros Htype Hraw Hfetch Hpage sound.
  unfold fetchPrompt, tryCatch. rewrite Htype.
  unfold fetchWithFallbackStrategyToFile, mbind, eff_bind, bind, tryCatch, fetchDirect.
  rewrite Hraw, Htype.
  cbv [appendLine emit lift mret eff_ret ret mbind eff_bind bind].
  rewrite (fetchViaHttp_good _ _ _ status statusText content) by (apply Hfetch || exact Hpage).
  cbn [trace files promptFilesLocations].
  set (w1 := mkWorld _ _ _).
  destruct (storeContent_sound sound content (ParsedPrompt.name parsedPrompt) w1)
    as (w' & n & E & Hf & Hreg & Ht & F & S & G).
  rewrite E. exists w'. eexists. split; [reflexivity|].
  split; [exact Hf|]. split; [exact Hreg|]. split.
  - rewrite Ht. subst w1. cbn [trace].
    now instantiate (1 := n ++ [_; _; _]); rewrite <- List.app_assoc.
  - rewrite requests_app, (requests_none n F). cbn.
    rewrite !existsb_app, S, G. now repeat split.
Qed.

(** [getADOAuthHeaders] returns nothing but one Authorization header
    with a bearer token that is not empty; it makes no request. *)
Lemma getADOAuthHeaders_run (w : World) (r : outcome Headers) (w' : World) :
  getADOAuthHeaders w = (r, w') ->
  exists new, trace w' = new ++ trace w
    /\ existsb isFetch new = false
    /\ match r with
       | Returned headers =>
           exists token, token <> "" /\ headers = [("Authorization", "Bearer " +:+ token)]
       | Threw _ => True
       end.
Proof.
  unfold getADOAuthHeaders.
  cbv [mbind eff_bind bind ask emit appendLine mret eff_ret ret throw].
  cbn [trace files promptFilesLocations].
  destruct (getSession (trace w) false) as [e| |token];
    cbv beta iota; cbn [trace files promptFilesLocations].
  - intros [= <- <-]. now exists [GetSession false].
  - destruct (getSession (GetSession false :: trace w) true) as [e| |token];
      cbv beta iota; cbn [trace files promptFilesLocations].
    + intros [= <- <-]. now exists [GetSession true; GetSession false].
    + intros [= <- <-]. now exists [GetSession true; GetSession false].
    + destruct token as [|c token]; cbn [truthy]; cbv beta iota;
        cbn [trace files promptFilesLocations]; intros [= <- <-].
      * now exists [GetSession true; GetSession false].
      * exists [AppendLine "Got access token from VSCode"; GetSession true; GetSession false].
        split; [reflexivity|]. split; [reflexivity|]. now eexists.
  - destruct token as [|c token]; cbn [truthy]; cbv beta iota;
      cbn [trace files promptFilesLocations]; intros [= <- <-].
    + now exists [GetSession false].
    + exists [AppendLine "Got access token from VSCode"; GetSession false].
      split; [reflexivity|]. split; [reflexivity|]. now eexists.
Qed.

Lemma getADOAuthHeaders_spec :
  spec getADOAuthHeaders
       (fun r new =>
          existsb isFetch new = false
          /\ match r with
             | Returned headers =>
                 exists token, token <> ""
                               /\ headers = [("Authorization", "Bearer " +:+ token)]
             | Threw _ => True
             end).
Proof.
  intros w r w' E. split; [exact I|]. exact (getADOAuthHeaders_run _ _ _ E).
Qed.

Lemma unfetched_store (source : Source) (promptName : string) :
  spec (storePromptInStorage source promptName) (free isFetch).
Proof.
  destruct source; [apply unfetched_storeContent|].
  apply (free_fewer isFetchOrWrite); [|apply plain_storeFile].
  intros e He. unfold isFetchOrWrite. now rewrite He.
Qed.

Lemma unfetched_fetchFallback (parsedPrompt : ParsedPrompt.t) :
  spec (fetchFallback parsedPrompt) (free isFetch).
Proof.
  eapply spec_weaken; [apply cloned_fetchFallback|].
  intros r new [P _]. now destruct (plain_parts _ P).
Qed.

Section Requests.
Variable allowed : string * Headers -> Prop.

Local Abbreviation oneRequest := (atMostOne allowed).

Lemma oneRequest_before {A B} (m : Eff.M World A) (k : A -> Eff.M World B) :
  spec m (free isFetch) -> (forall a, spec (k a) oneRequest) -> spec (m ≫= k) oneRequest.
Proof.
  intros Hm Hk. eapply spec_bind; [exact Hm| |].
  - intros a n1 F1. eapply spec_weaken; [apply Hk|].
    intros r n2 H2. unfold atMostOne in *.
    now rewrite requests_app, (requests_none n1 F1).
  - intros e n1 F1. left. now apply requests_none.
Qed.

Lemma oneRequest_after {A B} (m : Eff.M World A) (k : A -> Eff.M World B) :
  spec m oneRequest -> (forall a, spec (k a) (free isFetch)) -> spec (m ≫= k) oneRequest.
Proof.
  intros Hm Hk. eapply spec_bind; [exact Hm| |].
  - intros a n1 H1. eapply spec_weaken; [apply Hk|].
    intros r n2 F2. unfold atMostOne in *.
    now rewrite requests_app, (requests_none n2 F2), List.app_nil_r.
  - intros e n1 H1. exact H1.
Qed.

Lemma oneRequest_tryCatch {A} (body : Eff.M World A) (handler : thrown -> Eff.M World A) :
  spec body oneRequest -> (forall e, spec (handler e) (free isFetch)) ->
  spec (tryCatch body handler) oneRequest.
Proof.
  intros Hb Hh. eapply spec_tryCatch; [exact Hb| |].
  - intros a n1 H1. exact H1.
  - intros e n1 H1. eapply spec_weaken; [apply Hh|].
    intros r n2 F2. unfold atMostOne in *.
    now rewrite requests_app, (requests_none n2 F2), List.app_nil_r.
Qed.

Lemma oneRequest_none {A} (m : Eff.M World A) :
  spec m (free isFetch) -> spec m oneRequest.
Proof.
  intros Hm. eapply spec_weaken; [exact Hm|]. intros r new F. left. now apply requests_none.
Qed.

Lemma oneRequest_fetchViaHttp (url : string) (headers : Headers) :
  allowed (url, headers) -> spec (fetchViaHttp url headers) oneRequest.
Proof.
  intros Ha. eapply spec_weaken; [apply fetchViaHttp_spec|].
  intros r new (answer & -> & _). right. now exists (url, headers).
Qed.

End Requests.

(** X19. The requests of [fetchPrompt].  Whatever the address and
    whatever the world answers, [fetchPrompt] makes at most one HTTP
    request.  For an Azure DevOps address it goes to the raw file of the
    address and carries exactly one header, Authorization, with a
    bearer token that is not empty; for a GitHub address it goes to the
    raw file and carries no header; for a URL it goes to that URL and
    carries no header; for the other kinds there is no request. *)
Theorem fetchPrompt_requests (parsedPrompt : ParsedPrompt.t) (w : World)
    (r : outcome unit) (w' : World) (new : list Event) :
  fetchPrompt parsedPrompt w = (r, w') ->
  trace w' = new ++ trace w ->
  requests new = []
  \/ exists url headers,
       requests new = [(url, headers)]
       /\ match ParsedPrompt.type parsedPrompt with
          | ParsedPrompt.ado =>
              buildRawFileUrl parsedPrompt = inr url
              /\ exists token, token <> ""
                               /\ headers = [("Authorization", "Bearer " +:+ token)]
          | ParsedPrompt.github => buildRawFileUrl parsedPrompt = inr url /\ headers = []
          | ParsedPrompt.url_ => ParsedPrompt.url parsedPrompt = Some url /\ headers = []
          | _ => False
          end.
Proof.
  intros H Ht.
  assert (Hstored : forall content,
             spec (appendLine "promptu: Fetched prompt using direct HTTP access";;
                   storePromptInStorage (Content content) (ParsedPrompt.name parsedPrompt))
                  (free isFetch)).
  { intros content. apply free_bind; [apply free_emit; reflexivity | intros _].
    apply unfetched_store. }
  assert (Hspec : spec (fetchPrompt parsedPrompt) (atMostOne (allowedRequest parsedPrompt))).
  { unfold fetchPrompt. apply oneRequest_tryCatch; [|intros e; apply free_throw].
    unfold allowedRequest.
    destruct (ParsedPrompt.type parsedPrompt) eqn:Htype.
    - (* Azure DevOps *)
      apply oneRequest_before; [apply free_emit; reflexivity | intros _].
      unfold fetchWithFallbackStrategyToFile.
      destruct (buildRawFileUrl parsedPrompt) as [e|rawUrl] eqn:Hraw.
      { apply oneRequest_none. apply free_bind; [apply free_throw | intros a].
        apply free_tryCatch; [|intros ?; apply unfetched_fetchFallback].
        unfold fetchDirect. rewrite Htype.
        apply free_bind.
        - apply (free_fewer isFetchOrWrite); [|apply plain_getADOAuthHeaders].
          intros ev He. unfold isFetchOrWrite. now rewrite He.
        - intros headers. exfalso. clear -Hraw Htype. unfold buildRawFileUrl in Hraw.
          now rewrite Htype in Hraw. }
      apply spec_ret_then.
      apply oneRequest_tryCatch; [|intros ?; apply unfetched_fetchFallback].
      unfold fetchDirect. rewrite Htype.
      eapply spec_bind; [apply getADOAuthHeaders_spec| |].
      + intros headers n1 [F1 Hshape].
        eapply spec_weaken.
        * apply oneRequest_after; [|exact Hstored].
          apply (oneRequest_fetchViaHttp
                   (fun q => @inr thrown string rawUrl = inr q.1
                             /\ exists token, token <> ""
                                  /\ q.2 = [("Authorization", "Bearer " +:+ token)])).
          now split.
        * intros r0 n2 H2. unfold atMostOne in *.
          now rewrite requests_app, (requests_none n1 F1).
      + intros e n1 [F1 _]. left. now apply requests_none.
    - (* GitHub *)
      apply oneRequest_before; [apply free_emit; reflexivity | intros _].
      unfold fetchWithFallbackStrategyToFile.
      destruct (buildRawFileUrl parsedPrompt) as [e|rawUrl] eqn:Hraw.
      { exfalso. clear -Hraw Htype. unfold buildRawFileUrl in Hraw.
        now rewrite Htype in Hraw. }
      apply spec_ret_then.
      apply oneRequest_tryCatch; [|intros ?; apply unfetched_fetchFallback].
      unfold fetchDirect. rewrite Htype. apply spec_ret_then.
      apply oneRequest_after; [|exact Hstored].
      now apply (oneRequest_fetchViaHttp (fun q => @inr thrown string rawUrl = inr q.1 /\ q.2 = [])).
    - (* URL *)
      apply oneRequest_before; [apply free_emit; reflexivity | intros _].
      destruct (ParsedPrompt.url parsedPrompt) as [url|];
        [|apply oneRequest_none, free_throw].
      apply oneRequest_after; [|intros content; apply unfetched_store].
      now apply (oneRequest_fetchViaHttp (fun q => Some url = Some q.1 /\ q.2 = [])).
    - (* local file *)
      apply oneRequest_none.
      apply free_bind; [apply free_emit; reflexivity | intros _].
      destruct (ParsedPrompt.localPath parsedPrompt); [apply unfetched_store | apply free_throw].
    - apply oneRequest_none, free_ret.
    - apply oneRequest_none, free_throw. }
  destruct (fetcher_run _ _ _ _ _ Hspec H) as (n & Hn & Hone).
  assert (new = n) as -> by (apply (List.app_inv_tail (trace w)); now rewrite <- Ht).
  destruct Hone as [Hnone|([url headers] & Hq & Ha)]; [now left|].
  right. exists url, headers. split; [exact Hq|]. exact Ha.
Qed.







End StorageFacts.

Section StorageRuns.
Import Eff Samples PromptFetcher.

(** The directory is registered on first use. *)
Lemma ensurePromptsDirectory_registers_witness :
  files (snd ensureRun) = files fetcherWorld
  /\ (exists new, trace (snd ensureRun) = new ++ trace fetcherWorld
                  /\ existsb isFetchOrWrite new = false /\ existsb isCopy new = false)
  /\ "/storage/prompts" = "/storage/prompts"
  /\ getLocation "/storage/prompts" (locationsOf (snd ensureRun)) = true
  /\ (forall other, other <> "/storage/prompts" ->
        getLocation other (locationsOf (snd ensureRun))
        = getLocation other (locationsOf fetcherWorld))
  /\ (getLocation "/storage/prompts" (locationsOf fetcherWorld) = true ->
        promptFilesLocations (snd ensureRun) = promptFilesLocations fetcherWorld
        /\ trace (snd ensureRun) = CreateDirectory "/storage/prompts" :: trace fetcherWorld).
Proof.
  apply (ensurePromptsDirectory_registers (host := fetcherHost) fetcherWorld
           (Returned "/storage/prompts") (snd ensureRun)).
  vm_compute. reflexivity.
Defined.


(** The raw file of a GitHub address is served: it is stored. *)
Lemma fetchPrompt_github_direct_witness :
  exists w' new,
    fetchPrompt (host := servingHost) address fetcherWorld = (Returned tt, w')
    /\ files w' = <[storedAt (host := servingHost) "code-review" := "Review the code."]>
                    (files fetcherWorld)
    /\ getLocation "/storage/prompts" (locationsOf w') = true
    /\ trace w' = new ++ trace fetcherWorld
    /\ requests new = [(rawUrl, [])]
    /\ existsb isSpawnGit new = false
    /\ existsb isGetSession new = false.
Proof.
  apply (fetchPrompt_github_direct (host := servingHost) address fetcherWorld rawUrl
           200 "OK" "Review the code."); reflexivity.
Defined.

(** An Azure DevOps address: the one request carries the token. *)
Lemma fetchPrompt_requests_witness :
  requests (trace (snd adoRun)) = []
  \/ exists url headers,
       requests (trace (snd adoRun)) = [(url, headers)]
       /\ buildRawFileUrl adoAddress = inr url
       /\ exists token, token <> "" /\ headers = [("Authorization", "Bearer " +:+ token)].
Proof.
  apply (fetchPrompt_requests (host := fetcherHost) adoAddress fetcherWorld
           (fst adoRun) (snd adoRun) (trace (snd adoRun))).
  - apply surjective_pairing.
  - symmetry. apply List.app_nil_r.
Defined.


End StorageRuns.

(* ===================================================================== *)
(** * Properties: the transport of a remote prompt session                *)
(* ===================================================================== *)

Section TransportFacts.
Import Eff McpClient.
Context {host : Host}.

(** [includes] finds a pattern wherever it stands. *)
Lemma includes_app (before pattern after : string) :
  Js.includes (before +:+ pattern +:+ after) pattern = true.
Proof.
  induction before as [|c before IH].
  - cbn [String.append]. destruct (pattern +:+ after) eqn:E.
    + destruct pattern; [reflexivity | discriminate E].
    + cbn [Js.includes]. rewrite <- E.
      change (String.prefix pattern (pattern +:+ after))
        with (Js.startsWith (pattern +:+ after) pattern).
      now rewrite startsWith_app.
  - cbn [String.append Js.includes]. rewrite IH. apply orb_true_r.
Qed.

(** X21. An authorization server that is not Microsoft's stops the
    session before it starts.  When the service's metadata names an
    authorization server whose text does not contain
    'login.microsoftonline.com', [createClient] for an HTTP service
    throws the error that names this server as not supported; it asks
    for no session and never calls [connect]. *)
Theorem createClient_unsupported_authorization (serverName url authServer : string)
    (serverConfig : McpServerConfig.t) (others : list string)
    (scopes : option (list string)) (w : World) :
  McpServerConfig.type serverConfig = "http" ->
  McpServerConfig.url serverConfig = Some url -> url <> "" ->
  (forall t, discover t url = inr (Some (mkMetadata (Some (authServer :: others)) scopes))) ->
  Js.includes authServer "login.microsoftonline.com" = false ->
  exists w' new,
    createClient serverName serverConfig w
    = (Threw (newError ("OAuth server " +:+ authServer +:+
                        " not supported. Currently only Microsoft OAuth is supported.")), w')
    /\ trace w' = new ++ trace w
    /\ existsb isConnect new = false
    /\ existsb isSessionRequest new = false.
Proof.
  intros Htype Hurl Hne Hdiscover Hms.
  unfold createClient. rewrite Htype, Hurl.
  change (String.eqb "http" "stdio") with false. change (String.eqb "http" "http") with true.
  cbv iota.
  replace (truthy (Some url)) with true by (now destruct url).
  cbn [negb show].
  cbv [createAuthenticatedTransport tryCatch mbind eff_bind bind appendLine emit ask modify
       get mret eff_ret ret lift throw trace].
  rewrite Hdiscover.
  cbv [tryCatch mbind eff_bind bind appendLine emit ask modify
       get mret eff_ret ret lift throw trace].
  rewrite Hms.
  cbv [tryCatch mbind eff_bind bind appendLine emit ask modify
       get mret eff_ret ret lift throw trace messageOf newError].
  replace (Js.includes ("OAuth server " +:+ authServer +:+
                       " not supported. Currently only Microsoft OAuth is supported.")
                      "not supported") with true.
  2: { symmetry.
       replace ("OAuth server " +:+ authServer +:+
                " not supported. Currently only Microsoft OAuth is supported.")
         with (("OAuth server " +:+ authServer +:+ " ") +:+ "not supported" +:+
               ". Currently only Microsoft OAuth is supported.")
         by (now rewrite !app_assoc).
       apply includes_app. }
  eexists. eexists [_; _; _; _]. split; [reflexivity|]. now repeat split.
Qed.

(** X22. Microsoft sign-in.  When the first authorization server named
    by the service's metadata contains 'login.microsoftonline.com'
    anywhere in its text, [createAuthenticatedTransport] asks the editor
    for a session with the scopes the metadata lists.  With an access
    token that is not empty the transport carries it as a bearer token;
    without a session, or with an empty token, the function falls back
    to a transport without authorization and returns that. *)
Theorem createAuthenticatedTransport_microsoft (url authServer : string)
    (others : list string) (scopes : option (list string)) (session : option string)
    (w : World) :
  validUrl url = true ->
  (forall t, discover t url = inr (Some (mkMetadata (Some (authServer :: others)) scopes))) ->
  Js.includes authServer "login.microsoftonline.com" = true ->
  (forall t, getSession t (scopesOf scopes) = inr session) ->
  exists w' new,
    createAuthenticatedTransport url w
    = (Returned (StreamableHTTPClientTransport url
                   (if truthy session then Some ("Bearer " +:+ show session) else None)),
       w')
    /\ trace w' = new ++ trace w
    /\ In (GetSession (scopesOf scopes)) new.
Proof.
  intros Hvalid Hdiscover Hms Hsession.
  cbv [createAuthenticatedTransport tryCatch mbind eff_bind bind appendLine emit ask modify
       get mret eff_ret ret lift throw trace].
  rewrite Hdiscover.
  cbv [tryCatch mbind eff_bind bind appendLine emit ask modify
       get mret eff_ret ret lift throw trace].
  rewrite Hms. fold (scopesOf scopes).
  cbv [tryCatch mbind eff_bind bind appendLine emit ask modify
       get mret eff_ret ret lift throw trace].
  rewrite Hsession.
  destruct (truthy session);
    cbv [tryCatch mbind eff_bind bind appendLine emit ask modify httpTransport
         get mret eff_ret ret lift throw trace messageOf newError];
    rewrite ?Hvalid;
    change (Js.includes "Microsoft authentication failed or was cancelled" "not supported")
      with false;
    cbv [tryCatch mbind eff_bind bind appendLine emit ask modify httpTransport
         get mret eff_ret ret lift throw trace messageOf newError];
    rewrite ?Hvalid.
  - eexists. eexists [_; _; _; _; _; _]. split; [reflexivity|].
    split; [reflexivity|]. cbn. auto.
  - eexists. eexists [_; _; _; _; _; _]. split; [reflexivity|].
    split; [reflexivity|]. cbn. auto.
Qed.

(** X23. [getPrompt] checks before it acts.  A run of [getPrompt] that
    did anything at all (logged a line, looked for metadata, asked for a
    session, connected) was given a name of the form
    mcp.ServerName.PromptName, a list of services in which ServerName
    occurs, and an input that is empty or parses as a JSON object. *)
Theorem getPrompt_validates_first (mcpPromptName input : string)
    (mcpServers : list McpServerConfig.t) (w w' : World) (r : outcome string) :
  getPrompt mcpPromptName input mcpServers w = (r, w') ->
  w' <> w ->
  exists serverName promptName serverConfig,
    mcpPromptName = "mcp." +:+ serverName +:+ "." +:+ promptName
    /\ Js.includes serverName "." = false /\ Js.includes promptName "." = false
    /\ find (fun server => String.eqb (McpServerConfig.name server) serverName) mcpServers
       = Some serverConfig
    /\ (input = "" \/ exists text, jsonParse input = inr (JsonObject text)).
Proof.
  intros H Hmoved.
  unfold getPrompt in H. cbv zeta in H.
  destruct (Js.split mcpPromptName ".") as [|first [|serverName [|promptName [|x l]]]] eqn:Esplit;
    try (cbv [throw] in H; injection H as <- <-; now destruct Hmoved).
  destruct (String.eqb first "mcp") eqn:Efirst; cbn [negb] in H;
    [|cbv [throw] in H; injection H as <- <-; now destruct Hmoved].
  apply String.eqb_eq in Efirst as ->.
  destruct (find _ mcpServers) as [serverConfig|] eqn:Efind;
    [|cbv [throw] in H; injection H as <- <-; now destruct Hmoved].
  exists serverName, promptName, serverConfig.
  pose proof (join_split mcpPromptName ".") as J. rewrite Esplit in J.
  pose proof (splitBy_segments_free (Ascii.eqb ".") mcpPromptName) as F.
  fold (Js.split mcpPromptName ".") in F. rewrite Esplit in F.
  apply Forall_cons in F as [_ F]. apply Forall_cons in F as [Hs F].
  apply Forall_cons in F as [Hp _].
  split; [now rewrite <- J|]. split; [now apply includes_free|].
  split; [now apply includes_free|]. split; [exact Efind|].
  unfold mbind, eff_bind, bind, parseArguments in H.
  destruct input as [|c input]; [now left|]. right. cbn [truthy] in H.
  unfold tryCatch, mbind, eff_bind, bind in H.
  destruct (jsonParse (String c input)) as [e|[text|]]; cbn in H.
  - injection H as <- <-. now destruct Hmoved.
  - now exists text.
  - injection H as <- <-. now destruct Hmoved.
Qed.

End TransportFacts.

Section TransportRuns.
Import Eff Samples McpClient.

(** The service names an authorization server of its own. *)
Lemma createClient_unsupported_authorization_witness :
  exists w' new,
    createClient (host := guardedHost "https://auth.example.com" None) "docs" docs clientWorld
    = (Threw (newError ("OAuth server " +:+ "https://auth.example.com" +:+
                        " not supported. Currently only Microsoft OAuth is supported.")), w')
    /\ trace w' = new ++ trace clientWorld
    /\ existsb isConnect new = false
    /\ existsb isSessionRequest new = false.
Proof.
  apply (createClient_unsupported_authorization
           (host := guardedHost "https://auth.example.com" None)
           "docs" "https://example.com/mcp" "https://auth.example.com" docs []
           (Some ["api://docs/.default"]) clientWorld);
    (reflexivity || discriminate).
Defined.

(** The name of Microsoft's server stands in the query of another
    server's address, and the user has signed in. *)
Lemma createAuthenticatedTransport_microsoft_witness :
  exists w' new,
    createAuthenticatedTransport
      (host := guardedHost "https://auth.example.com/?tenant=login.microsoftonline.com"
                 (Some "secret"))
      "https://example.com/mcp" clientWorld
    = (Returned (StreamableHTTPClientTransport "https://example.com/mcp"
                   (if truthy (Some "secret") then Some ("Bearer " +:+ show (Some "secret"))
                    else None)), w')
    /\ trace w' = new ++ trace clientWorld
    /\ In (GetSession (scopesOf (Some ["api://docs/.default"]))) new.
Proof.
  apply (createAuthenticatedTransport_microsoft
           (host := guardedHost "https://auth.example.com/?tenant=login.microsoftonline.com"
                      (Some "secret"))
           "https://example.com/mcp"
           "https://auth.example.com/?tenant=login.microsoftonline.com" []
           (Some ["api://docs/.default"]) (Some "secret") clientWorld);
    reflexivity.
Defined.

(** A run that connected was given a well-formed name, a configured
    service and no input. *)
Lemma getPrompt_validates_first_witness :
  exists serverName promptName serverConfig,
    "mcp.tool.review" = "mcp." +:+ serverName +:+ "." +:+ promptName
    /\ Js.includes serverName "." = false /\ Js.includes promptName "." = false
    /\ find (fun server => String.eqb (McpServerConfig.name server) serverName) [docs; tool]
       = Some serverConfig
    /\ ("" = "" \/ exists text, jsonParse (Host := clientHost) "" = inr (JsonObject text)).
Proof.
  apply (getPrompt_validates_first (host := clientHost) "mcp.tool.review" "" [docs; tool]
           clientWorld (snd renderRun) (fst renderRun)).
  - apply surjective_pairing.
  - vm_compute. discriminate.
Defined.

End TransportRuns.

(* ===================================================================== *)
(** * Properties: what provisioning skips                                 *)
(* ===================================================================== *)

Section GateFacts.
Import Eff McpInstaller.
Context {host : Host}.

(** A descriptor without package whose name the configuration has is
    passed over. *)
Lemma installOne_configured (server : McpServerConfig.t) (config : McpConfiguration.t)
    (entries : list (string * McpConfiguration.entry)) (needs : bool) (w : World) :
  McpConfiguration.servers config = Some entries ->
  truthy (McpServerConfig.nugetPackage server) = false ->
  hasProperty (McpServerConfig.name server) entries = true ->
  installOne server config needs w
  = (Returned (inr (config, needs)),
     mkWorld (mcpJson w)
       (AppendLine ("promptu: Server '" +:+ McpServerConfig.name server +:+
                    "' already configured in mcp.json") :: trace w)).
Proof.
  intros Hentries Hpackage Hhas.
  unfold installOne, tryCatch, mbind, eff_bind, bind. rewrite Hpackage.
  unfold installServerConfig, inServers. rewrite Hentries, Hhas.
  reflexivity.
Qed.

Lemma installLoop_configured (config : McpConfiguration.t)
    (entries : list (string * McpConfiguration.entry)) (servers : list McpServerConfig.t) :
  McpConfiguration.servers config = Some entries ->
  Forall (fun server => truthy (McpServerConfig.nugetPackage server) = false
                        /\ hasProperty (McpServerConfig.name server) entries = true) servers ->
  forall (needs : bool) (w : World),
    exists w' new,
      installLoop servers config needs w = (Returned (inr (config, needs)), w')
      /\ mcpJson w' = mcpJson w
      /\ trace w' = new ++ trace w
      /\ forallb isReadOrLog new = true.
Proof.
  intros Hentries Hall. induction Hall as [|server rest [Hpackage Hhas] _ IH]; intros needs w.
  - exists w, []. now repeat split.
  - cbn [installLoop]. unfold mbind, eff_bind, bind.
    rewrite (installOne_configured _ _ _ _ _ Hentries Hpackage Hhas).
    destruct (IH needs (mkWorld (mcpJson w)
                          (AppendLine ("promptu: Server '" +:+ McpServerConfig.name server +:+
                                       "' already configured in mcp.json") :: trace w)))
      as (w' & new & E & Hj & Ht & Hlog).
    exists w', (new ++ [AppendLine ("promptu: Server '" +:+ McpServerConfig.name server +:+
                                    "' already configured in mcp.json")]).
    split; [exact E|]. split; [exact Hj|]. split.
    + rewrite Ht. cbn [trace]. now rewrite <- List.app_assoc.
    + rewrite forallb_app, Hlog. reflexivity.
Qed.

(** X24. A batch that is configured already is passed over in silence.
    When the file holds a configuration and every descriptor of the
    batch comes without package and under a name the configuration has
    (an inherited name such as 'constructor' counts), [installServers]
    returns [true] after reading the file and logging: it asks for no
    confirmation, runs nothing, assigns nothing and leaves the file as
    it is. *)
Theorem installServers_already_configured (servers : list McpServerConfig.t) (w : World)
    (content : string) (config : McpConfiguration.t)
    (entries : list (string * McpConfiguration.entry)) :
  mcpJson w = Some content ->
  jsonParse content = inr (Some config) ->
  McpConfiguration.servers config = Some entries ->
  (forall t, fsFault t FsRead = None) ->
  Forall (fun server => truthy (McpServerConfig.nugetPackage server) = false
                        /\ hasProperty (McpServerConfig.name server) entries = true) servers ->
  exists w' new,
    installServers servers w = (Returned true, w')
    /\ mcpJson w' = mcpJson w
    /\ trace w' = new ++ trace w
    /\ forallb isReadOrLog new = true.
Proof.
  intros Hfile Hparse Hentries Hsound Hall.
  rewrite installServers_run. cbv zeta.
  set (line := AppendLine _). 
  assert (Hread : readMcpConfig (mkWorld (mcpJson w) (line :: trace w))
                  = (Returned (Some config),
                     mkWorld (mcpJson w) (ReadFile :: line :: trace w))).
  { unfold readMcpConfig, tryCatch, mbind, eff_bind, bind, ask, emit, get.
    cbn [trace mcpJson]. rewrite Hsound. cbn [trace mcpJson]. rewrite Hfile, Hparse.
    reflexivity. }
  rewrite Hread.
  destruct (installLoop_configured config entries servers Hentries Hall false
              (mkWorld (mcpJson w) (ReadFile :: line :: trace w)))
    as (w' & new & E & Hj & Ht & Hlog).
  rewrite E. exists w', (new ++ [ReadFile; line]).
  split; [reflexivity|]. split; [exact Hj|]. split.
  - rewrite Ht. cbn [trace]. now rewrite <- List.app_assoc.
  - rewrite forallb_app, Hlog. reflexivity.
Qed.

(** What [getNuGetPackageVersion] returns is what [dotnet tool list]
    printed in the second column of its third line. *)
Lemma getNuGetPackageVersion_listed (packageName : string) (w : World)
    (code : option Z) (out err : string) :
  (forall t, dotnet t ["tool"; "list"; "--global"; packageName] = Close code out err) ->
  exists w' new,
    getNuGetPackageVersion packageName w = (Returned (listedVersion out), w')
    /\ mcpJson w' = mcpJson w
    /\ trace w' = new ++ trace w
    /\ forallb isListOrLog new = true.
Proof.
  intros Hdotnet.
  unfold getNuGetPackageVersion, executeDotnetCommand, listedVersion.
  cbv [mbind eff_bind bind appendLine emit ask mret eff_ret ret trace mcpJson].
  rewrite Hdotnet. cbv [stdout].
  destruct (Js.split (Js.trim out) "010") as [|l0 [|l1 [|l2 ls]]];
    try (eexists; eexists [_; _; _; _; _]; now repeat split).
  destruct (Js.splitWs (Js.trim l2)) as [|p0 [|p1 ps]];
    eexists; eexists [_; _; _; _; _]; now repeat split.
Qed.

(** A package that is listed in a sufficient version is not installed
    again. *)
Lemma installNuGetForServer_listed (server : McpServerConfig.t)
    (config : McpConfiguration.t) (packageName required installed : string) (w : World)
    (code : option Z) (out err : string) :
  McpServerConfig.nugetPackage server = Some packageName -> packageName <> "" ->
  McpServerConfig.version server = Some required -> required <> "" ->
  (forall t, dotnet t ["tool"; "list"; "--global"; packageName] = Close code out err) ->
  listedVersion out = Some installed -> installed <> "" ->
  Version.isVersionSufficient installed required = true ->
  exists w' new,
    installNuGetForServer server config w = (Returned (mkResult false false, config), w')
    /\ mcpJson w' = mcpJson w
    /\ trace w' = new ++ trace w
    /\ forallb isListOrLog new = true.
Proof.
  intros Hpackage Hp Hversion Hv Hdotnet Hlisted Hi Hsufficient.
  unfold installNuGetForServer. rewrite Hpackage, Hversion.
  replace (truthy (Some packageName)) with true by (now destruct packageName).
  replace (truthy (Some required)) with true by (now destruct required).
  cbn [negb show]. cbv zeta.
  unfold mbind, eff_bind, bind. cbv [appendLine emit].
  set (w0 := mkWorld _ _).
  destruct (getNuGetPackageVersion_listed packageName w0 code out err Hdotnet)
    as (w1 & n1 & E1 & Hj1 & Ht1 & Hl1).
  rewrite E1, Hlisted.
  replace (truthy (Some installed)) with true by (now destruct installed).
  cbn [show andb]. rewrite Hsufficient.
  cbv [mret eff_ret ret].
  eexists. exists (AppendLine ("promptu: NuGet package '" +:+ packageName +:+
                            "' already installed with sufficient version (" +:+
                            installed +:+ ")")
                :: n1 ++ [AppendLine ("promptu: Installing NuGet package '" +:+
                                      packageName +:+ "' and '" +:+ required +:+ "'...")]).
  split; [reflexivity|]. cbn [mcpJson trace]. split; [exact Hj1|]. split.
  - rewrite Ht1. subst w0. cbn [trace app]. now rewrite <- List.app_assoc.
  - cbn [forallb isListOrLog]. rewrite forallb_app, Hl1. reflexivity.
Qed.

(** X25. The version gate.  For a descriptor with a package and a
    required version, when [dotnet tool list] shows the package
    installed in a version that [isVersionSufficient] accepts,
    [installNuGetForServer] returns without cancellation and without
    modification: it asks for no confirmation, installs nothing, and
    does not add the service to the configuration, which it returns as
    it was given. *)
Theorem installNuGetForServer_sufficient (server : McpServerConfig.t)
    (config : McpConfiguration.t) (packageName required installed : string) (w : World)
    (code : option Z) (out err : string) :
  McpServerConfig.nugetPackage server = Some packageName -> packageName <> "" ->
  McpServerConfig.version server = Some required -> required <> "" ->
  (forall t, dotnet t ["tool"; "list"; "--global"; packageName] = Close code out err) ->
  listedVersion out = Some installed -> installed <> "" ->
  Version.isVersionSufficient installed required = true ->
  exists w' new,
    installNuGetForServer server config w = (Returned (mkResult false false, config), w')
    /\ mcpJson w' = mcpJson w
    /\ trace w' = new ++ trace w
    /\ forallb isListOrLog new = true.
Proof.
  apply installNuGetForServer_listed.
Qed.

End GateFacts.

(* ===================================================================== *)
(** * Properties: what provisioning keeps                                 *)
(* ===================================================================== *)

Section RegistryFacts.
Import Eff McpInstaller.
Context {host : Host}.

Local Abbreviation M := (Eff.M World).

Lemma getProperty_own {V} (key : string) (object : list (string * V)) :
  hasOwnProperty key object = false -> getProperty key object = None.
Proof.
  unfold getProperty, hasOwnProperty.
  induction object as [|[k v] rest IH]; cbn [existsb find fst]; [reflexivity|].
  destruct (String.eqb k key); [discriminate | exact IH].
Qed.

Lemma getProperty_replaceProperty {V} (key key' : string) (value : V)
    (object : list (string * V)) :
  hasOwnProperty key' object = true ->
  getProperty key (replaceProperty key' value object)
  = if String.eqb key' key then Some value else getProperty key object.
Proof.
  unfold getProperty, hasOwnProperty.
  induction object as [|[k v] rest IH]; cbn [existsb replaceProperty find fst snd];
    [discriminate|].
  destruct (String.eqb k key') eqn:E; cbn [orb find fst snd].
  - intros _. apply String.eqb_eq in E as ->. now destruct (String.eqb key' key).
  - intros Hown. destruct (String.eqb k key) eqn:E'; [|now apply IH].
    apply String.eqb_eq in E' as ->. rewrite String.eqb_sym in E. now rewrite E.
Qed.

Lemma getProperty_insertIndex {V} (i : N) (key key' : string) (value : V)
    (object : list (string * V)) :
  hasOwnProperty key' object = false ->
  getProperty key (insertIndex i key' value object)
  = if String.eqb key' key then Some value else getProperty key object.
Proof.
  unfold getProperty, hasOwnProperty.
  induction object as [|[k v] rest IH]; cbn [existsb insertIndex find fst snd].
  - intros _. now destruct (String.eqb key' key).
  - destruct (String.eqb k key') eqn:E; [discriminate|]. cbn [orb]. intros Hown.
    assert (Hhere : (match find (fun kv : string * V => String.eqb kv.1 key)
                             ((key', value) :: (k, v) :: rest) with
                     | Some kv => Some kv.2
                     | None => None
                     end)
                    = if String.eqb key' key then Some value
                      else match find (fun kv : string * V => String.eqb kv.1 key)
                                   ((k, v) :: rest) with
                           | Some kv => Some kv.2
                           | None => None
                           end).
    { cbn [find fst snd]. now destruct (String.eqb key' key). }
    destruct (arrayIndex k) as [j|]; [|exact Hhere].
    destruct (j <? i)%N; [|exact Hhere].
    cbn [find fst snd]. destruct (String.eqb k key) eqn:E'; [|now apply IH].
    apply String.eqb_eq in E' as ->. rewrite String.eqb_sym in E. now rewrite E.
Qed.

Lemma getProperty_last {V} (key key' : string) (value : V) (object : list (string * V)) :
  hasOwnProperty key' object = false ->
  getProperty key (object ++ [(key', value)])
  = if String.eqb key' key then Some value else getProperty key object.
Proof.
  unfold getProperty, hasOwnProperty.
  induction object as [|[k v] rest IH]; cbn [existsb app find fst snd].
  - intros _. now destruct (String.eqb key' key).
  - destruct (String.eqb k key') eqn:E; [discriminate|]. cbn [orb]. intros Hown.
    destruct (String.eqb k key) eqn:E'; [|now apply IH].
    apply String.eqb_eq in E' as ->. rewrite String.eqb_sym in E. now rewrite E.
Qed.

(** What is assigned under a name is found under that name, and what
    is under another name is found as before. *)
Lemma getProperty_setProperty {V} (key key' : string) (value : V) (object : list (string * V)) :
  getProperty key (setProperty key' value object)
  = if String.eqb key' key then Some value else getProperty key object.
Proof.
  unfold setProperty. destruct (hasOwnProperty key' object) eqn:Hown.
  - now apply getProperty_replaceProperty.
  - destruct (arrayIndex key'); [now apply getProperty_insertIndex | now apply getProperty_last].
Qed.

Lemma keys_replaceProperty {V} (key : string) (value : V) (object : list (string * V)) :
  map fst (replaceProperty key value object) = map fst object.
Proof.
  induction object as [|[k v] rest IH]; cbn [replaceProperty map fst]; [reflexivity|].
  destruct (String.eqb k key); cbn [map fst]; [reflexivity | now rewrite IH].
Qed.

Lemma keys_insertIndex {V} (i : N) (key : string) (value : V) (object : list (string * V)) :
  sublist (map fst object) (map fst (insertIndex i key value object)).
Proof.
  induction object as [|[k v] rest IH]; cbn [insertIndex map fst].
  - apply sublist_nil_l.
  - destruct (arrayIndex k) as [j|]; [|now apply sublist_cons_r; left].
    destruct (j <? i)%N; [|now apply sublist_cons_r; left].
    cbn [map fst]. now apply sublist_skip.
Qed.

(** An assignment keeps the names there are, in their order. *)
Lemma keys_setProperty {V} (key : string) (value : V) (object : list (string * V)) :
  sublist (map fst object) (map fst (setProperty key value object)).
Proof.
  unfold setProperty. destruct (hasOwnProperty key object).
  - now rewrite keys_replaceProperty.
  - destruct (arrayIndex key); [apply keys_insertIndex|].
    rewrite map_app. now apply sublist_inserts_r.
Qed.

Lemma extends_refl (names : list string) (config : McpConfiguration.t) :
  extends names config config.
Proof.
  split; [reflexivity|]. intros entries H. now exists entries.
Qed.

Lemma extends_trans (names1 names2 : list string) (a b c : McpConfiguration.t) :
  extends names1 a b -> extends names2 b c -> extends (names1 ++ names2) a c.
Proof.
  intros [Hi1 H1] [Hi2 H2]. split; [congruence|].
  intros entries Ha. destruct (H1 entries Ha) as (entries1 & Hb & Hk1 & Hg1).
  destruct (H2 entries1 Hb) as (entries2 & Hc & Hk2 & Hg2).
  exists entries2. split; [exact Hc|]. split.
  - now transitivity (map fst entries1).
  - intros key Hkey. rewrite Hg2, Hg1; [reflexivity| |];
      intros Hin; apply Hkey, in_or_app; auto.
Qed.

(** An assignment to the registry extends the configuration under the
    name assigned to. *)
Lemma assignServer_extends (name : string) (entry : McpConfiguration.entry)
    (config : McpConfiguration.t) (servers : list (string * McpConfiguration.entry)) :
  McpConfiguration.servers config = Some servers ->
  extends [name] config (assignServer name entry config servers).
Proof.
  intros Hservers. unfold assignServer.
  destruct (String.eqb name "__proto__" && negb (hasOwnProperty name servers)).
  - split; [reflexivity|]. intros entries He. rewrite Hservers in He. injection He as <-.
    now exists servers.
  - split; [reflexivity|]. intros entries He. rewrite Hservers in He. injection He as <-.
    exists (setProperty name entry servers).
    split; [reflexivity|]. split; [apply keys_setProperty|].
    intros key Hkey. rewrite getProperty_setProperty.
    destruct (String.eqb name key) eqn:E; [|reflexivity].
    apply String.eqb_eq in E. exfalso. apply Hkey. now left.
Qed.

(** A postcondition that looks at the outcome only. *)
Lemma outcome_bind {A B} (m : M A) (k : A -> M B) (PA : A -> Prop) (V : outcome B -> Prop) :
  spec m (fun r _ => forall a, r = Returned a -> PA a) ->
  (forall a, PA a -> spec (k a) (fun r _ => V r)) ->
  (forall e, V (Threw e)) ->
  spec (m ≫= k) (fun r _ => V r).
Proof.
  intros Hm Hk He. eapply spec_bind; [exact Hm| |].
  - intros a n1 Ha. apply Hk. now apply Ha.
  - intros e n1 _. apply He.
Qed.

Lemma outcome_after_calm {A B} (m : M A) (k : A -> M B) (V : outcome B -> Prop) :
  spec m calm -> (forall a, spec (k a) (fun r _ => V r)) -> (forall e, V (Threw e)) ->
  spec (m ≫= k) (fun r _ => V r).
Proof.
  intros Hm Hk He. apply (outcome_bind m k (fun _ => True)); [|auto|exact He].
  eapply spec_weaken; [exact Hm|]. auto.
Qed.

Lemma addServerToConfig_extends (config : McpConfiguration.t) (server : McpServerConfig.t) :
  spec (addServerToConfig config server)
       (fun r _ => forall config', r = Returned config' ->
                     extends [McpServerConfig.name server] config config').
Proof.
  unfold addServerToConfig. cbv zeta.
  destruct (McpConfiguration.servers config) as [servers|] eqn:Hservers.
  - intros w r w' E. injection E as <- <-. split; [reflexivity|].
    eexists [_; _]. split; [reflexivity|].
    intros config' [= <-]. now apply assignServer_extends.
  - apply spec_throw. discriminate.
Qed.

(** Registering the service hands on the configuration extended. *)
Lemma registered_extends (server : McpServerConfig.t) (config : McpConfiguration.t) :
  spec (config' ← addServerToConfig config server;
        mret (mkResult false true, config'))
       (fun r _ => match r with
                   | Returned (_, config') =>
                       extends [McpServerConfig.name server] config config'
                   | Threw _ => True
                   end).
Proof.
  eapply outcome_bind
    with (V := fun r => match r with
                        | Returned (_, config') =>
                            extends [McpServerConfig.name server] config config'
                        | Threw _ => True
                        end);
    [apply addServerToConfig_extends | | auto].
  intros config' Hext. apply spec_ret. now apply Hext.
Qed.

(** The two installation procedures hand on the configuration they
    were given, or that one with the service registered. *)
Lemma confirmation_extends (server : McpServerConfig.t) (config : McpConfiguration.t)
    (accepted : M (InstallResult * McpConfiguration.t)) :
  spec accepted
       (fun r _ => match r with
                   | Returned (_, config') =>
                       extends [McpServerConfig.name server] config config'
                   | Threw _ => True
                   end) ->
  spec (shouldInstall ← ask (fun t => confirmation t server);
        emit (ShowConfirmation server shouldInstall);;
        if negb shouldInstall then mret (mkResult true false, config) else accepted)
       (fun r _ => match r with
                   | Returned (_, config') =>
                       extends [McpServerConfig.name server] config config'
                   | Threw _ => True
                   end).
Proof.
  intros Haccepted.
  apply (outcome_bind _ _ (fun _ => True)); [apply installer_ask; auto | | auto].
  intros shouldInstall _.
  apply (outcome_bind _ _ (fun _ => True)); [apply installer_emit; auto | | auto].
  intros _ _. destruct shouldInstall; cbn [negb]; [exact Haccepted|].
  apply spec_ret. apply extends_refl.
Qed.

Lemma installNuGetForServer_extends (server : McpServerConfig.t)
    (config : McpConfiguration.t) :
  spec (installNuGetForServer server config)
       (fun r _ => match r with
                   | Returned (_, config') =>
                       extends [McpServerConfig.name server] config config'
                   | Threw _ => True
                   end).
Proof.
  unfold installNuGetForServer.
  destruct (negb _); [now apply spec_throw|]. cbv zeta.
  apply outcome_after_calm; [apply calm_appendLine | intros _ | auto].
  apply outcome_after_calm; [ | intros sufficient | auto].
  { destruct (truthy (McpServerConfig.version server)); [|apply calm_ret].
    apply calm_bind; [apply calm_getNuGetPackageVersion | intros installedVersion].
    destruct (_ && _).
    - apply calm_bind; [apply calm_appendLine | intros _; apply calm_ret].
    - apply calm_bind; [|intros _; apply calm_ret].
      destruct (truthy installedVersion); [apply calm_appendLine | apply calm_ret]. }
  destruct sufficient; [apply spec_ret; apply extends_refl|].
  apply confirmation_extends.
  apply outcome_after_calm; [apply calm_installNuGetGlobalTool | intros _ | auto].
  apply outcome_after_calm; [apply calm_appendLine | intros _ | auto].
  apply registered_extends.
Qed.

Lemma installServerConfig_extends (server : McpServerConfig.t)
    (config : McpConfiguration.t) :
  spec (installServerConfig server config)
       (fun r _ => match r with
                   | Returned (_, config') =>
                       extends [McpServerConfig.name server] config config'
                   | Threw _ => True
                   end).
Proof.
  unfold installServerConfig.
  destruct (McpConfiguration.servers config) as [servers|]; [|now apply spec_throw].
  destruct (inServers _ _ _).
  - apply outcome_after_calm; [apply calm_appendLine | intros _ | auto].
    apply spec_ret. apply extends_refl.
  - apply confirmation_extends. apply registered_extends.
Qed.

Lemma installOne_extends (server : McpServerConfig.t) (config : McpConfiguration.t)
    (needs : bool) :
  spec (installOne server config needs)
       (fun r _ => match r with
                   | Returned (inr (config', _)) =>
                       extends [McpServerConfig.name server] config config'
                   | _ => True
                   end).
Proof.
  unfold installOne.
  eapply spec_tryCatch
    with (P := fun r _ => match r with
                          | Returned (inr (config', _)) =>
                              extends [McpServerConfig.name server] config config'
                          | _ => True
                          end).
  - eapply outcome_bind
      with (PA := fun rc => extends [McpServerConfig.name server] config (snd rc)).
    + eapply spec_weaken.
      * destruct (truthy (McpServerConfig.nugetPackage server));
          [apply installNuGetForServer_extends | apply installServerConfig_extends].
      * intros r new H [result config'] ->. exact H.
    + intros [result config'] Hext. cbn [snd] in Hext.
      destruct (cancelled result).
      * apply outcome_after_calm; [apply calm_appendLine | intros _ | auto].
        now apply spec_ret.
      * now apply spec_ret.
    + auto.
  - intros a n H. exact H.
  - intros e n _. cbv zeta.
    apply (outcome_after_calm _ _ (fun r => match r with
                                            | Returned (inr (config', _)) =>
                                                extends [McpServerConfig.name server]
                                                  config config'
                                            | _ => True
                                            end));
      [apply calm_appendLine | intros _; now apply spec_throw | auto].
Qed.

Lemma installLoop_extends (servers : list McpServerConfig.t) :
  forall (config : McpConfiguration.t) (needs : bool),
    spec (installLoop servers config needs)
         (fun r _ => match r with
                     | Returned (inr (config', _)) =>
                         extends (map McpServerConfig.name servers) config config'
                     | _ => True
                     end).
Proof.
  induction servers as [|server rest IH]; intros config needs; cbn [installLoop].
  - apply spec_ret. apply extends_refl.
  - eapply outcome_bind
      with (PA := fun r => match r with
                           | inr (config', _) =>
                               extends [McpServerConfig.name server] config config'
                           | inl _ => True
                           end).
    + eapply spec_weaken; [apply installOne_extends|].
      intros r new H a ->. exact H.
    + intros [b|[config' needs']] Hext; [now apply spec_ret|].
      eapply spec_weaken; [apply IH|].
      intros r new H. destruct r as [[b|[config'' needs'']]|e]; try exact I.
      exact (extends_trans _ _ _ _ _ Hext H).
    + auto.
Qed.

(** X26. Provisioning keeps what is registered.  When the file holds a
    configuration and [installServers] returns [true], the file is as
    before, or it holds the text of a configuration with the same
    inputs, in which the names registered before are all there, in the
    order they had among themselves, and in which what is registered
    under a name outside the batch is what was registered before. *)
Theorem installServers_keeps_registrations (servers : list McpServerConfig.t)
    (w w' : World) (content : string) (config : McpConfiguration.t)
    (entries : list (string * McpConfiguration.entry)) :
  mcpJson w = Some content ->
  jsonParse content = inr (Some config) ->
  McpConfiguration.servers config = Some entries ->
  (forall t, fsFault t FsRead = None) ->
  installServers servers w = (Returned true, w') ->
  mcpJson w' = Some content
  \/ exists config' entries',
       mcpJson w' = Some (jsonStringify config')
       /\ McpConfiguration.inputs config' = McpConfiguration.inputs config
       /\ McpConfiguration.servers config' = Some entries'
       /\ sublist (map fst entries) (map fst entries')
       /\ forall key, ~ In key (map McpServerConfig.name servers) ->
            getProperty key entries' = getProperty key entries.
Proof.
  intros Hfile Hparse Hentries Hsound.
  rewrite installServers_run. cbv zeta.
  set (line := AppendLine _).
  assert (Hread : readMcpConfig (mkWorld (mcpJson w) (line :: trace w))
                  = (Returned (Some config),
                     mkWorld (mcpJson w) (ReadFile :: line :: trace w))).
  { unfold readMcpConfig, tryCatch, mbind, eff_bind, bind, ask, emit, get.
    cbn [trace mcpJson]. rewrite Hsound. cbn [trace mcpJson]. rewrite Hfile, Hparse.
    reflexivity. }
  rewrite Hread.
  destruct (installLoop servers config false _) as [[[b|[config' needs]]|e] w2] eqn:E2;
    [| |discriminate].
  { intros [= -> <-].
    destruct (installer_run _ _ _ _ _ (installLoop_spec _ _ _) E2) as (_ & n & _ & _ & Hb & _).
    discriminate Hb. }
  destruct (installer_run _ _ _ _ _ (installLoop_extends _ _ _) E2) as (Hj & n & _ & [Hi He]).
  destruct needs.
  - destruct (writeMcpConfig config' w2) as [[[]|e] w3] eqn:E3; [|discriminate].
    intros [= <-]. destruct (writeMcpConfig_run _ _ _ _ E3) as [_ Hj3].
    right. destruct (He entries Hentries) as (entries' & Hs & Hk & Hg).
    exists config', entries'. now repeat split.
  - intros [= <-]. left. cbn [mcpJson] in Hj. now rewrite Hj.
Qed.

End RegistryFacts.

(* ===================================================================== *)
(** * Properties: what provisioning writes                                *)
(* ===================================================================== *)

Section LedgerFacts.
Import Eff McpInstaller.
Context {host : Host}.

Local Abbreviation M := (Eff.M World).
Local Abbreviation unregistered := (free isRegistration).

Lemma replay_app (n2 n1 : list Event) (config : McpConfiguration.t) :
  replay (n2 ++ n1) config = replay n2 (replay n1 config).
Proof.
  induction n2 as [|e n2 IH]; cbn [app replay]; [reflexivity|]. now rewrite IH.
Qed.

Lemma replay_unregistered (new : list Event) (config : McpConfiguration.t) :
  existsb isRegistration new = false -> replay new config = config.
Proof.
  induction new as [|e new IH]; cbn [existsb replay]; [reflexivity|].
  intros H. apply orb_false_iff in H as [He Hnew]. rewrite (IH Hnew).
  destruct e; try reflexivity. discriminate He.
Qed.

Lemma accepted_unregistered (new : list Event) :
  existsb isRegistration new = false -> accepted new = false.
Proof.
  unfold accepted. induction new as [|e new IH]; cbn [existsb]; [reflexivity|].
  intros H. apply orb_false_iff in H as [He Hnew]. rewrite (IH Hnew).
  unfold isRegistration in He. apply orb_false_iff in He as [-> _]. reflexivity.
Qed.

Lemma accepted_app (n2 n1 : list Event) : accepted (n2 ++ n1) = accepted n2 || accepted n1.
Proof. apply existsb_app. Qed.

Lemma unregistered_emit (e : Event) :
  isRegistration e = false -> spec (emit e) unregistered.
Proof. intros H. apply installer_emit. unfold free. cbn [existsb]. now rewrite H. Qed.

Lemma unregistered_ask {A} (oracle : list Event -> A) : spec (ask oracle) unregistered.
Proof. now apply installer_ask. Qed.

Ltac unregistered_steps :=
  repeat first
    [ apply free_ret
    | apply free_throw
    | apply free_get
    | apply unregistered_ask
    | apply unregistered_emit; reflexivity
    | apply free_bind; [|intros ?]
    | apply free_tryCatch; [|intros ?]
    | progress cbv zeta
    | match goal with
      | |- spec (match ?x with _ => _ end) _ => destruct x
      | |- spec (if ?x then _ else _) _ => destruct x
      end ].

Lemma unregistered_appendLine (line : string) : spec (appendLine line) unregistered.
Proof. unfold appendLine. unregistered_steps. Qed.

Lemma unregistered_executeDotnetCommand (args : list string) :
  spec (executeDotnetCommand args) unregistered.
Proof. unfold executeDotnetCommand, appendLine. unregistered_steps. Qed.

Lemma unregistered_getNuGetPackageVersion (packageName : string) :
  spec (getNuGetPackageVersion packageName) unregistered.
Proof.
  unfold getNuGetPackageVersion.
  apply free_bind; [apply unregistered_appendLine|intros _].
  apply free_bind; [apply unregistered_executeDotnetCommand|intros result].
  apply free_bind; [apply unregistered_appendLine|intros _].
  cbv zeta.
  destruct (Js.split _ _) as [|l0 [|l1 [|l2 ls]]];
    try (apply free_bind; [apply unregistered_appendLine|intros _; apply free_ret]).
  destruct (Js.splitWs _) as [|p0 [|p1 ps]];
    apply free_bind; try apply unregistered_appendLine; intros _; apply free_ret.
Qed.

Lemma unregistered_installNuGetGlobalTool (server : McpServerConfig.t) :
  spec (installNuGetGlobalTool server) unregistered.
Proof.
  unfold installNuGetGlobalTool.
  destruct (negb _); [apply free_throw|]. cbv zeta.
  apply free_bind; [apply unregistered_emit; reflexivity|intros _].
  apply free_bind; [apply unregistered_emit; reflexivity|intros _].
  apply free_bind.
  { destruct (truthy (McpServerConfig.nugetFeed server)); [|apply free_ret].
    apply free_bind; [apply unregistered_appendLine|intros _; apply free_ret]. }
  intros installArgs.
  apply free_bind; [apply unregistered_emit; reflexivity|intros _].
  apply free_bind; [apply unregistered_executeDotnetCommand|intros result].
  destruct (negb _); [apply free_throw|apply unregistered_appendLine].
Qed.

Lemma unregistered_readMcpConfig : spec readMcpConfig unregistered.
Proof.
  unfold readMcpConfig.
  apply free_tryCatch.
  - apply free_bind; [apply unregistered_ask|intros fault].
    apply free_bind; [apply unregistered_emit; reflexivity|intros _].
    destruct fault; [apply free_throw|].
    apply free_bind; [apply free_get|intros w].
    destruct (mcpJson w); [|apply free_throw].
    destruct (jsonParse _); [apply free_throw|apply free_ret].
  - intros error. destruct error as [n m|code m|]; try apply free_throw.
    destruct (String.eqb code "FileNotFound"); [apply free_ret|apply free_throw].
Qed.

(** A postcondition that does not see older events that register
    nothing, and that holds of every exception. *)
Lemma after_unregistered {A B} (m : M A) (k : A -> M B)
    (Q : outcome B -> list Event -> Prop) :
  (forall r n2 n1, Q r n2 -> existsb isRegistration n1 = false -> Q r (n2 ++ n1)) ->
  (forall e n, Q (Threw e) n) ->
  spec m unregistered -> (forall a, spec (k a) Q) -> spec (m ≫= k) Q.
Proof.
  intros Hold Hthrow Hm Hk. eapply spec_bind; [exact Hm| |].
  - intros a n1 H1. eapply spec_weaken; [apply Hk|].
    intros r n2 H2. now apply Hold.
  - intros e n1 _. apply Hthrow.
Qed.

(** What the accepted branch of an installation procedure hands on. *)
Local Abbreviation registeredPost config :=
  (fun (r : outcome (InstallResult * McpConfiguration.t)) (new : list Event) =>
     match r with
     | Returned (result, config') =>
         config' = replay new config /\ configModified result = true /\ accepted new = false
     | Threw _ => True
     end).

Lemma registeredPost_older (config : McpConfiguration.t)
    (r : outcome (InstallResult * McpConfiguration.t)) (n2 n1 : list Event) :
  registeredPost config r n2 -> existsb isRegistration n1 = false ->
  registeredPost config r (n2 ++ n1).
Proof.
  destruct r as [[result config']|e]; [|auto].
  intros (-> & Hm & Ha) H1. split; [|split; [exact Hm|]].
  - now rewrite replay_app, (replay_unregistered n1).
  - now rewrite accepted_app, Ha, (accepted_unregistered n1 H1).
Qed.

Lemma ledger_older (config : McpConfiguration.t)
    (r : outcome (InstallResult * McpConfiguration.t)) (n2 n1 : list Event) :
  ledger config r n2 -> existsb isRegistration n1 = false -> ledger config r (n2 ++ n1).
Proof.
  destruct r as [[result config']|e]; [|auto].
  intros (-> & Hm) H1. split.
  - now rewrite replay_app, (replay_unregistered n1).
  - now rewrite accepted_app, <- Hm, (accepted_unregistered n1 H1), orb_false_r.
Qed.

Lemma registered_ledger (server : McpServerConfig.t) (config : McpConfiguration.t) :
  spec (config' ← addServerToConfig config server;
        mret (mkResult false true, config'))
       (registeredPost config).
Proof.
  unfold addServerToConfig. cbv zeta.
  destruct (McpConfiguration.servers config) as [servers|] eqn:Hservers.
  - intros w r w' E. injection E as <- <-. split; [reflexivity|].
    eexists [_; _]. split; [reflexivity|].
    cbn [replay]. rewrite Hservers. now repeat split.
  - intros w r w' E. injection E as <- <-. split; [reflexivity|].
    exists []. now split.
Qed.

Lemma confirmation_ledger (server : McpServerConfig.t) (config : McpConfiguration.t)
    (k : M (InstallResult * McpConfiguration.t)) :
  spec k (registeredPost config) ->
  spec (shouldInstall ← ask (fun t => confirmation t server);
        emit (ShowConfirmation server shouldInstall);;
        if negb shouldInstall then mret (mkResult true false, config) else k)
       (ledger config).
Proof.
  intros Hk.
  eapply spec_bind with (P := fun _ n => n = []).
  - now apply installer_ask.
  - intros shouldInstall n1 ->.
    eapply spec_bind
      with (P := fun r n => r = Returned tt /\ n = [ShowConfirmation server shouldInstall]).
    + apply installer_emit. now split.
    + intros _ n1 [_ ->]. destruct shouldInstall; cbn [negb].
      * eapply spec_weaken; [exact Hk|].
        intros [[result config']|e] n2; [|auto].
        intros (-> & Hm & Ha). rewrite !List.app_nil_r. split.
        -- now rewrite replay_app.
        -- rewrite accepted_app, Hm. cbn. now rewrite orb_true_r.
      * apply spec_ret. now split.
    + intros e n1 [Hr _]. discriminate Hr.
  - intros e n1 _. exact I.
Qed.

Lemma installNuGetForServer_ledger (server : McpServerConfig.t)
    (config : McpConfiguration.t) :
  spec (installNuGetForServer server config) (ledger config).
Proof.
  unfold installNuGetForServer.
  destruct (negb _); [now apply spec_throw|]. cbv zeta.
  apply after_unregistered;
    [apply ledger_older | now intros | apply unregistered_appendLine | intros _].
  apply after_unregistered; [apply ledger_older | now intros | | intros sufficient].
  { destruct (truthy (McpServerConfig.version server)); [|apply free_ret].
    apply free_bind; [apply unregistered_getNuGetPackageVersion | intros installedVersion].
    destruct (_ && _).
    - apply free_bind; [apply unregistered_appendLine | intros _; apply free_ret].
    - apply free_bind; [|intros _; apply free_ret].
      destruct (truthy installedVersion); [apply unregistered_appendLine | apply free_ret]. }
  destruct sufficient; [apply spec_ret; now split|].
  apply confirmation_ledger.
  apply after_unregistered;
    [apply registeredPost_older | now intros | apply unregistered_installNuGetGlobalTool
    | intros _].
  apply after_unregistered;
    [apply registeredPost_older | now intros | apply unregistered_appendLine | intros _].
  apply registered_ledger.
Qed.

Lemma installServerConfig_ledger (server : McpServerConfig.t)
    (config : McpConfiguration.t) :
  spec (installServerConfig server config) (ledger config).
Proof.
  unfold installServerConfig.
  destruct (McpConfiguration.servers config) as [servers|]; [|now apply spec_throw].
  destruct (inServers _ _ _).
  - apply after_unregistered;
      [apply ledger_older | now intros | apply unregistered_appendLine | intros _].
    apply spec_ret. now split.
  - apply confirmation_ledger. apply registered_ledger.
Qed.

Lemma loopLedger_older (config : McpConfiguration.t) (needs : bool)
    (r : outcome (bool + McpConfiguration.t * bool)) (n2 n1 : list Event) :
  loopLedger config needs r n2 -> existsb isRegistration n1 = false ->
  loopLedger config needs r (n2 ++ n1).
Proof.
  destruct r as [[b|[config' needs']]|e]; auto.
  intros (-> & ->) H1. split.
  - now rewrite replay_app, (replay_unregistered n1).
  - now rewrite accepted_app, (accepted_unregistered n1 H1), orb_false_r.
Qed.

Lemma installOne_ledger (server : McpServerConfig.t) (config : McpConfiguration.t)
    (needs : bool) :
  spec (installOne server config needs) (loopLedger config needs).
Proof.
  unfold installOne.
  eapply spec_tryCatch with (P := loopLedger config needs).
  - eapply spec_bind with (P := ledger config).
    + destruct (truthy (McpServerConfig.nugetPackage server));
        [apply installNuGetForServer_ledger | apply installServerConfig_ledger].
    + intros [result config'] n1 [-> Hm].
      destruct (cancelled result).
      * eapply spec_bind with (P := fun _ _ => True).
        -- eapply spec_weaken; [apply unregistered_appendLine | auto].
        -- intros _ n2 _. now apply spec_ret.
        -- auto.
      * apply spec_ret. cbn [app]. split; [reflexivity|].
        rewrite Hm. now destruct (accepted n1), needs.
    + intros e n1 _. exact I.
  - intros a n1 H. exact H.
  - intros e n1 _. cbv zeta.
    eapply spec_bind with (P := fun _ _ => True).
    + eapply spec_weaken; [apply unregistered_appendLine | auto].
    + intros _ n2 _. now apply spec_throw.
    + auto.
Qed.

Lemma installLoop_ledger (servers : list McpServerConfig.t) :
  forall (config : McpConfiguration.t) (needs : bool),
    spec (installLoop servers config needs) (loopLedger config needs).
Proof.
  induction servers as [|server rest IH]; intros config needs; cbn [installLoop].
  - apply spec_ret. split; [reflexivity|]. now destruct needs.
  - eapply spec_bind with (P := loopLedger config needs).
    + apply installOne_ledger.
    + intros [b|[config' needs']] n1 H1; [now apply spec_ret|].
      destruct H1 as [-> ->].
      eapply spec_weaken; [apply IH|].
      intros [[b|[config'' needs'']]|e] n2; auto.
      intros [-> ->]. split.
      * now rewrite replay_app.
      * rewrite accepted_app. now destruct needs, (accepted n1), (accepted n2).
    + intros e n1 _. exact I.
Qed.

(** A descriptor that is passed over leaves the configuration and the
    flag as they are. *)
Lemma installOne_skipped (server : McpServerConfig.t) (config : McpConfiguration.t)
    (needs : bool) (w : World) :
  skipped config server ->
  exists w', installOne server config needs w = (Returned (inr (config, needs)), w').
Proof.
  unfold skipped, installOne, tryCatch, mbind, eff_bind, bind.
  destruct (truthy (McpServerConfig.nugetPackage server)) eqn:Hp.
  - intros (packageName & required & installed & code & out & err
            & Hpackage & Hversion & Hv & Hdotnet & Hlisted & Hi & Hsufficient).
    assert (packageName <> "") as Hn.
    { intros ->. rewrite Hpackage in Hp. discriminate Hp. }
    destruct (installNuGetForServer_listed server config packageName required installed w
                code out err Hpackage Hn Hversion Hv Hdotnet Hlisted Hi Hsufficient)
      as (w' & new & E & _).
    rewrite E. cbn. now exists w'.
  - intros (entries & Hentries & Hin).
    unfold installServerConfig. rewrite Hentries, Hin.
    cbn. eexists. reflexivity.
Qed.

Lemma installLoop_skipped (config : McpConfiguration.t) (servers : list McpServerConfig.t) :
  Forall (skipped config) servers ->
  forall (needs : bool) (w : World),
    exists w', installLoop servers config needs w = (Returned (inr (config, needs)), w').
Proof.
  intros Hall. induction Hall as [|server rest Hskip _ IH]; intros needs w.
  - now exists w.
  - cbn [installLoop]. unfold mbind, eff_bind, bind.
    destruct (installOne_skipped server config needs w Hskip) as [w1 ->].
    apply IH.
Qed.
(** C7. A run of [installServers] that returns [true] has seen no
    declined confirmation, and has assigned to the configuration in
    memory exactly if the user accepted a descriptor.  If so, the file
    was written once, as the last thing done, right after its directory
    was made sure of, and what was written is the configuration read
    with the assignments of the run made, whether or not they changed
    it.  If not, there was no disk call at all and the file is what it
    was; and that is the case when every descriptor of the batch is
    passed over, being configured already or installed in a sufficient
    version. *)
Theorem installServers_single_write (servers : list McpServerConfig.t) (w w' : World)
    (new : list Event) :
  installServers servers w = (Returned true, w') ->
  trace w' = new ++ trace w ->
  declined new = false
  /\ mutated new = accepted new
  /\ (if accepted new
     then exists older,
            new = WriteFile (jsonStringify (replay new (configRead servers w)))
                  :: CreateDirectory :: older
            /\ wrote older = false
            /\ mcpJson w' = Some (jsonStringify (replay new (configRead servers w)))
     else wrote new = false /\ mcpJson w' = mcpJson w)
  /\ (Forall (skipped (configRead servers w)) servers ->
      wrote new = false /\ mcpJson w' = mcpJson w).
Proof.
  unfold configRead. rewrite installServers_run. cbv zeta.
  set (line := AppendLine _). set (w0 := mkWorld _ _).
  intros H Ht.
  destruct (readMcpConfig w0) as [[read|e] w1] eqn:E1; [|discriminate H].
  destruct (installer_run _ _ _ _ _ calm_readMcpConfig E1) as (Hd1 & n1 & Ht1 & D1 & M1 & W1).
  destruct (installer_run _ _ _ _ _ unregistered_readMcpConfig E1) as (_ & n1' & Ht1' & R1).
  assert (n1' = n1) as -> by (apply (List.app_inv_tail (trace w0)); congruence).
  change (trace w0) with (line :: trace w) in Ht1.
  cbn [fst].
  set (config0 := match read with Some c => c | None => emptyConfig end).
  replace (match read with Some config => config | None => emptyConfig end)
    with config0 in H by reflexivity.
  assert (Hread : forall n, replay (n ++ n1 ++ [line]) config0 = replay n config0).
  { intros n. rewrite !replay_app. now rewrite (replay_unregistered n1 _ R1). }
  assert (Hacc : forall n, accepted (n ++ n1 ++ [line]) = accepted n).
  { intros n. rewrite !accepted_app, (accepted_unregistered n1 R1). cbn.
    now rewrite orb_false_r. }
  destruct (installLoop servers config0 false w1)
    as [[[b|[config needs]]|e] w2] eqn:E2; [| |discriminate H];
    destruct (installer_run _ _ _ _ _ (installLoop_spec _ _ _) E2) as (Hd2 & n2 & Ht2 & W2 & H2).
  - destruct H2 as (-> & _). discriminate H.
  - destruct (installer_run _ _ _ _ _ (installLoop_ledger _ _ _) E2) as (_ & n2' & Ht2' & L2).
    assert (n2' = n2) as -> by (apply (List.app_inv_tail (trace w1)); congruence).
    destruct L2 as [Hconfig Hneeds']. cbn [orb] in Hneeds'.
    destruct H2 as [D2 Hneeds]. cbn [orb] in Hneeds.
    assert (Hskip : Forall (skipped config0) servers -> needs = false).
    { intros Hall. destruct (installLoop_skipped config0 servers Hall false w1) as [w2' E].
      rewrite E in E2. now injection E2. }
    destruct needs.
    + destruct (writeMcpConfig config w2) as [[[]|e] w3] eqn:E3; [|discriminate H].
      pose proof (writeMcpConfig_run _ _ _ _ E3) as [Ht3 Hd3].
      injection H as <-.
      assert (new = WriteFile (jsonStringify config) :: CreateDirectory
                    :: n2 ++ n1 ++ [line]) as ->.
      { apply (List.app_inv_tail (trace w)). rewrite <- Ht, Ht3, Ht2, Ht1.
        cbn [app]. now rewrite <- !List.app_assoc. }
      assert (Ha : accepted (WriteFile (jsonStringify config) :: CreateDirectory
                             :: n2 ++ n1 ++ [line]) = true).
      { change (accepted (n2 ++ n1 ++ [line]) = true). now rewrite Hacc. }
      assert (Hr : replay (WriteFile (jsonStringify config) :: CreateDirectory
                           :: n2 ++ n1 ++ [line]) config0 = config).
      { cbn [replay]. rewrite Hread.
        rewrite <- Hconfig. now destruct (McpConfiguration.servers config). }
      rewrite Ha, Hr.
      split.
      { unfold declined in *. cbn [existsb isDecline orb].
        now rewrite !existsb_app, D2, D1. }
      split.
      { unfold mutated in *. cbn [existsb isMutation orb].
        now rewrite !existsb_app, <- Hneeds. }
      split; [|intros Hall; now apply Hskip in Hall].
      exists (n2 ++ n1 ++ [line]).
      split; [reflexivity|]. split; [|exact Hd3].
      unfold wrote in *. now rewrite !existsb_app, W2, W1.
    + injection H as <-.
      assert (new = n2 ++ n1 ++ [line]) as ->.
      { apply (List.app_inv_tail (trace w)). rewrite <- Ht, Ht2, Ht1.
        now rewrite <- !List.app_assoc. }
      rewrite Hacc, <- Hneeds'.
      split.
      { unfold declined in *. now rewrite !existsb_app, D2, D1. }
      split.
      { unfold mutated in *. now rewrite !existsb_app, <- Hneeds, M1. }
      assert (Hnone : wrote (n2 ++ n1 ++ [line]) = false /\ mcpJson w2 = mcpJson w).
      { split.
        - unfold wrote in *. now rewrite !existsb_app, W2, W1.
        - now rewrite Hd2, Hd1. }
      split; [exact Hnone | intros _; exact Hnone].
Qed.

End LedgerFacts.

Section RegistryRuns.
Import Eff Samples McpInstaller.

(** One descriptor is registered, the other goes under an inherited
    name: nothing is asked and nothing is written. *)
Lemma installServers_already_configured_witness :
  exists w' new,
    installServers (host := registryHost) [docs; inherited] registryWorld = (Returned true, w')
    /\ mcpJson w' = mcpJson registryWorld
    /\ trace w' = new ++ trace registryWorld
    /\ forallb isReadOrLog new = true.
Proof.
  apply (installServers_already_configured (host := registryHost) [docs; inherited]
           registryWorld "servers: docs" registry
           [("docs", McpConfiguration.mkEntry "http" None None
                       (Some "https://example.com/mcp") None)]);
    try reflexivity.
  repeat constructor.
Defined.

(** Version 1.1.9 is installed where 1.1 is required. *)
Lemma installNuGetForServer_sufficient_witness :
  exists w' new,
    installNuGetForServer (host := registryHost) oldTool registry registryWorld
    = (Returned (mkResult false false, registry), w')
    /\ mcpJson w' = mcpJson registryWorld
    /\ trace w' = new ++ trace registryWorld
    /\ forallb isListOrLog new = true.
Proof.
  apply (installNuGetForServer_sufficient (host := registryHost) oldTool registry
           "My.Tool" "1.1" "1.1.9" registryWorld (Some 0) toolList "");
    (reflexivity || discriminate).
Defined.

(** A package is installed beside a registered service: the service
    stays registered. *)
Lemma installServers_keeps_registrations_witness :
  mcpJson (snd extendedRun) = Some "servers: docs"
  \/ exists config' entries',
       mcpJson (snd extendedRun) = Some (jsonStringify (Host := registryHost) config')
       /\ McpConfiguration.inputs config' = McpConfiguration.inputs registry
       /\ McpConfiguration.servers config' = Some entries'
       /\ sublist (map fst [("docs", McpConfiguration.mkEntry "http" None None
                                       (Some "https://example.com/mcp") None)])
                  (map fst entries')
       /\ forall key, ~ In key (map McpServerConfig.name [docs; tool]) ->
            getProperty key entries'
            = getProperty key [("docs", McpConfiguration.mkEntry "http" None None
                                          (Some "https://example.com/mcp") None)].
Proof.
  apply (installServers_keeps_registrations (host := registryHost) [docs; tool]
           registryWorld (snd extendedRun) "servers: docs" registry
           [("docs", McpConfiguration.mkEntry "http" None None
                       (Some "https://example.com/mcp") None)]);
    reflexivity.
Defined.

End RegistryRuns.

Section LedgerRuns.
Import Eff Samples McpInstaller.

(** Both descriptors of a batch of two are accepted: the file is written
    once, at the end.  Both descriptors of another batch are passed
    over: the file is not written. *)
Lemma installServers_single_write_witness :
  (declined (trace (snd acceptedRun)) = false
   /\ mutated (trace (snd acceptedRun)) = accepted (trace (snd acceptedRun))
   /\ (if accepted (trace (snd acceptedRun))
       then exists older,
              trace (snd acceptedRun)
              = WriteFile
                  (jsonStringify (Host := installerHost true)
                     (replay (trace (snd acceptedRun))
                        (configRead (host := installerHost true) [docs; tool] installerWorld)))
                :: CreateDirectory :: older
              /\ wrote older = false
              /\ mcpJson (snd acceptedRun)
                 = Some (jsonStringify (Host := installerHost true)
                           (replay (trace (snd acceptedRun))
                              (configRead (host := installerHost true) [docs; tool]
                                 installerWorld)))
       else wrote (trace (snd acceptedRun)) = false
            /\ mcpJson (snd acceptedRun) = mcpJson installerWorld)
   /\ (Forall (skipped (host := installerHost true)
                 (configRead (host := installerHost true) [docs; tool] installerWorld))
              [docs; tool] ->
       wrote (trace (snd acceptedRun)) = false
       /\ mcpJson (snd acceptedRun) = mcpJson installerWorld))
  /\ Forall (skipped (host := registryHost)
               (configRead (host := registryHost) [docs; oldTool] registryWorld))
            [docs; oldTool]
  /\ wrote (trace (snd skippedRun)) = false
  /\ mcpJson (snd skippedRun) = mcpJson registryWorld.
Proof.
  split.
  - apply (installServers_single_write (host := installerHost true)
             [docs; tool] installerWorld (snd acceptedRun) (trace (snd acceptedRun))).
    + vm_compute. reflexivity.
    + vm_compute. reflexivity.
  - assert (Hall : Forall (skipped (host := registryHost)
                             (configRead (host := registryHost) [docs; oldTool] registryWorld))
                          [docs; oldTool]).
    { constructor; [|constructor; [|constructor]].
      - exists [("docs", McpConfiguration.mkEntry "http" None None
                           (Some "https://example.com/mcp") None)].
        split; reflexivity.
      - exists "My.Tool", "1.1", "1.1.9", (Some 0), toolList, "".
        repeat split; try reflexivity; discriminate. }
    split; [exact Hall|].
    apply (installServers_single_write (host := registryHost)
             [docs; oldTool] registryWorld (snd skippedRun) (trace (snd skippedRun))).
    + vm_compute. reflexivity.
    + vm_compute. reflexivity.
    + exact Hall.
Defined.

(** The file is written although no descriptor changed the
    configuration in memory.  [tool] is registered as its descriptor
    describes it, version 1.1.9 of its package is installed where 1.2.0
    is required, and the user accepts: the run returns [true], the
    configuration in memory is after the run what was read, and the
    file was written, once. *)
Lemma installServers_writes_unchanged_registry :
  fst upgradeRun = Eff.Returned true
  /\ configRead (host := toolHost) [tool] toolWorld = toolRegistry
  /\ replay (McpInstaller.trace (snd upgradeRun)) toolRegistry = toolRegistry
  /\ wrote (McpInstaller.trace (snd upgradeRun)) = true
  /\ List.filter isDiskCall (McpInstaller.trace (snd upgradeRun))
     = [McpInstaller.WriteFile "servers: tool"; McpInstaller.CreateDirectory].
Proof. vm_compute. repeat split. Qed.

End LedgerRuns.
